(* ===== verification/_CoqProject ===== *)
-Q . S2P
Prelude.v
MetaStore.v
BlobStore.v
Io.v
Http.v
Server.v
Worker.v
Contract.v
Hosts.v
Race.v
Pool.v
TimeFormat.v
Player.v
Page.v
Url.v
System.v
Origin.v
Schema.v
