(* ===== verification/Prelude.v ===== *)
(** * A verification development of the playlist service (nowfow/quiz)

    The repository is a small music-playlist service. Its parts are

    - the Metadata Store: a relational table [playlist(id, title, path,
      position)] reached through a MySQL pool ([src/server.js]) or a D1
      database ([src/worker.js]);
    - the Blob Store: a WebDAV server reached through the [webdav] client
      ([putFileContents], [createReadStream]);
    - the Playlist Service, written twice: as an Express application
      ([src/server.js]: the routes [GET /api/playlist], [POST /api/playlist],
      [POST /api/upload] behind [multer], [GET /api/track/:path], all behind
      [cors()] and [express.json()]) and as a request-scoped edge function
      ([src/worker.js]: one [fetch] handler that routes on [url.pathname] and
      [request.method]);
    - the Client Player ([src/client/src/App.js]): a React component that
      lists, uploads and plays tracks through one [Audio] element and sends
      its requests with [axios] to [API_URL].

    The hosts reach the stores only through awaited calls. The client
    reaches a host only through HTTP, and handles each response after an
    [await].

    ** Files, in dependency order

    - [Prelude] (this file): the monad class of the development and its
      notation scope [quiz_scope], the tactics, the hint databases [quiz]
      and [quiz_rw], and the lemmas on options, lists and strings that the
      components share.
    - [MetaStore] (Module [MetaStore]): the table as its rows in insertion
      order plus the auto-increment counter. The four statements the code
      issues are executable functions: [insert], [select_by_id],
      [max_position] and [order_by_position] (a stable insertion sort, with
      NULL first). The file also defines the well-formedness invariant [wf].
    - [BlobStore] (Module [BlobStore]): the WebDAV store as a [gmap] from
      paths to bytes. [putFileContents] overwrites. [createReadStream]
      returns a stream whose bytes are resolved when it is read. The client
      library is not code of the repository; it is modelled from the spec.
    - [Io] (Module [Io]): the awaited calls of a handler as a free monad
      [io] of commands, whose continuation receives each call's outcome.
      [catch] models the handlers' [try]/[catch]. The interpreter [run]
      executes a program against a world (the table and the blobs) and a
      fault schedule. [obs_eq] is observational equivalence, a setoid with
      [Proper] instances for [bind] and [catch]. [io_sim] relates two
      programs that issue the same calls, and [run_sim] shows that they run
      alike.
    - [Http] (Module [Http]): requests (method, path, parsed body) and
      responses (status, headers, body), as both hosts see them.
    - [Server] (Module [Server]): each route of [src/server.js] as an [io]
      program, plus the pieces in front of them:
      - [cors()] and its preflight;
      - the 400 from [express.json()] on a malformed body;
      - [multer]'s [upload.single('file')] with its limits, over the file
        name busboy reports ([busboy_filename]: the quoted name unescaped,
        then its last segment after ['/'] or ['\'], with ["."] and [".."]
        made empty; a file part whose name is empty is skipped);
      - Express 4 route matching (case-insensitive, optional trailing slash;
        [:path] is one segment and is percent-decoded), with [HEAD] served
        by the [GET] routes without a body;
      - [server_app], the whole application.
    - [Worker] (Module [Worker]): the [fetch] handler of [src/worker.js]
      with its body parsing ([request.json()], [request.formData()], D1's
      refusal of [undefined]), the falsy test [!file] (a missing field or
      an empty text), routing, JSON 500s and the 404.
    - [Contract] (Module [Contract]): the spec's contract of the Playlist
      Service (sections 4.1 to 4.3 and 7), stated on every world and fault
      schedule, as a class [PlaylistService].
      - Ingestion is stated for a file with a plain name ([plain_name]:
        nonempty, not ["."] or [".."], no ['/'] or ['\']) of at most 200 MB
        ([file_ok]): busboy rewrites any other name, so the Express host
        stores the row under another name than the one sent. The missing
        file clause covers every form without a file part ([no_file_form]).
      - Both hosts are instances; [serve_of] picks a host.
      - The refinement theorems show that each host meets the contract.
      - Section [Client] proves, from the class alone, what a client of any
        host sees across several requests.
    - [Hosts] (Module [Hosts]): behaviours outside the common contract:
      the track route on the paths that uploads store, uploads whose form
      has no file or two files, inserts without a position, and other
      spellings of [/api/playlist]; and a simulation of the two hosts on
      the contract's requests.
    - [Race] (Module [Race]): requests in flight interleave at their
      awaited calls, modelled as a step relation over configurations (world,
      faults, threads). The scheduler [run_sched] is executable.
      - Invariants hold by rule induction, with every blob row backed.
      - The race on positions documented in spec section 5 is proved.
    - [Pool] (Module [Pool]): the MySQL pool of the Express host, with the
      options of [mysql.createPool] in [src/server.js] ([pool_options]) and
      mysql2's [getConnection], [releaseConnection] and [_removeConnection]
      as functions on the pool's counters and queue. [pstep] interleaves the
      handlers as [Race] does, each SQL call split into its request for a
      connection and the query on it; [prun] is an executable scheduler.
      With the options of [src/server.js] the pool never refuses, so each
      pooled step is a step of [Race] or changes only the pool.
    - [TimeFormat] (Module [TimeFormat]): [formatTime] of [App.js], with
      [Math.floor], the remainder of [%], [toString] and [padStart].
    - [Player] (Module [Player]): the component's React state, the [Audio]
      element and the requests it awaits, as one record.
      - Each handler runs up to its [await] as one [step].
      - The rest of the handler runs when the request settles, an event that
        may come after any other.
      - [on_media_event] is the second effect's listeners ([timeupdate],
        [loadedmetadata]; none for [ended]).
      - [enabled] says which events the rendered page allows.
      - [reach] gives the states reachable from the first render.
    - [Page] (Module [Page]): the JSX [App] returns, as [view], a function
      of the state: the upload button, the heading, the play/pause icon,
      the time labels and slider, and one list item per track with its
      [key], [selected], title and [`Позиция: ${track.position}`].
    - [Url] (Module [Url]): the WHATWG URL parser from the path start
      state on, as an executable function: trimming, tab and newline
      removal, segments ended by ['/'] or ['\'], ['?'] and ['#'], the path
      percent-encode set, and single- and double-dot segments.
      [url_pathname] is the pathname the host sees for the track URL. The
      Express host's [decodeURIComponent] of [:path] is proved to invert
      the browser's encoding on the names it can carry.
    - [System] (Module [System]): the player composed with a host.
      - A request is served when it settles; [settle_request] turns the
        response into the player's reply as [axios] delivers it.
      - Section [Service] is proved against [PlaylistService].
      - [sys_step] lets the user choose files under any name; the Express
        host's rows then have paths [/music/<n>] with no separator in [n].
    - [Origin] (Module [Origin]): the WHATWG URL parser from its start, for
      special schemes with an authority: scheme, credentials, host and
      port states and the host parser for ASCII domains, handing the rest
      to [Url]'s path start state. [api_url_parse]: every
      [`${API_URL}/...`] URL keeps [API_URL]'s host, and its path is read by
      [Url]'s path start state.
    - [Schema] (Module [Schema]): the data the player shows, over whole
      runs: the types of a Track (spec section 3) as an invariant of the
      table and of the playlist, shown on the page, and the tracks the
      player lists or plays as rows of the table.

    ** What the theorems show

    - The refinement theorems (Contract): both hosts implement the spec's
      listing, insertion, ingestion and missing-file contracts on every
      fault schedule. With no fault, listing and ingestion succeed.
    - The client theorems (Contract, Section [Client]), for any instance:
      sequential uploads are listed in upload order, a new position lies
      above all existing ones, and same-name uploads share one blob.
    - Every response of the Express host allows any origin (Server). The
      edge host's 404 lacks the CORS headers (Worker).
    - Where the contract stops (Contract): a fault after the blob write
      orphans the blob, and only the Express host refuses files above
      200 MB.
    - Host differences (Hosts): the Express host answers 404 to every
      uploaded track's URL, and the edge host streams any path with status
      200. The two disagree on uploads without a file, on inserts without
      a position (a NULL position, listed first, against a 500), and on
      [/api/playlist] spelled in another case or with a trailing slash,
      and on a form with two files (a 500 from [multer] against the first
      file ingested).
      On the contract's requests the hosts simulate each other: the same
      calls, the same status and body, on every world and fault schedule.
    - Concurrency (Race): under every interleaving of uploads, each row
      with a path has its blob. Two racing uploads get the same position.
      A direct insert can break the invariant.
    - The pool (Pool): with the options of [src/server.js] it never
      refuses a request, so every pooled run is an interleaving of [Race]
      and rows keep their blobs behind it.
    - The player (Player):
      - the play/pause button matches the element until a track ends, and
        then it does not;
      - a stale track response wins;
      - the skip buttons jump to the first and last tracks;
      - at most one upload is in flight;
      - the title shows a track exactly when the element has media, so
        the play button pressed before any track switches to Pause over
        silence.
    - [formatTime] round-trips (TimeFormat): it shows the whole seconds as
      [m:ss], with [ss] two digits below 60.
    - End to end (System):
      - on either host, an uploaded file is listed, sorted, after the
        refresh;
      - on the edge host, it plays its bytes when its name needs no URL
        encoding, and otherwise the blob under the encoded name plays;
      - on either host, in every interleaving, at most one list item is
        selected (the ids of the listing stay distinct);
      - on either host, in every interleaving under any faults, a table of
        Tracks stays one, and every list item shows a title and a numeric
        position (Schema): only a direct insert, which the player never
        sends, stores a NULL column;
      - on either host, in every interleaving under any faults, every track
        the player lists or shows as current is a row of the table (Schema);
      - the Express host reads [/api/track/<name>] as [<name>] (Url) for
        every name that is no dot segment and has no trailing blank, tab,
        line break, ['#'], ['%'], ['/'], ['?'] or ['\']; a ['%'] in a name
        is decoded (a finding);
      - on the Express host, no uploaded track ever plays: in every
        interleaving of events (files chosen under any name) and
        settlements, under any faults, the element never gets a source, as
        every track URL reaches the host as [/api/track//...].

    ** Bounds, faults and fuel

    - Faults: each call that reaches a store consumes one entry of the
      schedule. [Some msg] fails that call with [msg] and leaves the world
      as it was; [None] lets it take effect. An exhausted schedule means no
      more faults, so [[]] is a fault-free run. [createReadStream] makes no
      request and consumes nothing.
    - [multer]'s limits are those of the code and of busboy's defaults:
      - a file of at most 200 MB ([file_size_limit]);
      - text values of at most 1 MB;
      - field names of at most 100 bytes.
      The contract's ingestion clauses assume the 200 MB bound, which the
      edge host does not have (a finding), and a plain name.
    - Positions and ids are exact integers. The hosts compute
      [(maxPos || 0) + 1] in doubles, which is the exact successor while
      [|maxPos + 1| <= 2^53]; positions beyond are not modelled. The widths
      of the table's columns are not in the repository and are not
      modelled.
    - Interleavings are schedules: finite lists of thread indices. Each
      index runs one awaited call, and [run_sched] needs no other fuel.
    - [Pool.prun] runs a schedule of the pool with no other fuel; the
      pool's options are those of [src/server.js].
    - Times in [formatTime] are non-negative rationals, the finite values
      of the media element. Integers print as [toString] prints them below
      [10^21].

    ** What is not modelled

    - HTTP parsing and serialisation.
    - [body-parser]'s 100 kB limit on JSON bodies and its Content-Type
      check: a JSON body is modelled by its fields, not its size, and the
      player never sends one.
    - Express's URL normalisation beyond its route matching.
    - UTF-8 validation in [decodeURIComponent].
    - The table schema's column types.
    - Environment configuration ([dotenv], the WebDAV client's creation,
      [app.listen]), and the internals of MySQL, D1 and WebDAV beyond the
      pool. Opening a pool connection is modelled as succeeding; a failed
      query may keep or lose its connection.
    - The URL parser on IPv4 and IPv6 hosts, IDNA (non-ASCII hosts and
      [xn--] labels) and non-special schemes: [Origin.url_parse] answers
      [Unmodelled] there. The player's URLs are outside these cases.
    - The query and fragment of a URL: the hosts read the pathname only.
    - Material UI's layout and styling. What the page shows and the
      handlers it binds are modelled ([Page.view], [Player.step]).
    - A successful listing whose body is not an array: both hosts always
      answer with one. *)

From stdpp Require Export base list option strings gmap sorting.
From Stdlib Require Export ZArith Sorted Permutation Ascii.

Declare Scope quiz_scope.
Delimit Scope quiz_scope with quiz.
Open Scope quiz_scope.

(** ** A monad class of the development's own *)

Class Monad (m : Type -> Type) := {
  ret : forall {A}, A -> m A;
  bind : forall {A B}, m A -> (A -> m B) -> m B
}.
Arguments ret {m _ A} _.
Arguments bind {m _ A B} _ _.

Notation "x <- c ;; k" := (bind c (fun x => k))
  (at level 100, c at next level, right associativity) : quiz_scope.
Notation "c ;;; k" := (bind c (fun _ => k))
  (at level 100, right associativity) : quiz_scope.

(** ** Tactics *)

Create HintDb quiz.
Create Rewrite HintDb quiz_rw.

Ltac invc H := inversion H; subst; clear H.

(** Split every [match] on a variable-free scrutinee in the goal. *)
Ltac case_goal :=
  repeat match goal with
  | |- context [match ?e with _ => _ end] => destruct e eqn:?
  end.

(** ** Options *)

(** The maximum of two nullable integers, as SQL [MAX] combines them:
    [NULL] is ignored. *)
Definition omax (a b : option Z) : option Z :=
  match a, b with
  | None, _ => b
  | _, None => a
  | Some x, Some y => Some (Z.max x y)
  end.

Lemma omax_None_l b : omax None b = b.
Proof. reflexivity. Qed.

Lemma omax_comm a b : omax a b = omax b a.
Proof. destruct a, b; simpl; f_equal; try lia. Qed.

Lemma omax_ge_l a b x : a = Some x -> exists y, omax a b = Some y /\ (x <= y)%Z.
Proof. intros ->. destruct b; simpl; eexists; split; eauto; lia. Qed.

#[export] Hint Rewrite omax_None_l : quiz_rw.

(** ** Lists *)

Lemma find_app_None {A} (f : A -> bool) l1 l2 :
  List.find f l1 = None -> List.find f (l1 ++ l2) = List.find f l2.
Proof. induction l1 as [|x l1 IH]; simpl; [done|]. destruct (f x); [done|]. exact IH. Qed.

Lemma find_app_Some {A} (f : A -> bool) l1 l2 x :
  List.find f l1 = Some x -> List.find f (l1 ++ l2) = Some x.
Proof. induction l1 as [|y l1 IH]; simpl; [done|]. destruct (f y); [done|]. exact IH. Qed.

Lemma find_all_false {A} (f : A -> bool) l :
  Forall (fun x => f x = false) l -> List.find f l = None.
Proof. induction 1 as [|x l Hx _ IH]; simpl; [done|]. by rewrite Hx. Qed.

(** ** Relations *)

(** A property kept by every step holds all along a run. *)
Lemma rtc_inv {A} (R : relation A) (P : A -> Prop) x y :
  (forall a b, R a b -> P a -> P b) -> rtc R x y -> P x -> P y.
Proof. intros HR Hr. induction Hr; eauto. Qed.

(** ** Strings *)

Lemma substring_0_0 s : String.substring 0 0 s = EmptyString.
Proof. by destruct s. Qed.

Lemma substring_full s : String.substring 0 (String.length s) s = s.
Proof. induction s as [|c s IH]; simpl; [done|]. by rewrite IH. Qed.

Lemma substring_after_prefix pre s :
  String.substring (String.length pre)
    (String.length (String.append pre s) - String.length pre) (String.append pre s) = s.
Proof.
  induction pre as [|c pre IH]; simpl; [|exact IH].
  rewrite Nat.sub_0_r. apply substring_full.
Qed.

Lemma prefix_app pre s : String.prefix pre (String.append pre s) = true.
Proof.
  induction pre as [|c pre IH]; simpl; [by destruct s|].
  destruct (Ascii.ascii_dec c c); [exact IH|done].
Qed.

Lemma index_prefix pre s : String.index 0 pre (String.append pre s) = Some 0.
Proof.
  pose proof (prefix_app pre s) as H.
  destruct (String.append pre s) as [|c t] eqn:E; cbn [String.index].
  - destruct pre; [done|discriminate].
  - by rewrite H.
Qed.

(** [String.append] is [simpl never] under stdpp: its steps are taken
    with [change]. *)
Lemma string_app_nil_l s : String.append EmptyString s = s.
Proof. reflexivity. Qed.

Lemma string_app_nil_r s : String.append s EmptyString = s.
Proof.
  induction s as [|c s IH]; [done|].
  change (String c (String.append s EmptyString) = String c s). by rewrite IH.
Qed.

Lemma string_app_assoc a b c :
  String.append a (String.append b c) = String.append (String.append a b) c.
Proof.
  induction a as [|x a IH]; [done|].
  change (String x (String.append a (String.append b c)) =
          String x (String.append (String.append a b) c)). by rewrite IH.
Qed.

#[export] Hint Rewrite string_app_nil_l string_app_nil_r : quiz_rw.
