(* ===== verification/MetaStore.v ===== *)
(** * The Metadata Store: the [playlist] table

    The table [playlist(id, title, path, position)] that both hosts query.
    Rows are kept in insertion order with the auto-increment counter; the
    four statements the code issues are executable functions:

    - [insert]: [INSERT INTO playlist (title, path, position) VALUES (?, ?, ?)]
      returning [insertId] ([result.meta.last_row_id] in D1);
    - [select_by_id]: [SELECT * FROM playlist WHERE id = ?];
    - [max_position]: [SELECT MAX(position) as maxPos FROM playlist];
    - [order_by_position]: [SELECT * FROM playlist ORDER BY position].

    Columns are nullable (the schema is not in the repository); SQL puts
    [NULL] first in an ascending [ORDER BY] (MySQL and SQLite agree), and
    [MAX] ignores [NULL]. The order of rows with equal positions is not
    fixed by SQL: [order_by_position] is one admissible execution (a stable
    insertion sort), and the theorems about it state only what SQL promises
    (sorted, a permutation of the table). *)

From S2P Require Import Prelude.

Module MetaStore.

Record row := mk_row {
  row_id : nat;
  row_title : option string;
  row_path : option string;
  row_position : option Z
}.

Record table := mk_table {
  rows : list row;
  next_id : nat
}.

Definition empty_table : table := mk_table [] 1.

(** [INSERT]: the store assigns the next auto-increment id. *)
Definition insert (title path : option string) (position : option Z)
    (tb : table) : nat * table :=
  let i := next_id tb in
  (i, mk_table (rows tb ++ [mk_row i title path position]) (S i)).

(** [SELECT * FROM playlist WHERE id = ?] *)
Definition select_by_id (i : nat) (tb : table) : option row :=
  List.find (fun r => Nat.eqb (row_id r) i) (rows tb).

(** [SELECT MAX(position)]: [NULL] on an empty table or when every position
    is [NULL]. *)
Definition max_position (tb : table) : option Z :=
  foldr (fun r acc => omax (row_position r) acc) None (rows tb).

(** The order of [ORDER BY position] ascending: [NULL] first. *)
Definition pos_leb (a b : option Z) : bool :=
  match a, b with
  | None, _ => true
  | Some _, None => false
  | Some x, Some y => Z.leb x y
  end.

Definition row_leb (a b : row) : bool := pos_leb (row_position a) (row_position b).

Fixpoint insert_sorted (r : row) (l : list row) : list row :=
  match l with
  | [] => [r]
  | x :: l' => if row_leb r x then r :: x :: l' else x :: insert_sorted r l'
  end.

Fixpoint sort_rows (l : list row) : list row :=
  match l with
  | [] => []
  | x :: l' => insert_sorted x (sort_rows l')
  end.

(** [SELECT * FROM playlist ORDER BY position] *)
Definition order_by_position (tb : table) : list row := sort_rows (rows tb).

(** Well-formedness: ids are positive, strictly increasing in insertion
    order, and below the counter, which is positive. *)
Definition wf (tb : table) : Prop :=
  0 < next_id tb /\
  Sorted (fun a b => row_id a < row_id b) (rows tb) /\
  Forall (fun r => 0 < row_id r < next_id tb) (rows tb).

(** ** Lemmas *)

Lemma pos_leb_total a b : pos_leb a b = false -> pos_leb b a = true.
Proof. destruct a, b; simpl; try done. intros H%Z.leb_gt. apply Z.leb_le. lia. Qed.

Lemma pos_leb_trans a b c :
  pos_leb a b = true -> pos_leb b c = true -> pos_leb a c = true.
Proof.
  destruct a, b, c; simpl; try done.
  intros H1%Z.leb_le H2%Z.leb_le. apply Z.leb_le. lia.
Qed.

Lemma insert_sorted_perm r l : Permutation (insert_sorted r l) (r :: l).
Proof.
  induction l as [|x l IH]; simpl; [done|].
  destruct (row_leb r x); [done|].
  rewrite IH. constructor.
Qed.

Lemma sort_rows_perm l : Permutation (sort_rows l) l.
Proof.
  induction l as [|x l IH]; simpl; [done|].
  rewrite insert_sorted_perm. by constructor.
Qed.

Lemma insert_sorted_sorted r l :
  Sorted (fun a b => row_leb a b = true) l ->
  Sorted (fun a b => row_leb a b = true) (insert_sorted r l).
Proof.
  induction 1 as [|x l Hl IH Hhd]; simpl; [repeat constructor|].
  destruct (row_leb r x) eqn:E.
  - repeat constructor; done.
  - apply pos_leb_total in E. constructor; [done|].
    destruct l as [|y l]; simpl; [by repeat constructor|].
    invc Hhd. simpl in IH. destruct (row_leb r y); by constructor.
Qed.

Lemma sort_rows_sorted l : Sorted (fun a b => row_leb a b = true) (sort_rows l).
Proof. induction l; simpl; [constructor|]. by apply insert_sorted_sorted. Qed.

(** [ORDER BY position] returns the table's rows, sorted. *)
Lemma order_by_position_sorted tb :
  Sorted (fun a b => row_leb a b = true) (order_by_position tb).
Proof. apply sort_rows_sorted. Qed.

Lemma order_by_position_perm tb : Permutation (order_by_position tb) (rows tb).
Proof. apply sort_rows_perm. Qed.

#[export] Hint Resolve order_by_position_sorted order_by_position_perm : quiz.

Lemma select_fresh_None i tb :
  wf tb -> next_id tb <= i -> select_by_id i tb = None.
Proof.
  intros (_ & _ & Hlt) Hi. apply find_all_false.
  eapply Forall_impl; [exact Hlt|]. intros r Hr; simpl in Hr. apply Nat.eqb_neq. lia.
Qed.

Lemma insert_wf title path position tb :
  wf tb -> wf (snd (insert title path position tb)).
Proof.
  intros (Hn & Hs & Hb). unfold insert, wf; simpl. split_and!; [lia| |].
  - apply Sorted_snoc; [done|].
    destruct (rows tb) as [|b l] using rev_ind; [constructor|].
    apply TlRel_cons. rewrite Forall_app, Forall_singleton in Hb. destruct Hb as [_ Hb]. simpl in *. lia.
  - apply Forall_app; split.
    + eapply Forall_impl; [exact Hb|]. simpl; lia.
    + apply Forall_singleton. simpl. lia.
Qed.

(** The row that [INSERT] creates is the one [SELECT ... WHERE id = ?]
    reads back with the returned id. *)
Lemma insert_select_new title path position tb i tb' :
  wf tb -> insert title path position tb = (i, tb') ->
  select_by_id i tb' = Some (mk_row i title path position).
Proof.
  intros Hwf [= <- <-]. unfold select_by_id; simpl.
  rewrite find_app_None by (apply (select_fresh_None _ _ Hwf); lia).
  simpl. by rewrite Nat.eqb_refl.
Qed.

Lemma insert_fst title path position tb :
  fst (insert title path position tb) = next_id tb.
Proof. reflexivity. Qed.

(** The same, with [insert] unfolded as [simpl] leaves it. *)
Lemma select_appended title path position tb n :
  wf tb ->
  select_by_id (next_id tb) (mk_table (rows tb ++ [mk_row (next_id tb) title path position]) n) =
  Some (mk_row (next_id tb) title path position).
Proof. intros Hwf. exact (insert_select_new title path position tb _ _ Hwf eq_refl). Qed.

(** [INSERT] leaves every existing row readable as it was. *)
Lemma insert_select_old title path position tb j r :
  select_by_id j tb = Some r ->
  select_by_id j (snd (insert title path position tb)) = Some r.
Proof. intros H. by apply find_app_Some. Qed.

Lemma max_position_app l1 l2 :
  foldr (fun r acc => omax (row_position r) acc) None (l1 ++ l2) =
  omax (foldr (fun r acc => omax (row_position r) acc) None l1)
       (foldr (fun r acc => omax (row_position r) acc) None l2).
Proof.
  induction l1 as [|x l1 IH]; simpl; [done|]. rewrite IH.
  destruct (row_position x), (foldr _ _ l1), (foldr _ _ l2); simpl;
    f_equal; lia.
Qed.

(** [MAX(position)] after an [INSERT] combines the old maximum with the new
    position. *)
Lemma max_position_insert title path position tb :
  max_position (snd (insert title path position tb)) =
  omax (max_position tb) position.
Proof.
  unfold max_position; simpl. rewrite max_position_app. simpl.
  by destruct position.
Qed.

(** [MAX(position)] bounds every non-null position of the table. *)
Lemma max_position_upper tb r x :
  In r (rows tb) -> row_position r = Some x ->
  exists m, max_position tb = Some m /\ (x <= m)%Z.
Proof.
  unfold max_position. induction (rows tb) as [|y l IH]; simpl; [done|].
  intros [->|Hin] Hx.
  - by apply omax_ge_l.
  - destruct (IH Hin Hx) as (m & Hm & Hle). rewrite Hm, omax_comm.
    destruct (omax_ge_l (Some m) (row_position y) m eq_refl) as (m' & -> & ?).
    exists m'. split; [done|lia].
Qed.

(** [MAX(position)] is [NULL] exactly when no row has a position. *)
Lemma max_position_None tb :
  max_position tb = None <-> Forall (fun r => row_position r = None) (rows tb).
Proof.
  unfold max_position. induction (rows tb) as [|y l IH]; simpl.
  - split; [constructor|done].
  - rewrite Forall_cons, <- IH.
    destruct (row_position y), (foldr _ _ l); simpl; naive_solver.
Qed.

(** A sorted permutation of a list whose positions strictly increase is
    that list: [ORDER BY position] has only one answer on it. *)
Lemma sorted_perm_unique l1 l2 :
  Sorted (fun a b => row_leb a b = true) l1 ->
  StronglySorted (fun a b => row_leb b a = false) l2 ->
  Permutation l1 l2 -> l1 = l2.
Proof.
  revert l1. induction l2 as [|b l2 IH]; intros l1 Hs1 Hs2 Hp.
  { by apply Permutation_nil_r in Hp. }
  destruct l1 as [|a l1]; [by apply Permutation_nil_l in Hp|].
  apply StronglySorted_inv in Hs2 as [Hs2 Hb].
  apply Sorted_StronglySorted in Hs1 as Hss1;
    [|intros x y z; unfold row_leb; apply pos_leb_trans].
  apply StronglySorted_inv in Hss1 as [_ Ha].
  assert (a = b) as <-.
  { assert (In a (b :: l2)) as [->|Hin] by (eapply Permutation_in; [exact Hp|left; done]);
      [done|].
    assert (In b (a :: l1)) as [->|Hin'] by (eapply Permutation_in; [symmetry; exact Hp|left; done]);
      [done|].
    rewrite List.Forall_forall in Ha, Hb. specialize (Ha _ Hin'). specialize (Hb _ Hin).
    unfold row_leb in *. congruence. }
  f_equal. apply IH; [by apply Sorted_inv in Hs1 as []|done|].
  by apply Permutation_cons_inv in Hp.
Qed.

(** In a listing sorted by position, a row with a [NULL] position comes
    before every row that has one. *)
Lemma sorted_null_first l i j a b :
  Sorted (fun a b => row_leb a b = true) l ->
  l !! i = Some a -> row_position a = None ->
  l !! j = Some b -> is_Some (row_position b) -> (i < j)%nat.
Proof.
  intros Hs Hi Ha Hj [x Hb].
  apply Sorted_StronglySorted in Hs; [|intros ???; apply pos_leb_trans..].
  destruct (Nat.lt_ge_cases i j) as [|Hji]; [done|exfalso].
  destruct (decide (i = j)) as [->|Hne]; [congruence|].
  rewrite <- (take_drop i l) in Hs.
  pose proof (StronglySorted_app_1_elem_of _ _ _ b a Hs) as Hba.
  unfold row_leb in Hba. rewrite Ha, Hb in Hba. simpl in Hba.
  assert (Hin : b ∈ take i l) by (apply list_elem_of_lookup; exists j; rewrite lookup_take_lt by lia; done).
  assert (Hin' : a ∈ drop i l).
  { apply list_elem_of_lookup. exists 0%nat. by rewrite lookup_drop, Nat.add_0_r. }
  by pose proof (Hba Hin Hin').
Qed.

(** The ids of a well-formed table are pairwise distinct. *)
Lemma wf_ids_NoDup tb : wf tb -> NoDup (row_id <$> rows tb).
Proof.
  intros (_ & Hs & _). apply Sorted_StronglySorted in Hs; [|intros ???; lia..].
  induction Hs as [|r l _ IH Hall]; csimpl; constructor; [|done].
  intros Hin. apply list_elem_of_fmap in Hin as (r' & Heq & Hr').
  rewrite Forall_forall in Hall. specialize (Hall r' Hr'). lia.
Qed.

End MetaStore.
