(* ===== verification/BlobStore.v ===== *)
(** * The Blob Store: the WebDAV server behind the [webdav] client

    The WebDAV client is a library the sources call, not code of this
    repository: its two operations are modelled from the spec (section 4)
    and the client's documented behaviour. The store maps a path to the
    bytes last written there. [putFileContents] overwrites. The stream
    of [createReadStream] is returned at once and fetched later: its bytes
    are resolved against the store when the stream is read, and a missing
    path is an error event on the stream, not an exception at the call. *)

From S2P Require Import Prelude.

Module BlobStore.

(** A Node [Buffer] / the bytes of an [ArrayBuffer]. *)
Definition bytes := list Byte.byte.

Record stream := mk_stream { stream_path : string }.

(** [webdavClient.putFileContents(filePath, buffer)] *)
Definition putFileContents (p : string) (b : bytes)
    (s : gmap string bytes) : gmap string bytes :=
  <[p := b]> s.

(** [webdavClient.createReadStream(path)]: no request has been made yet. *)
Definition createReadStream (p : string) : stream := mk_stream p.

(** What a consumer of the stream receives: the bytes, or [None] for the
    error event of a missing path. *)
Definition stream_contents (s : gmap string bytes) (st : stream) : option bytes :=
  s !! stream_path st.

Lemma put_read p b s :
  stream_contents (putFileContents p b s) (createReadStream p) = Some b.
Proof. apply lookup_insert_eq. Qed.

Lemma put_read_other p q b s :
  p <> q ->
  stream_contents (putFileContents p b s) (createReadStream q) =
  stream_contents s (createReadStream q).
Proof. intros Hne. by apply lookup_insert_ne. Qed.

(** Writes never remove a path. *)
Lemma put_mono p b s q :
  is_Some (s !! q) -> is_Some (putFileContents p b s !! q).
Proof.
  unfold putFileContents. intros Hq.
  destruct (decide (p = q)) as [->|Hne].
  - by rewrite lookup_insert_eq.
  - by rewrite lookup_insert_ne.
Qed.

#[export] Hint Resolve put_mono : quiz.

End BlobStore.
