(* ===== verification/Io.v ===== *)
(** * Awaited store calls as a free monad, and their interpreter

    Each [await] of the hosts on a store is a command of [cmd]; a handler is
    a program of [io], a tree of commands whose continuation receives the
    call's outcome (an exception or the value), so that a failed call
    throws at the [await] and propagates to the enclosing [catch]. [run]
    executes a program against a [world] (the table [db] and the blobs) and a
    fault schedule: each call that reaches a store consumes one entry,
    [Some msg] making it fail with [msg] and leave the world unchanged; an
    exhausted schedule means no further faults. *)

From S2P Require Import Prelude MetaStore BlobStore.

Module Io.

Import MetaStore BlobStore.

(** The errors the handlers catch, with their [message]. *)
Inductive exn :=
| StoreError (msg : string)
| BlobError (msg : string)
| JsError (msg : string).

Definition message (e : exn) : string :=
  match e with StoreError m | BlobError m | JsError m => m end.

(** The store calls of both hosts. *)
Inductive cmd : Set -> Type :=
| PutFileContents (p : string) (b : bytes) : cmd unit
| CreateReadStream (p : string) : cmd stream
| SelectOrdered : cmd (list row)
| SelectMax : cmd (option Z)
| Insert (title path : option string) (position : option Z) : cmd nat
| SelectById (i : nat) : cmd (option row).

Inductive io (A : Type) : Type :=
| Ret (a : A)
| Throw (e : exn)
| Call {X : Set} (c : cmd X) (k : exn + X -> io A).
Arguments Ret {A} a.
Arguments Throw {A} e.
Arguments Call {A X} c k.

Fixpoint io_bind {A B} (p : io A) (f : A -> io B) : io B :=
  match p with
  | Ret a => f a
  | Throw e => Throw e
  | Call c k => Call c (fun r => io_bind (k r) f)
  end.

#[export] Instance io_monad : Monad io := { ret := @Ret; bind := @io_bind }.

(** [await c]: the call's value, or its exception rethrown. *)
Definition call {X : Set} (c : cmd X) : io X :=
  Call c (fun r => match r with inl e => Throw e | inr x => Ret x end).

(** [try { p } catch (err) { h(err) }] *)
Fixpoint catch {A} (p : io A) (h : exn -> io A) : io A :=
  match p with
  | Ret a => Ret a
  | Throw e => h e
  | Call c k => Call c (fun r => catch (k r) h)
  end.

Record world := mk_world {
  db : MetaStore.table;
  blobs : gmap string bytes
}.

Definition faults := list (option string).

(** Which error a failed call raises; [None] for a call that makes no
    request when it is made. *)
Definition fault_kind {X} (c : cmd X) : option (string -> exn) :=
  match c with
  | PutFileContents _ _ => Some BlobError
  | CreateReadStream _ => None
  | _ => Some StoreError
  end.

(** The effect of a successful call. *)
Definition exec {X} (c : cmd X) (w : world) : X * world :=
  match c in cmd X return X * world with
  | PutFileContents p b =>
      (tt, mk_world (db w) (putFileContents p b (blobs w)))
  | CreateReadStream p => (createReadStream p, w)
  | SelectOrdered => (order_by_position (db w), w)
  | SelectMax => (max_position (db w), w)
  | Insert t p pos =>
      let ins := MetaStore.insert t p pos (db w) in (fst ins, mk_world (snd ins) (blobs w))
  | SelectById i => (select_by_id i (db w), w)
  end.

Definition exec_call {X} (c : cmd X) (w : world) (fs : faults)
    : (exn + X) * world * faults :=
  match fault_kind c with
  | None => let '(x, w') := exec c w in (inr x, w', fs)
  | Some mk =>
      match fs with
      | Some msg :: fs' => (inl (mk msg), w, fs')
      | None :: fs' => let '(x, w') := exec c w in (inr x, w', fs')
      | [] => let '(x, w') := exec c w in (inr x, w', [])
      end
  end.

Fixpoint run {A} (p : io A) (w : world) (fs : faults) : (exn + A) * world * faults :=
  match p with
  | Ret a => (inr a, w, fs)
  | Throw e => (inl e, w, fs)
  | Call c k => let '(r, w', fs') := exec_call c w fs in run (k r) w' fs'
  end.

(** One call of a program, for interleavings: [None] when it has ended. *)
Definition step {A} (p : io A) (w : world) (fs : faults)
    : option (io A * world * faults) :=
  match p with
  | Ret _ | Throw _ => None
  | Call c k => let '(r, w', fs') := exec_call c w fs in Some (k r, w', fs')
  end.

(** ** The interpreter's equations *)

Definition then_run {A B} (f : A -> io B) (o : (exn + A) * world * faults)
    : (exn + B) * world * faults :=
  match o with
  | (inr a, w', fs') => run (f a) w' fs'
  | (inl e, w', fs') => (inl e, w', fs')
  end.

Definition or_run {A} (h : exn -> io A) (o : (exn + A) * world * faults)
    : (exn + A) * world * faults :=
  match o with
  | (inl e, w', fs') => run (h e) w' fs'
  | o => o
  end.

Lemma run_bind {A B} (p : io A) (f : A -> io B) w fs :
  run (io_bind p f) w fs = then_run f (run p w fs).
Proof.
  revert w fs. induction p as [a|e|X c k IH]; intros w fs; [done|done|].
  simpl. destruct (exec_call c w fs) as [[r w'] fs']. apply IH.
Qed.

Lemma run_catch {A} (p : io A) (h : exn -> io A) w fs :
  run (catch p h) w fs = or_run h (run p w fs).
Proof.
  revert w fs. induction p as [a|e|X c k IH]; intros w fs; [done|done|].
  simpl. destruct (exec_call c w fs) as [[r w'] fs']. apply IH.
Qed.

Lemma run_call {X : Set} (c : cmd X) w fs : run (call c) w fs = exec_call c w fs.
Proof. simpl. by destruct (exec_call c w fs) as [[[e|x] w'] fs']. Qed.

#[export] Hint Rewrite @run_bind @run_catch @run_call : quiz_rw.

(** ** Observational equivalence *)

(** Two programs are equivalent when they end alike from every world and
    fault schedule. *)
Definition obs_eq {A} (p q : io A) : Prop := forall w fs, run p w fs = run q w fs.

#[export] Instance obs_eq_equiv {A} : Equivalence (@obs_eq A).
Proof.
  split.
  - by intros p w fs.
  - intros p q H w fs. by rewrite H.
  - intros p q r H1 H2 w fs. by rewrite H1, H2.
Qed.

#[export] Instance io_bind_proper {A B} :
  Proper (obs_eq ==> pointwise_relation A obs_eq ==> obs_eq) (@io_bind A B).
Proof.
  intros p q Hpq f g Hfg w fs. rewrite !run_bind, Hpq.
  destruct (run q w fs) as [[[e|a] w'] fs']; simpl; [done|apply Hfg].
Qed.

#[export] Instance catch_proper {A} :
  Proper (obs_eq ==> pointwise_relation exn obs_eq ==> obs_eq) (@catch A).
Proof.
  intros p q Hpq f g Hfg w fs. rewrite !run_catch, Hpq.
  destruct (run q w fs) as [[[e|a] w'] fs']; simpl; [apply Hfg|done].
Qed.

(** The monad laws, up to [obs_eq]. *)
Lemma bind_ret_l {A B} (a : A) (f : A -> io B) : obs_eq (io_bind (Ret a) f) (f a).
Proof. done. Qed.

Lemma bind_assoc {A B C} (p : io A) (f : A -> io B) (g : B -> io C) :
  obs_eq (io_bind (io_bind p f) g) (io_bind p (fun a => io_bind (f a) g)).
Proof.
  intros w fs. rewrite !run_bind.
  destruct (run p w fs) as [[[e|a] w'] fs']; simpl; [done|]. by rewrite run_bind.
Qed.

(** ** Stepping through a handler *)

(** A call that reaches a store either fails with the next fault, leaving
    the world as it was, or takes effect. *)
Lemma exec_call_store {X} (c : cmd X) mk w fs :
  fault_kind c = Some mk ->
  (exists msg fs', exec_call c w fs = (inl (mk msg), w, fs')) \/
  (exists fs', exec_call c w fs = (inr (fst (exec c w)), snd (exec c w), fs')).
Proof.
  intros Hk. unfold exec_call. rewrite Hk.
  destruct (exec c w) as [x w'] eqn:E.
  destruct fs as [|[msg|] fs]; eauto.
Qed.

(** Whatever the schedule, a call either throws and leaves the world as it
    was, or returns the value of its effect. *)
Lemma exec_call_inv {X} (c : cmd X) w fs r w' fs' :
  exec_call c w fs = (r, w', fs') ->
  (exists e, r = inl e /\ w' = w) \/ (r = inr (fst (exec c w)) /\ w' = snd (exec c w)).
Proof.
  unfold exec_call. destruct (exec c w) as [x w''] eqn:E.
  destruct (fault_kind c); [destruct fs as [|[msg|] fs]|]; intros [= <- <- <-]; eauto.
Qed.

(** A property of worlds that every call's effect keeps holds after any
    run, whatever the faults. *)
Lemma run_preserves (P : world -> Prop) {A} (p : io A) w fs r w' fs' :
  (forall X (c : cmd X) w, P w -> P (snd (exec c w))) ->
  P w -> run p w fs = (r, w', fs') -> P w'.
Proof.
  intros Hc. revert w fs. induction p as [a|e|X c k IH]; intros w fs Hw Hrun;
    [by injection Hrun as _ <- _|by injection Hrun as _ <- _|].
  simpl in Hrun. destruct (exec_call c w fs) as [[r' w''] fs''] eqn:E.
  destruct (exec_call_inv c w fs r' w'' fs'' E) as [(e & _ & ->)|(_ & ->)];
    (eapply IH; [|exact Hrun]); eauto.
Qed.

(** Every call a program can make satisfies [Q], whatever the stores
    answer. *)
Fixpoint calls_ok {A} (Q : forall X, cmd X -> Prop) (p : io A) : Prop :=
  match p with
  | Ret _ | Throw _ => True
  | Call c k => Q _ c /\ forall r, calls_ok Q (k r)
  end.

(** A property of the world that every call allowed by [Q] keeps is kept
    by every run of a program that makes only such calls. *)
Lemma run_calls_ok (P : world -> Prop) (Q : forall X, cmd X -> Prop) {A} (p : io A) w fs r w' fs' :
  (forall X (c : cmd X) w, Q X c -> P w -> P (snd (exec c w))) ->
  calls_ok Q p -> P w -> run p w fs = (r, w', fs') -> P w'.
Proof.
  intros Hc. revert w fs. induction p as [a|e|X c k IH]; intros w fs Hp Hw Hrun;
    [by injection Hrun as _ <- _|by injection Hrun as _ <- _|].
  destruct Hp as [Hq Hk]. simpl in Hrun. destruct (exec_call c w fs) as [[r' w''] fs''] eqn:E.
  destruct (exec_call_inv c w fs r' w'' fs'' E) as [(e & _ & ->)|(_ & ->)];
    (eapply IH; [apply Hk| |exact Hrun]); eauto.
Qed.

(** A run with no faults scheduled meets none. *)
Lemma run_no_faults {A} (p : io A) w r w' fs' :
  run p w [] = (r, w', fs') -> fs' = [].
Proof.
  revert w. induction p as [a|e|X c k IH]; intros w Hrun;
    [by injection Hrun|by injection Hrun|].
  simpl in Hrun. unfold exec_call in Hrun. destruct (exec c w) as [x w''].
  destruct (fault_kind c); simpl in Hrun; eapply IH; exact Hrun.
Qed.

Lemma exec_wf {X} (c : cmd X) w : wf (db w) -> wf (db (snd (exec c w))).
Proof. intros H. destruct c; try exact H. exact (insert_wf _ _ _ _ H). Qed.

(** Rows are never removed or changed: a row of the table stays one. *)
Lemma exec_rows_mono {X} (c : cmd X) w t :
  t ∈ rows (db w) -> t ∈ rows (db (snd (exec c w))).
Proof. intros H. destruct c; try exact H. cbn. apply elem_of_app. by left. Qed.

Lemma run_rows_mono {A} (p : io A) w fs r w' fs' t :
  t ∈ rows (db w) -> run p w fs = (r, w', fs') -> t ∈ rows (db w').
Proof. apply (run_preserves (fun w => t ∈ rows (db w))). intros X c w0. apply exec_rows_mono. Qed.

(** Every value a program can return satisfies [P], whatever the stores
    answer; no exception escapes it. *)
Fixpoint rets_ok {A} (P : A -> Prop) (p : io A) : Prop :=
  match p with
  | Ret a => P a
  | Throw _ => False
  | Call c k => forall r, rets_ok P (k r)
  end.

Lemma run_rets_ok {A} (P : A -> Prop) (p : io A) w fs r w' fs' :
  rets_ok P p -> run p w fs = (r, w', fs') -> exists a, r = inr a /\ P a.
Proof.
  revert w fs. induction p as [a|e|X c k IH]; intros w fs Hp Hrun; simpl in *.
  - injection Hrun as <- _ _. eauto.
  - done.
  - destruct (exec_call c w fs) as [[r' w''] fs'']. eapply IH; [apply Hp|exact Hrun].
Qed.

(** Run a handler one store call at a time, splitting on the call's
    outcome. *)
Ltac step_call :=
  match goal with
  | |- context [exec_call ?c ?w ?fs] =>
      let H := fresh "Hcall" in
      destruct (exec_call_store c _ w fs eq_refl) as [(? & ? & H)|(? & H)];
      rewrite H; clear H; simpl
  end.

Ltac run_handler := simpl; repeat step_call.

(** ** Simulation

    Two programs that issue the same calls in the same order, and whose
    results are related by [R], run alike on every world and schedule. *)

Inductive io_sim {A B} (R : A -> B -> Prop) : io A -> io B -> Prop :=
| sim_ret a b : R a b -> io_sim R (Ret a) (Ret b)
| sim_throw e : io_sim R (Throw e) (Throw e)
| sim_call {X : Set} (c : cmd X) k1 k2 :
    (forall o, io_sim R (k1 o) (k2 o)) -> io_sim R (Call c k1) (Call c k2).

Definition runs_alike {A B} (R : A -> B -> Prop)
    (o1 : (exn + A) * world * faults) (o2 : (exn + B) * world * faults) : Prop :=
  snd (fst o1) = snd (fst o2) /\ snd o1 = snd o2 /\
  match fst (fst o1), fst (fst o2) with
  | inl e1, inl e2 => e1 = e2
  | inr a, inr b => R a b
  | _, _ => False
  end.

Lemma run_sim {A B} (R : A -> B -> Prop) p q w fs :
  io_sim R p q -> runs_alike R (run p w fs) (run q w fs).
Proof.
  intros Hsim. revert w fs.
  induction Hsim as [a b Hab|e|X c k1 k2 _ IH]; intros w fs; [done|done|].
  simpl. destruct (exec_call c w fs) as [[o w'] fs']. apply IH.
Qed.

Ltac solve_sim :=
  repeat first [ apply sim_throw
               | apply sim_ret; split_and!; reflexivity
               | apply sim_call; intros [?|?]; simpl ].

(** Close a [rets_ok] goal: split on every call's outcome. *)
Ltac solve_rets :=
  simpl; repeat match goal with
  | |- forall _ : _ + _, _ => intros [?|?]; simpl
  end; try reflexivity.

End Io.
