(* ===== verification/Http.v ===== *)
(** * Requests and responses, as both hosts see them

    The HTTP layer itself is external; this file holds the data the handlers
    read and produce: the request's method, path and parsed body, and the
    response's status, headers and body. A JSON field of a request body is
    absent ([undefined] after destructuring), [null], or a value; the
    values are typed as the handlers use them (strings for [title] and
    [path], an integer for [position]). A multipart body is its list of
    named parts, a part with a file name being a file. *)

From S2P Require Import Prelude MetaStore BlobStore.

Module Http.

Import MetaStore BlobStore.

Inductive jfield (A : Type) := Absent | Null | Val (a : A).
Arguments Absent {A}.
Arguments Null {A}.
Arguments Val {A} a.

Inductive part :=
| TextPart (v : string)
| FilePart (originalname : string) (data : bytes).

Inductive req_body :=
| NoBody
| JsonBody (title path : jfield string) (position : jfield Z)
| BadJson
| FormBody (parts : list (string * part)).

Record request := mk_request {
  method : string;
  pathname : string;
  rbody : req_body
}.

Inductive body :=
| BTrack (r : option row)
| BTracks (rs : list row)
| BError (msg : string)
| BText (s : string)
| BStream (st : stream)
| BEmpty.

Record response := mk_response {
  status : Z;
  headers : list (string * string);
  rsp_body : body
}.

Definition header (name : string) (r : response) : option string :=
  snd <$> List.find (fun h => String.eqb (fst h) name) (headers r).

Definition allows_any_origin (r : response) : Prop :=
  header "Access-Control-Allow-Origin" r = Some "*".

#[export] Instance allows_any_origin_dec r : Decision (allows_any_origin r).
Proof. unfold allows_any_origin. apply _. Defined.

(** ** Strings of the URL paths *)

(** [String.prototype.startsWith] *)
Definition starts_with (pre s : string) : bool := String.prefix pre s.

(** ASCII lower case, as Express compares route paths case-insensitively. *)
Definition lower_ascii (c : Ascii.ascii) : Ascii.ascii :=
  let n := Ascii.nat_of_ascii c in
  if Nat.leb 65 n && Nat.leb n 90 then Ascii.ascii_of_nat (n + 32) else c.

Fixpoint lower (s : string) : string :=
  match s with
  | EmptyString => EmptyString
  | String c s' => String (lower_ascii c) (lower s')
  end.

Lemma lower_app a b : lower (a ++ b)%string = (lower a ++ lower b)%string.
Proof. induction a as [|c a IH]; simpl; [done|]. by rewrite IH. Qed.

Lemma starts_with_lower pre s :
  starts_with pre s = true -> exists rest, lower s = (lower pre ++ lower rest)%string.
Proof.
  unfold starts_with. revert s.
  induction pre as [|c pre IH]; intros s Hp; [by exists s|].
  destruct s as [|c' s]; [done|]. simpl in Hp.
  destruct (Ascii.ascii_dec c c') as [<-|]; [|done].
  destruct (IH s Hp) as [rest Hr]. exists rest. simpl. by rewrite Hr.
Qed.

End Http.
