(* ===== verification/Worker.v ===== *)
(** * The edge-function host: [src/worker.js]

    The [fetch] handler as one [io] program. An OPTIONS request is answered
    with the CORS headers before anything else; every other request is
    routed by exact comparison of [url.pathname] and [request.method]
    inside one [try], whose [catch] turns any exception into a JSON 500.
    The body is parsed by the handler itself: [request.json()] throws on a
    body that is not JSON, [request.formData()] on a body that is not a
    form, and D1's [bind] throws on an [undefined] value. An unmatched
    request gets a plain-text 404 without the CORS headers, as the theorem
    at the end of the file shows. *)

From S2P Require Import Prelude MetaStore BlobStore Io Http.

Module Worker.

Import MetaStore BlobStore Io Http.
Local Open Scope string_scope.

Definition cors_headers : list (string * string) :=
  [("Access-Control-Allow-Origin", "*");
   ("Access-Control-Allow-Methods", "GET, POST, OPTIONS");
   ("Access-Control-Allow-Headers", "Content-Type")].

Definition json_response (st : Z) (b : body) : response :=
  mk_response st (cors_headers ++ [("Content-Type", "application/json")]) b.

(** ** The platform calls the handler makes *)

(** [await request.json()] *)
Definition request_json (b : req_body)
    : io (jfield string * jfield string * jfield Z) :=
  match b with
  | JsonBody t p pos => ret (t, p, pos)
  | _ => Throw (JsError "Unexpected end of JSON input")
  end.

(** [await request.formData()] *)
Definition request_formData (b : req_body) : io (list (string * part)) :=
  match b with
  | FormBody parts => ret parts
  | _ => Throw (JsError "Could not parse content as FormData.")
  end.

(** [formData.get(name)]: the first entry of that name, or [null]. *)
Definition form_get (name : string) (parts : list (string * part)) : option part :=
  snd <$> List.find (fun e => String.eqb (fst e) name) parts.

(** A value bound by D1's [.bind(...)]: [undefined] is refused. *)
Definition d1_bind {A} (f : jfield A) : io (option A) :=
  match f with
  | Absent => Throw (JsError "D1_TYPE_ERROR: Type 'undefined' not supported")
  | Null => ret None
  | Val a => ret (Some a)
  end.

(** [(lastPosition?.maxPos || 0) + 1] *)
Definition js_or_zero (m : option Z) : Z :=
  match m with
  | Some z => if Z.eqb z 0 then 0 else z
  | None => 0
  end.

Definition next_position (m : option Z) : Z := (js_or_zero m + 1)%Z.

(** [path.replace(pat, rep)] with a string pattern: the first occurrence. *)
Definition replace_first (pat rep s : string) : string :=
  match String.index 0 pat s with
  | Some i => String.substring 0 i s ++ rep ++
              String.substring (i + String.length pat)
                (String.length s - (i + String.length pat)) s
  | None => s
  end.

Lemma replace_first_prefix pre s : replace_first pre "" (pre ++ s) = s.
Proof.
  unfold replace_first. rewrite index_prefix, substring_0_0. simpl.
  apply substring_after_prefix.
Qed.

Lemma starts_with_app pre s : starts_with pre (pre ++ s) = true.
Proof. apply prefix_app. Qed.

(** ** The routes *)

Definition get_playlist : io response :=
  results <- call SelectOrdered ;;
  ret (json_response 200 (BTracks results)).

Definition post_playlist (b : req_body) : io response :=
  fields <- request_json b ;;
  let '(t, p, pos) := fields in
  title <- d1_bind t ;;
  trackPath <- d1_bind p ;;
  position <- d1_bind pos ;;
  last_row_id <- call (Insert title trackPath position) ;;
  newTrack <- call (SelectById last_row_id) ;;
  ret (json_response 200 (BTrack newTrack)).

Definition upload (b : req_body) : io response :=
  formData <- request_formData b ;;
  match form_get "file" formData with
  | None => ret (json_response 400 (BError "No file uploaded"))
  | Some (TextPart v) =>
      (* the empty string is falsy; otherwise [file.name] is [undefined] and
         [file.arrayBuffer] is not a function *)
      if String.eqb v "" then ret (json_response 400 (BError "No file uploaded"))
      else Throw (JsError "file.arrayBuffer is not a function")
  | Some (FilePart fileName arrayBuffer) =>
      let filePath := "/music/" ++ fileName in
      call (PutFileContents filePath arrayBuffer) ;;;
      lastPosition <- call SelectMax ;;
      let nextPosition := next_position lastPosition in
      last_row_id <- call (Insert (Some fileName) (Some filePath) (Some nextPosition)) ;;
      newTrack <- call (SelectById last_row_id) ;;
      ret (json_response 200 (BTrack newTrack))
  end.

Definition get_track (path : string) : io response :=
  let trackPath := replace_first "/api/track/" "" path in
  stream <- call (CreateReadStream trackPath) ;;
  ret (mk_response 200 (cors_headers ++ [("Content-Type", "audio/mpeg")]) (BStream stream)).

Definition not_found : response :=
  mk_response 404 [("Content-Type", "text/plain;charset=UTF-8")] (BText "Not Found").

Definition route (req : request) : io response :=
  let path := pathname req in
  if String.eqb path "/api/playlist" && String.eqb (method req) "GET" then
    get_playlist
  else if String.eqb path "/api/playlist" && String.eqb (method req) "POST" then
    post_playlist (rbody req)
  else if String.eqb path "/api/upload" && String.eqb (method req) "POST" then
    upload (rbody req)
  else if starts_with "/api/track/" path && String.eqb (method req) "GET" then
    get_track path
  else ret not_found.

(** [fetch(request, env, ctx)] *)
Definition fetch (req : request) : io response :=
  if String.eqb (method req) "OPTIONS" then ret (mk_response 200 cors_headers BEmpty)
  else catch (route req)
             (fun error => ret (json_response 500 (BError (message error)))).

(** A [GET] of [/api/track/<p>] streams [p], for every [p]. *)
Lemma fetch_track p b w fs :
  run (fetch (mk_request "GET" ("/api/track/" ++ p) b)) w fs =
  (inr (mk_response 200 (cors_headers ++ [("Content-Type", "audio/mpeg")])
          (BStream (createReadStream p))), w, fs).
Proof.
  unfold fetch, route. cbn [pathname method].
  rewrite starts_with_app. simpl. unfold get_track.
  rewrite replace_first_prefix. reflexivity.
Qed.

(** The edge-function host answers a request that matches no route
    with a 404 that lacks [Access-Control-Allow-Origin], although spec
    section 6 says every response carries the permissive CORS headers. *)
Theorem worker_unrouted_without_cors req w fs :
  String.eqb (method req) "OPTIONS" = false ->
  String.eqb (pathname req) "/api/playlist" = false ->
  String.eqb (pathname req) "/api/upload" = false ->
  starts_with "/api/track/" (pathname req) = false ->
  run (fetch req) w fs = (inr not_found, w, fs) /\
  status not_found = 404%Z /\ ~ allows_any_origin not_found.
Proof.
  intros Hm H1 H2 H3. split_and!; [|done|by compute].
  unfold fetch, route. by rewrite Hm, H1, H2, H3, !andb_false_l.
Qed.

Lemma worker_unrouted_without_cors_witness :
  run (fetch (mk_request "GET" "/" NoBody)) (mk_world empty_table ∅) [] =
    (inr not_found, mk_world empty_table ∅, []) /\ ~ allows_any_origin not_found.
Proof.
  destruct (worker_unrouted_without_cors (mk_request "GET" "/" NoBody)
              (mk_world empty_table ∅) [] eq_refl eq_refl eq_refl eq_refl) as (H & _ & Hc).
  split; [exact H|exact Hc].
Defined.

End Worker.
