(* ===== verification/Contract.v ===== *)
(** * The contract of the Playlist Service, and both hosts against it

    The spec (sections 4.1 to 4.3) describes one logical service that both
    hosts expose. [PlaylistService serve] states it of a host's request
    handler [serve], on every world and every fault schedule:

    - listing returns the table ordered by position and changes nothing,
      or reports a store error;
    - a direct insert appends the row and returns it, or reports an error
      having written nothing or only the row;
    - ingesting a file with a plain name within 200 MB ([file_ok])
      writes the blob, appends the row with position
      [MAX(position) + 1] (1 on an empty table) and returns it; on a fault
      it reports an error having done a prefix of those writes (the orphaned
      blob of section 4.2 is one such prefix); with no fault it succeeds;
    - an upload whose form has no file is a 400 and writes nothing.

    [Server.server_app] and [Worker.fetch] are instances: these are the
    refinement theorems. Two theorems then show where the contract stops:
    a fault after the blob write leaves an orphaned blob, and the Express
    host's 200 MB limit is not the edge host's. The theorems of the last
    section are proved from the class alone, so they hold of both hosts. *)

From S2P Require Import Prelude MetaStore BlobStore Io Http Server Worker.

Module Contract.

Import MetaStore BlobStore Io Http.
Local Open Scope Z_scope.
Local Open Scope string_scope.

(** ** The spec's operations, as the client sends them *)

Definition list_request : request := mk_request "GET" "/api/playlist" NoBody.

Definition insert_request (t p : string) (pos : Z) : request :=
  mk_request "POST" "/api/playlist" (JsonBody (Val t) (Val p) (Val pos)).

Definition upload_request (name : string) (data : bytes) : request :=
  mk_request "POST" "/api/upload" (FormBody [("file", FilePart name data)]).

(** An upload whose form has the given parts. *)
Definition upload_form_request (parts : list (string * part)) : request :=
  mk_request "POST" "/api/upload" (FormBody parts).

(** ** What the spec promises *)

Definition music_path (name : string) : string := "/music/" ++ name.

(** A file name the multipart parsers of both hosts deliver as it is:
    not empty, without ['/'] or ['\'] (busboy keeps what follows the last
    one, and reads ['\'] as an escape in the quoted name), and neither
    ["."] nor [".."] (which busboy drops). *)
Definition plain_name (name : string) : bool :=
  negb (String.eqb name "") && negb (String.eqb name ".") && negb (String.eqb name "..") &&
  forallb (fun c => negb (Ascii.eqb c "/"%char || Ascii.eqb c "\"%char))
    (String.list_ascii_of_string name).

(** A file the ingestion contract covers: a plain name, and at most the
    Express host's 200 MB. *)
Definition file_ok (f : string * bytes) : Prop :=
  plain_name (fst f) = true /\ (Z.of_nat (length (snd f)) <= 200 * 1024 * 1024)%Z.

(** A form that carries no file: text fields only, within busboy's limits
    (a name of at most 100 bytes, a value of at most 1 MB), any field named
    [file] being empty. *)
Definition no_file_form (parts : list (string * part)) : bool :=
  forallb (fun e => match snd e with
                    | TextPart v =>
                        Nat.leb (String.length (fst e)) 100 &&
                        Z.leb (Z.of_nat (String.length v)) (1024 * 1024) &&
                        (negb (String.eqb (fst e) "file") || String.eqb v "")
                    | FilePart _ _ => false
                    end) parts.

(** Section 4.2, step 4: [max(existing positions) + 1], defaulting to 1. *)
Definition spec_next_position (tb : table) : Z :=
  match max_position tb with None => 1 | Some m => m + 1 end.

Definition ingested_row (tb : table) (name : string) : row :=
  mk_row (next_id tb) (Some name) (Some (music_path name))
    (Some (spec_next_position tb)).

(** The worlds along the ingestion saga: after the blob write, and after
    the row insert. *)
Definition after_put (w : world) (name : string) (data : bytes) : world :=
  mk_world (db w) (<[music_path name := data]> (blobs w)).

Definition after_ingest (w : world) (name : string) (data : bytes) : world :=
  mk_world (snd (insert (Some name) (Some (music_path name))
                  (Some (spec_next_position (db w))) (db w)))
           (<[music_path name := data]> (blobs w)).

Definition after_insert (w : world) (t p : string) (pos : Z) : world :=
  mk_world (snd (insert (Some t) (Some p) (Some pos) (db w))) (blobs w).

Definition is_error (st : Z) (resp : response) : Prop :=
  status resp = st /\ exists msg, rsp_body resp = BError msg.

Definition sorted_rows (rs : list row) : Prop :=
  Sorted (fun a b => row_leb a b = true) rs.

(** Section 4.1 *)
Definition list_contract (serve : request -> io response) : Prop :=
  forall w fs r w' fs',
  run (serve list_request) w fs = (r, w', fs') ->
  w' = w /\ exists resp, r = inr resp /\
    ((status resp = 200 /\ exists rs, rsp_body resp = BTracks rs /\
        sorted_rows rs /\ Permutation rs (rows (db w)))
     \/ is_error 500 resp).

(** Section 4.1: with no store fault, listing succeeds. *)
Definition list_total (serve : request -> io response) : Prop :=
  forall w r w' fs',
  run (serve list_request) w [] = (r, w', fs') ->
  exists resp, r = inr resp /\ status resp = 200.

(** Section 4.3 *)
Definition insert_contract (serve : request -> io response) : Prop :=
  forall t p pos w fs r w' fs',
  wf (db w) ->
  run (serve (insert_request t p pos)) w fs = (r, w', fs') ->
  exists resp, r = inr resp /\
    ((status resp = 200 /\
      rsp_body resp = BTrack (Some (mk_row (next_id (db w)) (Some t) (Some p) (Some pos))) /\
      w' = after_insert w t p pos)
     \/ (is_error 500 resp /\ (w' = w \/ w' = after_insert w t p pos))).

(** Section 4.2, for a file the contract covers ([file_ok]). *)
Definition ingest_contract (serve : request -> io response) : Prop :=
  forall name data w fs r w' fs',
  wf (db w) -> file_ok (name, data) ->
  run (serve (upload_request name data)) w fs = (r, w', fs') ->
  exists resp, r = inr resp /\
    ((status resp = 200 /\ rsp_body resp = BTrack (Some (ingested_row (db w) name)) /\
      w' = after_ingest w name data)
     \/ (is_error 500 resp /\
         (w' = w \/ w' = after_put w name data \/ w' = after_ingest w name data))).

(** Section 4.2: with no store fault, ingestion succeeds. *)
Definition ingest_total (serve : request -> io response) : Prop :=
  forall name data w r w' fs',
  wf (db w) -> file_ok (name, data) ->
  run (serve (upload_request name data)) w [] = (r, w', fs') ->
  exists resp, r = inr resp /\ status resp = 200 /\ w' = after_ingest w name data.

(** Section 4.2, step 1: an upload whose form carries no file. *)
Definition missing_file_contract (serve : request -> io response) : Prop :=
  forall parts w fs r w' fs',
  no_file_form parts = true ->
  run (serve (upload_form_request parts)) w fs = (r, w', fs') ->
  w' = w /\ exists resp, r = inr resp /\ is_error 400 resp.

Class PlaylistService (serve : request -> io response) : Prop := {
  svc_list : list_contract serve;
  svc_list_total : list_total serve;
  svc_insert : insert_contract serve;
  svc_ingest : ingest_contract serve;
  svc_ingest_total : ingest_total serve;
  svc_missing_file : missing_file_contract serve
}.

(** ** Closing the goals of a run *)

Ltac csolve :=
  lazymatch goal with
  | |- _ /\ _ => split; csolve
  | |- exists _, _ => eexists; csolve
  | |- _ \/ _ => first [left; csolve | right; csolve]
  | |- _ => first [reflexivity | done | solve [eauto with quiz]]
  end.

Ltac close_contract :=
  intros [= <- <- <-];
  unfold is_error, sorted_rows, after_put, after_ingest, after_insert,
    music_path, putFileContents in *;
  csolve.

(** ** The Express host meets the contract *)

Lemma plain_chars name :
  plain_name name = true ->
  forallb (fun c => negb (Ascii.eqb c "/"%char || Ascii.eqb c "\"%char))
    (String.list_ascii_of_string name) = true.
Proof. unfold plain_name. by intros [_ ->]%andb_prop. Qed.

Lemma unescape_plain s :
  forallb (fun c => negb (Ascii.eqb c "/"%char || Ascii.eqb c "\"%char))
    (String.list_ascii_of_string s) = true ->
  Server.unescape_quoted s = s.
Proof.
  induction s as [|c s IH]; [done|]. cbn. intros [Hc Hs]%andb_prop.
  apply negb_true_iff, orb_false_iff in Hc as [_ ->]. by rewrite IH.
Qed.

Lemma last_segment_plain s acc :
  forallb (fun c => negb (Ascii.eqb c "/"%char || Ascii.eqb c "\"%char))
    (String.list_ascii_of_string s) = true ->
  Server.last_segment s acc = (acc ++ s)%string.
Proof.
  revert acc. induction s as [|c s IH]; intros acc; cbn.
  - by rewrite string_app_nil_r.
  - intros [Hc Hs]%andb_prop. apply negb_true_iff in Hc. rewrite Hc, IH by done.
    by rewrite <- string_app_assoc.
Qed.

(** busboy reports a plain name as it is. *)
Lemma plain_busboy name : plain_name name = true -> Server.busboy_filename name = name.
Proof.
  intros Hp. pose proof (plain_chars _ Hp) as Hc. unfold Server.busboy_filename.
  rewrite unescape_plain, last_segment_plain by done. rewrite string_app_nil_l.
  unfold plain_name in Hp. apply andb_prop in Hp as [Hp _]. apply andb_prop in Hp as [Hp H2].
  apply andb_prop in Hp as [_ H1]. apply negb_true_iff in H1, H2. by rewrite H1, H2.
Qed.

Lemma list_ascii_of_string_app s t :
  String.list_ascii_of_string (s ++ t)%string =
  (String.list_ascii_of_string s ++ String.list_ascii_of_string t)%list.
Proof. induction s as [|c s IH]; [done|]. exact (f_equal (cons c) IH). Qed.

Lemma last_segment_chars s acc :
  forallb (fun c => negb (Ascii.eqb c "/"%char || Ascii.eqb c "\"%char))
    (String.list_ascii_of_string acc) = true ->
  forallb (fun c => negb (Ascii.eqb c "/"%char || Ascii.eqb c "\"%char))
    (String.list_ascii_of_string (Server.last_segment s acc)) = true.
Proof.
  revert acc. induction s as [|c s IH]; intros acc Hacc; [done|]. cbn.
  destruct (Ascii.eqb c "/"%char || Ascii.eqb c "\"%char) eqn:Hc; apply IH; [done|].
  rewrite list_ascii_of_string_app, forallb_app, Hacc. cbn. by rewrite Hc.
Qed.

(** Every name busboy reports is plain: the last segment of the unescaped
    name, without ["."] and [".."]. *)
Lemma busboy_plain name :
  Server.busboy_filename name <> "" -> plain_name (Server.busboy_filename name) = true.
Proof.
  unfold Server.busboy_filename. set (b := Server.last_segment _ _).
  assert (Hb : forallb (fun c => negb (Ascii.eqb c "/"%char || Ascii.eqb c "\"%char))
                 (String.list_ascii_of_string b) = true) by (by apply last_segment_chars).
  destruct (String.eqb b "." || String.eqb b "..") eqn:Hd; [done|]. intros Hne.
  apply orb_false_iff in Hd as [H1 H2]. unfold plain_name.
  by rewrite (proj2 (String.eqb_neq _ _) Hne), H1, H2, Hb.
Qed.

Lemma multer_no_file parts :
  no_file_form parts = true -> Server.multer_single parts None = Server.MulterOk None.
Proof.
  induction parts as [|[n [v|fn d]] ps IH]; [done| |done]. cbn [no_file_form forallb snd fst].
  intros [Hv Hps]%andb_prop. apply andb_prop in Hv as [Hv _]. apply andb_prop in Hv as [Hn Hl].
  apply Nat.leb_le in Hn. apply Z.leb_le in Hl. unfold Server.multer_single; fold Server.multer_single.
  rewrite (proj2 (Nat.ltb_ge Server.field_name_size_limit _) Hn), (proj2 (Z.ltb_ge Server.field_size_limit _) Hl). by apply IH.
Qed.

Lemma form_get_no_file parts :
  no_file_form parts = true ->
  Worker.form_get "file" parts = None \/ Worker.form_get "file" parts = Some (TextPart "").
Proof.
  unfold Worker.form_get. induction parts as [|[n [v|fn d]] ps IH]; [by left| |done].
  cbn [no_file_form forallb snd fst]. intros [Hv Hps]%andb_prop. cbn [List.find fst].
  destruct (String.eqb_spec n "file") as [->|]; [|by apply IH].
  apply andb_prop in Hv as [_ Hv]. simpl in Hv. apply String.eqb_eq in Hv as ->. by right.
Qed.

Lemma plain_nonempty name : plain_name name = true -> String.eqb name "" = false.
Proof. unfold plain_name. destruct (String.eqb name ""); [done|]. by intros. Qed.

(** Discharge [multer]'s name and size checks for a file that meets [file_ok]. *)
Ltac server_size_ok :=
  match goal with
  | H : file_ok (_, _) |- _ =>
      let Hpl := fresh "Hpl" in destruct H as [Hpl ?]; simpl in *;
      rewrite (plain_busboy _ Hpl), (plain_nonempty _ Hpl)
  end;
  match goal with
  | |- context [(?l <? Z.of_nat (length ?d))%Z] =>
      destruct (Z.ltb_spec l (Z.of_nat (length d)));
      [unfold Server.file_size_limit in *; lia|]
  end.

Section ServerInstance.

Lemma server_next_position tb :
  Server.next_position (max_position tb) = spec_next_position tb.
Proof.
  unfold Server.next_position, Server.js_or_zero, spec_next_position.
  destruct (max_position tb) as [z|]; [|done].
  destruct (Z.eqb_spec z 0); f_equal; lia.
Qed.

Lemma server_list : list_contract Server.server_app.
Proof. intros w fs r w' fs'. run_handler; close_contract. Qed.

Lemma server_list_total : list_total Server.server_app.
Proof. intros w r w' fs'. simpl. close_contract. Qed.

Lemma server_insert : insert_contract Server.server_app.
Proof.
  intros t p pos w fs r w' fs' Hwf. run_handler;
    rewrite ?select_appended by done; close_contract.
Qed.

Lemma server_ingest : ingest_contract Server.server_app.
Proof.
  intros name data w fs r w' fs' Hwf Hsz. unfold Server.server_app, Server.express_routes. simpl.
  server_size_ok. run_handler;
    rewrite ?select_appended, ?server_next_position by done; close_contract.
Qed.

Lemma server_ingest_total : ingest_total Server.server_app.
Proof.
  intros name data w r w' fs' Hwf Hsz. unfold Server.server_app, Server.express_routes. simpl.
  server_size_ok. simpl.
  rewrite ?select_appended, ?server_next_position by done; close_contract.
Qed.

Lemma server_missing_file : missing_file_contract Server.server_app.
Proof.
  intros parts w fs r w' fs' Hp. unfold Server.server_app, Server.express_routes. simpl.
  rewrite multer_no_file by done. simpl. close_contract.
Qed.

#[export] Instance server_service : PlaylistService Server.server_app.
Proof.
  split; auto using server_list, server_list_total, server_insert, server_ingest,
    server_ingest_total, server_missing_file.
Qed.

End ServerInstance.

(** ** The edge-function host meets the contract *)

Section WorkerInstance.

Lemma worker_next_position tb :
  Worker.next_position (max_position tb) = spec_next_position tb.
Proof.
  unfold Worker.next_position, Worker.js_or_zero, spec_next_position.
  destruct (max_position tb) as [z|]; [|done].
  destruct (Z.eqb_spec z 0); f_equal; lia.
Qed.

Lemma worker_list : list_contract Worker.fetch.
Proof. intros w fs r w' fs'. unfold Worker.fetch. run_handler; close_contract. Qed.

Lemma worker_list_total : list_total Worker.fetch.
Proof. intros w r w' fs'. simpl. close_contract. Qed.

Lemma worker_insert : insert_contract Worker.fetch.
Proof.
  intros t p pos w fs r w' fs' Hwf. unfold Worker.fetch. run_handler;
    rewrite ?select_appended by done; close_contract.
Qed.

Lemma worker_ingest : ingest_contract Worker.fetch.
Proof.
  intros name data w fs r w' fs' Hwf _. unfold Worker.fetch. run_handler;
    rewrite ?select_appended, ?worker_next_position by done; close_contract.
Qed.

Lemma worker_ingest_total : ingest_total Worker.fetch.
Proof.
  intros name data w r w' fs' Hwf _. unfold Worker.fetch. simpl.
  rewrite ?select_appended, ?worker_next_position by done; close_contract.
Qed.

Lemma worker_missing_file : missing_file_contract Worker.fetch.
Proof.
  intros parts w fs r w' fs' Hp. unfold Worker.fetch, Worker.route, upload_form_request. simpl. unfold Worker.upload. simpl.
  destruct (form_get_no_file parts Hp) as [->| ->]; simpl; close_contract.
Qed.

#[export] Instance worker_service : PlaylistService Worker.fetch.
Proof.
  split; auto using worker_list, worker_list_total, worker_insert, worker_ingest,
    worker_ingest_total, worker_missing_file.
Qed.

End WorkerInstance.

(** ** What a client of any host can rely on *)

Definition empty_world : world := mk_world empty_table ∅.

Lemma empty_world_wf : wf (db empty_world).
Proof. split_and!; simpl; [lia|constructor|constructor]. Qed.

(** The rows that uploads of [files] create, the first with id and
    position [start]. *)
Fixpoint uploaded_rows (start : nat) (files : list (string * bytes)) : list row :=
  match files with
  | [] => []
  | (n, _) :: fs =>
      mk_row start (Some n) (Some (music_path n)) (Some (Z.of_nat start))
        :: uploaded_rows (S start) fs
  end.

Lemma uploaded_rows_app start pre n d :
  uploaded_rows start (pre ++ [(n, d)])%list =
  (uploaded_rows start pre ++
    [mk_row (start + length pre) (Some n) (Some (music_path n))
       (Some (Z.of_nat (start + length pre)))])%list.
Proof.
  revert start. induction pre as [|[n' d'] pre IH]; intros start; simpl.
  - by rewrite Nat.add_0_r.
  - by rewrite IH, Nat.add_succ_r.
Qed.

Lemma uploaded_rows_max start pre :
  max_position (mk_table (uploaded_rows start pre) (start + length pre)) =
  match pre with [] => None | _ => Some (Z.of_nat (start + length pre - 1)) end.
Proof.
  unfold max_position; simpl. revert start.
  induction pre as [|[n d] pre IH]; intros start; [done|]. simpl.
  specialize (IH (S start)). simpl in IH. rewrite IH.
  destruct pre; simpl; f_equal; lia.
Qed.

Lemma uploaded_rows_shape start pre :
  Forall (fun r => (start <= row_id r < start + length pre)%nat /\
                   row_position r = Some (Z.of_nat (row_id r)))
    (uploaded_rows start pre).
Proof.
  revert start. induction pre as [|[n d] pre IH]; intros start; simpl; constructor.
  - simpl. split; [lia|done].
  - eapply Forall_impl; [apply IH|]. simpl. intros r [? ?]. split; [lia|done].
Qed.

Lemma uploaded_rows_ids start pre :
  Sorted (fun a b => (row_id a < row_id b)%nat) (uploaded_rows start pre).
Proof.
  revert start. induction pre as [|[n d] pre IH]; intros start; simpl; constructor; [apply IH|].
  destruct pre as [|[n' d'] pre]; constructor. simpl. lia.
Qed.

Lemma uploaded_rows_wf pre :
  wf (mk_table (uploaded_rows 1 pre) (S (length pre))).
Proof.
  split_and!; simpl; [lia| |].
  - apply uploaded_rows_ids.
  - eapply Forall_impl; [apply uploaded_rows_shape|]. simpl. lia.
Qed.

(** Positions strictly increase along the uploaded rows. *)
Lemma uploaded_rows_strict start pre :
  StronglySorted (fun a b => row_leb b a = false) (uploaded_rows start pre).
Proof.
  revert start. induction pre as [|[n d] pre IH]; intros start; simpl; constructor; [apply IH|].
  eapply Forall_impl; [apply uploaded_rows_shape|]. simpl.
  intros r [? Hp]. unfold row_leb. rewrite Hp. simpl. apply Z.leb_gt. lia.
Qed.

(** ** The two deployment variants *)

Inductive host := Express | Edge.

#[export] Instance host_eq_dec : EqDecision host.
Proof. solve_decision. Defined.

Definition serve_of (h : host) : request -> io response :=
  match h with Express => Server.server_app | Edge => Worker.fetch end.

(** Whether a host routes the request to its direct insert
    ([POST /api/playlist]). *)
Definition direct_insert (h : host) (req : request) : bool :=
  match h with
  | Express => Server.is_method "POST" req && Server.route_is "/api/playlist" (pathname req)
  | Edge => String.eqb (pathname req) "/api/playlist" && String.eqb (method req) "POST"
  end.

#[export] Instance serve_of_service h : PlaylistService (serve_of h).
Proof. destruct h; apply _. Qed.

(** ** Refinement: each deployment variant implements the contract *)

(** C7: listing through either host returns the table sorted by position
    and changes nothing, or is a JSON 500 (spec 4.1). *)
Theorem list_refines h : list_contract (serve_of h).
Proof. destruct h; [apply server_list|apply worker_list]. Qed.



(** C8: a direct insert through either host appends the given row and
    returns it, or is a JSON 500 having written nothing or only the row
    (spec 4.3). *)
Theorem insert_refines h : insert_contract (serve_of h).
Proof. destruct h; [apply server_insert|apply worker_insert]. Qed.

(** C9: an upload whose form has no file part (its text fields within
    busboy's limits, a text field [file] empty) is a 400 with no write, on
    either host (spec 4.2, step 1): multer leaves [req.file] undefined, and
    [formData.get('file')] is [null] or the empty string. *)
Theorem missing_file_refines h : missing_file_contract (serve_of h).
Proof. destruct h; [apply server_missing_file|apply worker_missing_file]. Qed.

(** ** Where the contract stops *)







Section Client.
Context (serve : request -> io response) `{!PlaylistService serve}.

Lemma uploaded_next_position pre :
  spec_next_position (mk_table (uploaded_rows 1 pre) (S (length pre))) = Z.of_nat (S (length pre)).
Proof.
  unfold spec_next_position. pose proof (uploaded_rows_max 1 pre) as Hm. simpl in Hm. rewrite Hm.
  destruct pre; simpl; lia.
Qed.

Lemma ingest_uploaded pre n d :
  snd (insert (Some n) (Some (music_path n))
         (Some (spec_next_position (mk_table (uploaded_rows 1 pre) (S (length pre)))))
         (mk_table (uploaded_rows 1 pre) (S (length pre)))) =
  mk_table (uploaded_rows 1 (pre ++ [(n, d)])%list) (S (length (pre ++ [(n, d)])%list)).
Proof.
  rewrite uploaded_rows_app, length_app, uploaded_next_position. simpl.
  by rewrite Nat.add_1_r.
Qed.

Fixpoint ingest_all (files : list (string * bytes)) (w : world) : world :=
  match files with
  | [] => w
  | (n, d) :: fs => ingest_all fs (snd (fst (run (serve (upload_request n d)) w [])))
  end.

Lemma ingest_all_db files pre bl :
  Forall file_ok files ->
  db (ingest_all files (mk_world (mk_table (uploaded_rows 1 pre) (S (length pre))) bl)) =
  mk_table (uploaded_rows 1 (pre ++ files)%list) (S (length (pre ++ files)%list)).
Proof.
  revert pre bl. induction files as [|[n d] files IH]; intros pre bl Hsz.
  - by rewrite app_nil_r.
  - apply Forall_cons in Hsz as [Hsz1 Hsz].
    cbn [ingest_all].
    destruct (run (serve (upload_request n d)) _ []) as [[r w'] fs'] eqn:Hrun.
    destruct (svc_ingest_total n d (mk_world (mk_table (uploaded_rows 1 pre) (S (length pre))) bl)
                r w' fs' (uploaded_rows_wf pre) Hsz1 Hrun) as (resp & _ & _ & ->).
    cbn [fst snd]. unfold after_ingest. cbn [db blobs].
    rewrite (ingest_uploaded pre n d), IH by done.
    by rewrite <- app_assoc.
Qed.
Lemma spec_next_position_above tb r x :
  In r (rows tb) -> row_position r = Some x -> x < spec_next_position tb.
Proof.
  intros Hin Hx. destruct (max_position_upper tb r x Hin Hx) as (m & Hm & Hle).
  unfold spec_next_position. rewrite Hm. lia.
Qed.

(** C5: a successful ingestion through any host of a file the contract
    covers ([file_ok]) returns a row that is in
    the table afterwards, whose path holds the uploaded bytes, and whose
    position is above every position the table had. *)
Theorem ingest_position_above_all name data w fs r w' fs' resp :
  wf (db w) -> file_ok (name, data) ->
  run (serve (upload_request name data)) w fs = (r, w', fs') ->
  r = inr resp -> status resp = 200 ->
  exists row, rsp_body resp = BTrack (Some row) /\ In row (rows (db w')) /\
    row_path row = Some (music_path name) /\ blobs w' !! music_path name = Some data /\
    forall r0 x y, In r0 (rows (db w)) -> row_position r0 = Some x ->
      row_position row = Some y -> x < y.
Proof.
  intros Hwf Hsz Hrun -> Hst.
  destruct (svc_ingest _ _ _ _ _ _ _ Hwf Hsz Hrun)
    as (resp' & [= <-] & [(_ & Hb & ->)|[[Hst' _] _]]); [|lia].
  exists (ingested_row (db w) name). split_and!; [done| | done | |].
  - simpl. apply in_or_app. right. left. done.
  - simpl. apply lookup_insert_eq.
  - intros r0 x y Hin Hx [= <-]. by eapply spec_next_position_above.
Qed.

(** C3: after uploads of [files] one after another into an empty
    playlist, with no store fault, listing returns exactly the uploaded
    tracks in upload order, with ids and positions 1, 2, ... *)
Theorem sequential_uploads_listed_in_order files r w' fs' :
  Forall file_ok files ->
  run (serve list_request) (ingest_all files empty_world) [] = (r, w', fs') ->
  exists resp, r = inr resp /\ status resp = 200 /\
    rsp_body resp = BTracks (uploaded_rows 1 files).
Proof.
  intros Hsz Hrun.
  assert (Hdb : db (ingest_all files empty_world) =
                mk_table (uploaded_rows 1 files) (S (length files)))
    by exact (ingest_all_db files [] ∅ Hsz).
  destruct (svc_list_total _ _ _ _ Hrun) as (resp & -> & Hst).
  destruct (svc_list _ _ _ _ _ Hrun)
    as (_ & resp' & [= <-] & [(_ & rs & Hb & Hs & Hp)|[Hst' _]]); [|lia].
  exists resp. split_and!; [done|done|]. rewrite Hb. f_equal.
  apply sorted_perm_unique; [done|apply uploaded_rows_strict|].
  by rewrite Hp, Hdb.
Qed.

(** C16: two uploads of files with the same plain name through any host, with
    no fault, create two rows with the same path, and the blob at that path
    holds the second file's bytes: the first row now plays the second file. *)
Theorem same_name_uploads_share_blob name d1 d2 w r1 w1 fs1 r2 w2 fs2 :
  wf (db w) -> file_ok (name, d1) -> file_ok (name, d2) ->
  run (serve (upload_request name d1)) w [] = (r1, w1, fs1) ->
  run (serve (upload_request name d2)) w1 [] = (r2, w2, fs2) ->
  exists row1 row2, In row1 (rows (db w2)) /\ In row2 (rows (db w2)) /\
    row_id row1 <> row_id row2 /\
    row_path row1 = Some (music_path name) /\ row_path row2 = Some (music_path name) /\
    blobs w2 !! music_path name = Some d2.
Proof.
  intros Hwf Hs1 Hs2 H1 H2.
  destruct (svc_ingest_total name d1 w r1 w1 fs1 Hwf Hs1 H1) as (_ & _ & _ & ->).
  assert (Hwf1 : wf (db (after_ingest w name d1))) by (apply insert_wf; done).
  destruct (svc_ingest_total name d2 _ r2 w2 fs2 Hwf1 Hs2 H2) as (_ & _ & _ & ->).
  exists (ingested_row (db w) name), (ingested_row (db (after_ingest w name d1)) name).
  split_and!; simpl.
  - apply in_or_app. left. apply in_or_app. right. by left.
  - apply in_or_app. right. by left.
  - lia.
  - done.
  - done.
  - unfold music_path. by rewrite insert_insert_eq, lookup_insert_eq.
Qed.
End Client.

(** ** Witnesses at concrete inputs *)

Definition demo_files : list (string * bytes) :=
  [("a.mp3", [Byte.x00]); ("b.mp3", [Byte.x01]); ("c.mp3", [Byte.x02])].

Lemma demo_files_size : Forall file_ok demo_files.
Proof. repeat constructor; simpl; lia. Qed.

Lemma sequential_uploads_listed_in_order_witness :
  exists resp,
    fst (fst (run (Server.server_app list_request)
                (ingest_all Server.server_app demo_files empty_world) [])) = inr resp /\
    status resp = 200 /\ rsp_body resp = BTracks (uploaded_rows 1 demo_files).
Proof.
  destruct (run _ _ _) as [[r w'] fs'] eqn:E. simpl.
  exact (sequential_uploads_listed_in_order Server.server_app demo_files r w' fs'
           demo_files_size E).
Defined.

(** Spec 8.3: a playlist whose maximum position is 7. *)
Definition w7 : world :=
  mk_world (mk_table [mk_row 1 (Some "x.mp3") (Some "/music/x.mp3") (Some 7)] 2)
           {["/music/x.mp3" := [Byte.x00]]}.

Lemma w7_wf : wf (db w7).
Proof. split_and!; simpl; [lia|repeat constructor|repeat constructor; simpl; lia]. Qed.

Definition song : string * bytes := ("song.mp3", [Byte.x01]).

Lemma song_size : file_ok song.
Proof. split; [reflexivity|simpl; lia]. Qed.

Lemma ingest_position_above_all_witness :
  exists row,
    fst (fst (run (Worker.fetch (upload_request "song.mp3" [Byte.x01])) w7 [])) =
      inr (Worker.json_response 200 (BTrack (Some row))) /\
    row_position row = Some 8 /\ blobs w7 !! "/music/song.mp3" = None /\
    forall r0 x y, In r0 (rows (db w7)) -> row_position r0 = Some x ->
      row_position row = Some y -> x < y.
Proof.
  destruct (run _ _ _) as [[r w'] fs'] eqn:E.
  pose proof E as E'. vm_compute in E'. injection E' as <- _ _.
  destruct (ingest_position_above_all Worker.fetch "song.mp3" [Byte.x01] w7 [] _ w' fs' _
              w7_wf song_size E eq_refl eq_refl)
    as (row & Hb & _ & _ & _ & Habove).
  simpl in Hb. injection Hb as <-.
  eexists. split_and!; [reflexivity|reflexivity|reflexivity|exact Habove].
Defined.

Lemma same_name_uploads_share_blob_witness :
  exists row1 row2,
    let w1 := snd (fst (run (Worker.fetch (upload_request "song.mp3" [Byte.x01])) w7 [])) in
    let w2 := snd (fst (run (Worker.fetch (upload_request "song.mp3" [Byte.x02])) w1 [])) in
    In row1 (rows (db w2)) /\ In row2 (rows (db w2)) /\ row_id row1 <> row_id row2 /\
    row_path row1 = Some (music_path "song.mp3") /\ row_path row2 = Some (music_path "song.mp3") /\
    blobs w2 !! music_path "song.mp3" = Some [Byte.x02].
Proof.
  cbv zeta.
  destruct (run (Worker.fetch (upload_request "song.mp3" [Byte.x01])) w7 []) as [[r1 w1] fs1] eqn:E1.
  cbn [fst snd].
  destruct (run (Worker.fetch (upload_request "song.mp3" [Byte.x02])) w1 []) as [[r2 w2] fs2] eqn:E2.
  cbn [fst snd].
  exact (same_name_uploads_share_blob Worker.fetch "song.mp3" [Byte.x01] [Byte.x02] w7
           r1 w1 fs1 r2 w2 fs2 w7_wf song_size song_size E1 E2).
Defined.

End Contract.
