(* ===== verification/Hosts.v ===== *)
(** * Where the hosts differ, from each other or from the spec

    Behaviours of [src/server.js] and [src/worker.js] outside the common
    contract: the track route for the paths uploads store, uploads whose
    form has no file, a text field in its place or two files, a direct insert
    without a position, and the spellings of [/api/playlist] that only
    Express accepts. On the requests of the contract, a simulation
    ([Io.io_sim]) shows that the hosts issue the same calls and give the
    same status and body. *)

From S2P Require Import Prelude MetaStore BlobStore Io Http Server Worker Contract.

Module Hosts.

Import MetaStore BlobStore Io Http Contract.
Local Open Scope Z_scope.
Local Open Scope string_scope.

(** The request the client sends to play the track stored at [p]. *)
Definition track_request (p : string) : request := mk_request "GET" ("/api/track/" ++ p) NoBody.

(** The Express host answers 404 to the URL the client builds for
    every uploaded track ([/api/track/] followed by the stored path
    [/music/<name>]): the [:path] parameter is one segment and cannot
    start with ['/']. *)
Theorem server_track_404_for_uploaded_paths name w fs :
  run (Server.server_app (track_request (music_path name))) w fs =
  (inr (Server.not_found (track_request (music_path name))), w, fs).
Proof. reflexivity. Qed.

(** C10: the edge-function host answers every [GET /api/track/<p>] with
    status 200 and a stream of [p], without touching the stores: a path
    with no blob is not a [NotFound] error response, its error only comes
    with the stream ([stream_contents] is [None]). *)
Theorem worker_track_streams p w fs :
  run (Worker.fetch (track_request p)) w fs =
  (inr (mk_response 200 (Worker.cors_headers ++ [("Content-Type", "audio/mpeg")])
          (BStream (createReadStream p))), w, fs).
Proof. apply Worker.fetch_track. Qed.

Definition upload_with (b : req_body) : request := mk_request "POST" "/api/upload" b.

(** An upload without a file: with no form body, or with a nonempty text
    field [file] (within busboy's 1 MB value limit), the Express host
    answers 400 ([MissingFile]) while the edge-function host answers 500
    (an empty text field is [!file] there too, and gets its 400);
    neither writes. *)
Theorem upload_without_file_hosts_differ w fs v :
  Z.of_nat (String.length v) <= 1024 * 1024 -> v <> "" ->
  run (Server.server_app (upload_with NoBody)) w fs =
    (inr (Server.res_json 400 (BError "No file uploaded")), w, fs) /\
  run (Server.server_app (upload_with (FormBody [("file", TextPart v)]))) w fs =
    (inr (Server.res_json 400 (BError "No file uploaded")), w, fs) /\
  run (Worker.fetch (upload_with NoBody)) w fs =
    (inr (Worker.json_response 500 (BError "Could not parse content as FormData.")), w, fs) /\
  run (Worker.fetch (upload_with (FormBody [("file", TextPart v)]))) w fs =
    (inr (Worker.json_response 500 (BError "file.arrayBuffer is not a function")), w, fs).
Proof.
  intros Hv Hne. split_and!; try reflexivity.
  - unfold Server.server_app, Server.express_routes. simpl.
    rewrite (proj2 (Z.ltb_ge _ _)) by (unfold Server.field_size_limit; lia). reflexivity.
  - unfold Worker.fetch, Worker.route. simpl. unfold Worker.upload. simpl.
    by rewrite (proj2 (String.eqb_neq _ _) Hne).
Qed.

(** A form with two file parts named [file]. *)
Definition two_files (n1 : string) (d1 : bytes) (n2 : string) (d2 : bytes) : req_body :=
  FormBody [("file", FilePart n1 d1); ("file", FilePart n2 d2)].

(** An upload whose form has two files under [file]: multer's
    [upload.single('file')] accepts one file only, and the Express host
    answers a 500 [Unexpected field] from Express's error handler without a
    write (when busboy names the second file at all: a part whose name
    busboy reduces to [""] is skipped); the edge function's [formData.get('file')] takes the first file,
    which it ingests with status 200 when no store fails. *)
Theorem two_files_hosts_differ n1 d1 n2 d2 w fs r w' fs' :
  wf (db w) -> file_ok (n1, d1) -> Server.busboy_filename n2 <> "" ->
  run (Server.server_app (upload_with (two_files n1 d1 n2 d2))) w fs =
    (inr (Server.express_error 500 "Unexpected field"), w, fs) /\
  (run (Worker.fetch (upload_with (two_files n1 d1 n2 d2))) w [] = (r, w', fs') ->
   exists resp, r = inr resp /\ status resp = 200 /\ w' = after_ingest w n1 d1).
Proof.
  intros Hwf Hf Hn2. split.
  - unfold Server.server_app, Server.express_routes. simpl. server_size_ok.
    by rewrite (proj2 (String.eqb_neq _ _) Hn2).
  - change (Worker.fetch (upload_with (two_files n1 d1 n2 d2)))
      with (Worker.fetch (upload_request n1 d1)).
    by apply worker_ingest_total.
Qed.

(** A direct insert whose JSON body has no [position]. *)
Definition insert_without_position (t p : string) : request :=
  mk_request "POST" "/api/playlist" (JsonBody (Val t) (Val p) Absent).

(** C29: a direct insert without [position]: the Express host binds the
    missing field as SQL [NULL], stores the row and returns it, and the
    listing then puts that row before every row that has a position; the
    edge-function host refuses the [undefined] binding with a JSON 500 and
    writes nothing. The spec's tracks always have an integer position. *)
Theorem insert_without_position_hosts_differ t p w :
  wf (db w) ->
  let new := mk_row (next_id (db w)) (Some t) (Some p) None in
  let w' := mk_world (snd (insert (Some t) (Some p) None (db w))) (blobs w) in
  run (Server.server_app (insert_without_position t p)) w [] =
    (inr (Server.res_json 200 (BTrack (Some new))), w', []) /\
  run (Worker.fetch (insert_without_position t p)) w [] =
    (inr (Worker.json_response 500 (BError "D1_TYPE_ERROR: Type 'undefined' not supported")),
     w, []) /\
  forall i j r, order_by_position (db w') !! i = Some new ->
    order_by_position (db w') !! j = Some r -> is_Some (row_position r) -> (i < j)%nat.
Proof.
  intros Hwf new w'. split_and!.
  - unfold Server.server_app, Server.express_routes. simpl. by rewrite select_appended.
  - reflexivity.
  - intros i j r Hi Hj Hr.
    exact (sorted_null_first _ i j new r (order_by_position_sorted _) Hi eq_refl Hj Hr).
Qed.

(** A [GET] of a path. *)
Definition get_path (p : string) : request := mk_request "GET" p NoBody.

(** Express matches [/api/playlist] case-insensitively and with an
    optional trailing slash; the edge function compares the path exactly.
    A [GET] of any other spelling that Express accepts (such as
    [/api/playlist/] or [/API/Playlist]) is the listing on the Express
    host and a 404 without CORS headers on the edge-function host. *)
Theorem playlist_spellings_hosts_differ p w fs :
  Server.route_is "/api/playlist" p = true -> p <> "/api/playlist" ->
  run (Server.server_app (get_path p)) w fs = run (Server.server_app list_request) w fs /\
  run (Worker.fetch (get_path p)) w fs = (inr Worker.not_found, w, fs).
Proof.
  intros Hr Hne. split.
  - unfold Server.server_app, Server.express_routes. simpl. by rewrite Hr.
  - unfold Worker.fetch, Worker.route. cbn [get_path pathname method rbody].
    rewrite (proj2 (String.eqb_neq _ _) Hne).
    destruct (String.eqb_spec p "/api/upload") as [->|_]; [done|].
    destruct (starts_with "/api/track/" p) eqn:Ht; [|done].
    destruct (starts_with_lower _ _ Ht) as [rest Hl].
    unfold Server.route_is in Hr. rewrite Hl in Hr. done.
Qed.

(** ** The two hosts simulate each other on the spec's requests *)






(** ** Witnesses *)

Lemma upload_without_file_hosts_differ_witness :
  run (Worker.fetch (upload_with (FormBody [("file", TextPart "song.mp3")]))) empty_world [] =
    (inr (Worker.json_response 500 (BError "file.arrayBuffer is not a function")), empty_world, []).
Proof.
  destruct (upload_without_file_hosts_differ empty_world [] "song.mp3" ltac:(simpl; lia)
              ltac:(discriminate))
    as (_ & _ & _ & H).
  exact H.
Defined.

Lemma insert_without_position_hosts_differ_witness :
  run (Worker.fetch (insert_without_position "t" "/music/t.mp3")) w7 [] =
    (inr (Worker.json_response 500 (BError "D1_TYPE_ERROR: Type 'undefined' not supported")),
     w7, []) /\
  order_by_position (snd (insert (Some "t") (Some "/music/t.mp3") None (db w7))) !! 0%nat =
    Some (mk_row (next_id (db w7)) (Some "t") (Some "/music/t.mp3") None).
Proof.
  destruct (insert_without_position_hosts_differ "t" "/music/t.mp3" w7 w7_wf) as (_ & H & _).
  split; [exact H|reflexivity].
Defined.

Lemma playlist_spellings_hosts_differ_witness :
  run (Worker.fetch (get_path "/API/Playlist/")) empty_world [] =
    (inr Worker.not_found, empty_world, []) /\
  run (Server.server_app (get_path "/API/Playlist/")) empty_world [] =
    run (Server.server_app list_request) empty_world [].
Proof.
  destruct (playlist_spellings_hosts_differ "/API/Playlist/" empty_world []
              eq_refl ltac:(discriminate)) as [Hs Hw].
  split; [exact Hw|exact Hs].
Defined.


Lemma two_files_hosts_differ_witness :
  run (Server.server_app (upload_with (two_files "a.mp3" [Byte.x01] "b.mp3" [Byte.x02])))
    empty_world [] = (inr (Server.express_error 500 "Unexpected field"), empty_world, []) /\
  exists resp,
    fst (fst (run (Worker.fetch (upload_with (two_files "a.mp3" [Byte.x01] "b.mp3" [Byte.x02])))
                empty_world [])) = inr resp /\ status resp = 200.
Proof.
  destruct (run (Worker.fetch _) empty_world []) as [[r w'] fs'] eqn:E.
  destruct (two_files_hosts_differ "a.mp3" [Byte.x01] "b.mp3" [Byte.x02] empty_world [] r w' fs'
              empty_world_wf ltac:(split; [reflexivity|simpl; lia]) ltac:(discriminate))
    as [Hs Hw].
  split; [exact Hs|]. destruct (Hw E) as (resp & -> & Hst & _). by exists resp.
Defined.

(** [HEAD /api/playlist] runs the listing on the Express host and answers
    200 without a body; the edge function has no [HEAD] route and answers
    its 404 without CORS headers. *)
Example head_playlist_hosts_differ :
  run (Server.server_app (mk_request "HEAD" "/api/playlist" NoBody)) empty_world [] =
    (inr (Server.drop_body (Server.res_json 200 (BTracks []))), empty_world, []) /\
  run (Worker.fetch (mk_request "HEAD" "/api/playlist" NoBody)) empty_world [] =
    (inr Worker.not_found, empty_world, []).
Proof. rewrite Server.server_app_head. split; reflexivity. Qed.

(** busboy unescapes the quoted file name and reports its last segment:
    the Express host stores a file sent as [dir/b.mp3] under the title and
    path of [b.mp3] and one sent as [a\b.mp3] under [ab.mp3], while the
    edge function keeps the name as sent; a file sent as [..] is skipped by
    multer, and the Express host answers 400. *)
Example path_like_names_hosts_differ :
  let w1 := snd (fst (run (Server.server_app (upload_request "dir/b.mp3" [Byte.x01])) empty_world [])) in
  let w2 := snd (fst (run (Worker.fetch (upload_request "dir/b.mp3" [Byte.x01])) empty_world [])) in
  let w3 := snd (fst (run (Server.server_app (upload_request "a\b.mp3" [Byte.x01])) empty_world [])) in
  rows (db w1) = [mk_row 1 (Some "b.mp3") (Some "/music/b.mp3") (Some 1)] /\
  blobs w1 !! "/music/b.mp3" = Some [Byte.x01] /\
  rows (db w2) = [mk_row 1 (Some "dir/b.mp3") (Some "/music/dir/b.mp3") (Some 1)] /\
  rows (db w3) = [mk_row 1 (Some "ab.mp3") (Some "/music/ab.mp3") (Some 1)] /\
  run (Server.server_app (upload_request ".." [Byte.x01])) empty_world [] =
    (inr (Server.res_json 400 (BError "No file uploaded")), empty_world, []).
Proof. split_and!; vm_compute; reflexivity. Qed.

End Hosts.
