(* ===== verification/Race.v ===== *)
(** * Requests in flight: interleavings of handlers

    Each request is handled independently, but the handlers' store calls
    interleave (spec section 5). A configuration is the world, the fault
    schedule, and the handler programs in flight; [istep] lets any one of
    them make its next store call. [run_sched] executes a given schedule,
    and every configuration it produces is reachable.

    [put_before] states of a program that every row it can insert has a
    path that the same program has already written to the Blob Store.
    The upload handlers of both hosts have it; the direct insert does not.
    With it, every row of the table has its blob in every reachable
    configuration, whatever the interleaving and the faults (the spec's
    section 3 invariant, for the uploads). The race on positions that
    section 5 documents is exhibited by a schedule. Every handler makes at
    most four store calls, so every interleaving of [n] handlers ends
    within [4 n] steps. *)

From S2P Require Import Prelude MetaStore BlobStore Io Http Server Worker Contract.

Module Race.

Import MetaStore BlobStore Io Http Contract.
Local Open Scope Z_scope.
Local Open Scope string_scope.

Record config := mk_config {
  cw : world;
  cfs : faults;
  threads : list (io response)
}.

Inductive istep : config -> config -> Prop :=
| istep_call c i p p' w' fs' :
    threads c !! i = Some p ->
    step p (cw c) (cfs c) = Some (p', w', fs') ->
    istep c (mk_config w' fs' (<[i := p']> (threads c))).

Definition reachable : config -> config -> Prop := rtc istep.

(** A schedule names, at each step, the thread that makes its next call;
    a finished or missing thread is skipped. *)
Fixpoint run_sched (sched : list nat) (c : config) : config :=
  match sched with
  | [] => c
  | i :: s =>
      match threads c !! i with
      | Some p =>
          match step p (cw c) (cfs c) with
          | Some (p', w', fs') => run_sched s (mk_config w' fs' (<[i := p']> (threads c)))
          | None => run_sched s c
          end
      | None => run_sched s c
      end
  end.

(** The status of a finished handler. *)
Definition thread_status (p : io response) : option Z :=
  match p with Ret r => Some (status r) | _ => None end.

(** Each of two uploads reads [MAX(position)] before the other inserts. *)
Definition racing_sched : list nat := [0; 0; 1; 1; 0; 0; 1; 1]%nat.

Lemma run_sched_reachable sched c : reachable c (run_sched sched c).
Proof.
  revert c. induction sched as [|i s IH]; intros c; simpl; [apply rtc_refl|].
  destruct (threads c !! i) as [p|] eqn:Hi; [|apply IH].
  destruct (step p (cw c) (cfs c)) as [[[p' w'] fs']|] eqn:Hs; [|apply IH].
  eapply rtc_l; [by eapply istep_call|apply IH].
Qed.

(** ** Blobs written before rows *)

(** The paths a program has written, after a call with outcome [r]. *)
Definition done_after {X} (c : cmd X) (r : exn + X) (done : list string) : list string :=
  match c with
  | PutFileContents x _ => match r with inr _ => x :: done | inl _ => done end
  | _ => done
  end.

(** A call is allowed when it inserts no path, or one already written. *)
Definition cmd_ok {X} (done : list string) (c : cmd X) : Prop :=
  match c with
  | Insert _ (Some x) _ => In x done
  | _ => True
  end.

Fixpoint put_before {A} (done : list string) (p : io A) : Prop :=
  match p with
  | Ret _ | Throw _ => True
  | Call c k => cmd_ok done c /\ forall r, put_before (done_after c r done) (k r)
  end.

Definition present (w : world) (x : string) : Prop := is_Some (blobs w !! x).

(** The spec's invariant: every row's path holds a blob. *)
Definition row_has_blob (w : world) (r : row) : Prop :=
  match row_path r with Some x => present w x | None => True end.

Definition blobs_backed (w : world) : Prop := Forall (row_has_blob w) (rows (db w)).

Definition thread_ok (w : world) (p : io response) : Prop :=
  exists done, put_before done p /\ Forall (present w) done.

Definition inv (c : config) : Prop :=
  blobs_backed (cw c) /\ Forall (thread_ok (cw c)) (threads c).

(** ** The invariant is preserved *)

Lemma exec_mono {X} (c : cmd X) w x : present w x -> present (snd (exec c w)) x.
Proof. unfold present. destruct c; simpl; auto using put_mono. Qed.

Lemma present_mono_forall {X} (c : cmd X) w l :
  Forall (present w) l -> Forall (present (snd (exec c w))) l.
Proof. intros H. eapply Forall_impl; [exact H|]. intros x. apply exec_mono. Qed.

Lemma row_has_blob_mono {X} (c : cmd X) w r :
  row_has_blob w r -> row_has_blob (snd (exec c w)) r.
Proof. unfold row_has_blob. destruct (row_path r); [apply exec_mono|done]. Qed.

#[local] Hint Resolve exec_mono present_mono_forall row_has_blob_mono : quiz.

Lemma exec_backed {X} (c : cmd X) done w :
  cmd_ok done c -> Forall (present w) done -> blobs_backed w ->
  blobs_backed (snd (exec c w)).
Proof.
  intros Hok Hdone Hb.
  assert (Hm : Forall (row_has_blob (snd (exec c w))) (rows (db w))).
  { eapply Forall_impl; [exact Hb|]. eauto with quiz. }
  destruct c as [x b|x| | |t [x|] pos|i]; try exact Hm;
    unfold blobs_backed; simpl; apply Forall_app; (split; [exact Hm|]);
    apply Forall_singleton; unfold row_has_blob; simpl; [|done].
  rewrite List.Forall_forall in Hdone. by apply Hdone.
Qed.

Lemma exec_done {X} (c : cmd X) done w x :
  Forall (present w) done -> Forall (present (snd (exec c w))) (done_after c (inr x) done).
Proof.
  intros H. destruct c; simpl; eauto with quiz.
  constructor; [unfold present, putFileContents; simpl; by rewrite lookup_insert_eq|].
  eapply Forall_impl; [exact H|].
  intros y. apply (exec_mono (PutFileContents p b)).
Qed.

Lemma done_after_inl {X} (c : cmd X) e done : done_after c (inl e) done = done.
Proof. by destruct c. Qed.

Lemma step_thread_ok p w fs p' w' fs' :
  thread_ok w p -> step p w fs = Some (p', w', fs') ->
  thread_ok w' p' /\ (blobs_backed w -> blobs_backed w') /\
  (forall q, thread_ok w q -> thread_ok w' q).
Proof.
  intros (done & Hpb & Hdone) Hstep. destruct p as [a|e|X c k]; [done|done|].
  simpl in Hstep. destruct (exec_call c w fs) as [[r w''] fs''] eqn:E.
  injection Hstep as <- <- <-. destruct Hpb as [Hok Hk].
  destruct (exec_call_inv c w fs r w'' fs'' E) as [(e & -> & ->)|(-> & ->)].
  - specialize (Hk (inl e)). rewrite done_after_inl in Hk.
    split_and!; [by exists done|done|done].
  - split_and!.
    + exists (done_after c (inr (fst (exec c w))) done). split; [apply Hk|by apply exec_done].
    + by apply exec_backed with done.
    + intros q (dq & Hq & Hdq). exists dq. split; [done|by apply present_mono_forall].
Qed.

Lemma istep_inv c c' : inv c -> istep c c' -> inv c'.
Proof.
  intros [Hb Ht] Hs. destruct Hs as [c i p p' w' fs' Hi Hstep].
  pose proof (proj1 (Forall_lookup _ _) Ht i p Hi) as Hp.
  destruct (step_thread_ok _ _ _ _ _ _ Hp Hstep) as (Hp' & Hb' & Hq).
  split; simpl; [by apply Hb'|].
  apply Forall_insert; [|done]. eapply Forall_impl; [exact Ht|exact Hq].
Qed.

Lemma reachable_inv c c' : inv c -> reachable c c' -> inv c'.
Proof. intros H Hr. refine (rtc_inv _ inv _ _ _ Hr H). intros a b Hab Ha. exact (istep_inv a b Ha Hab). Qed.

Ltac solve_pb :=
  simpl; repeat match goal with
  | |- _ /\ _ => split
  | |- forall _ : _ + _, _ => intros [?|?]; simpl
  | |- True => exact I
  | |- In _ _ => simpl; auto
  | |- _ \/ _ => left; reflexivity
  end.

(** The handlers of both hosts write the blob before the row, except the
    direct insert. *)
Lemma worker_put_before req :
  (String.eqb (pathname req) "/api/playlist" && String.eqb (method req) "POST")%bool = false ->
  put_before [] (Worker.fetch req).
Proof.
  intros H. unfold Worker.fetch, Worker.route.
  destruct (String.eqb (method req) "OPTIONS"); [done|].
  rewrite H. 
  unfold Worker.upload, Worker.request_formData, Worker.get_track, Worker.get_playlist.
  repeat case_match; simpl; try destruct (Worker.form_get "file" _) as [[]|]; try case_match; solve_pb.
Qed.

Lemma server_put_before req :
  (Server.is_method "POST" req && Server.route_is "/api/playlist" (pathname req))%bool = false ->
  put_before [] (Server.server_app req).
Proof.
  intros H. unfold Server.server_app. destruct (Server.is_method "HEAD" req);
    unfold Server.express_routes; simpl;
    unfold Server.upload, Server.get_track, Server.get_playlist;
    repeat case_match; simpl; try destruct (Server.multer_single _ _) as [?|[[? ?]|]]; solve_pb.
  all: congruence.
Qed.

Lemma host_put_before h req :
  direct_insert h req = false -> put_before [] (serve_of h req).
Proof. destruct h; [apply server_put_before|apply worker_put_before]. Qed.

Lemma start_inv h w fs reqs :
  blobs_backed w -> Forall (fun req => direct_insert h req = false) reqs ->
  inv (mk_config w fs (map (serve_of h) reqs)).
Proof.
  intros Hb Hr. split; [done|]. simpl. apply Forall_fmap.
  eapply Forall_impl; [exact Hr|]. intros req Hreq. exists []. split; [|constructor].
  by apply host_put_before.
Qed.

(** ** Theorems *)

(** C2: with either host, starting from a world whose rows all have their
    blobs, any interleaving of handlers for any requests other than the
    direct insert, under any fault schedule, leaves every row of the table
    with its blob. *)
Theorem rows_backed_any_interleaving h w fs reqs c :
  blobs_backed w ->
  Forall (fun req => direct_insert h req = false) reqs ->
  reachable (mk_config w fs (map (serve_of h) reqs)) c ->
  blobs_backed (cw c).
Proof.
  intros Hb Hr Hreach.
  exact (proj1 (reachable_inv _ _ (start_inv h w fs reqs Hb Hr) Hreach)).
Qed.

Lemma racing_upload_rows h w n1 d1 n2 d2 :
  file_ok (n1, d1) -> file_ok (n2, d2) ->
  let c := run_sched racing_sched
             (mk_config w [] [serve_of h (upload_request n1 d1); serve_of h (upload_request n2 d2)]) in
  map thread_status (threads c) = [Some 200; Some 200] /\
  rows (db (cw c)) = (rows (db w) ++
    [mk_row (next_id (db w)) (Some n1) (Some (music_path n1)) (Some (spec_next_position (db w)));
     mk_row (S (next_id (db w))) (Some n2) (Some (music_path n2)) (Some (spec_next_position (db w)))])%list.
Proof.
  intros [Hp1 Hs1] [Hp2 Hs2]; simpl in Hs1, Hs2.
  destruct h; cbn -[Z.ltb Z.mul].
  - unfold Server.server_app, Server.express_routes. cbn -[Z.ltb Z.mul Server.busboy_filename].
    rewrite (plain_busboy n1 Hp1), (plain_busboy n2 Hp2), (plain_nonempty n1 Hp1),
      (plain_nonempty n2 Hp2).
    repeat match goal with
    | |- context [(?l <? Z.of_nat (length ?d))%Z] =>
        rewrite (proj2 (Z.ltb_ge l (Z.of_nat (length d)))) by (unfold Server.file_size_limit; lia)
    end.
    simpl. rewrite <- app_assoc, server_next_position. done.
  - rewrite <- app_assoc, worker_next_position. done.
Qed.

(** C4: the race of spec sections 5 and 8.6. With either host, two
    uploads whose calls interleave as in [racing_sched] both succeed and
    both get the same position, [MAX(position) + 1] of the table they
    started from. *)
Theorem upload_race_duplicate_positions h w n1 d1 n2 d2 :
  file_ok (n1, d1) -> file_ok (n2, d2) ->
  let c0 := mk_config w [] [serve_of h (upload_request n1 d1); serve_of h (upload_request n2 d2)] in
  let c := run_sched racing_sched c0 in
  reachable c0 c /\
  map thread_status (threads c) = [Some 200; Some 200] /\
  map row_position (drop (length (rows (db w))) (rows (db (cw c)))) =
    [Some (spec_next_position (db w)); Some (spec_next_position (db w))].
Proof.
  intros Hs1 Hs2 c0 c.
  destruct (racing_upload_rows h w n1 d1 n2 d2 Hs1 Hs2) as [Hst Hrows].
  split_and!; [apply run_sched_reachable|exact Hst|].
  subst c c0. rewrite Hrows, drop_app_length. done.
Qed.

(** C17: the direct insert of either host, without a fault, stores a row
    whose path has no blob when the caller names a path nobody uploaded: it
    breaks the invariant of spec section 3 that the uploads keep. *)
Theorem direct_insert_unbacked h t p pos w r w' fs' :
  blobs w !! p = None ->
  run (serve_of h (insert_request t p pos)) w [] = (r, w', fs') ->
  ~ blobs_backed w'.
Proof.
  intros Hp. destruct h; simpl; intros [= _ <- _] Hb.
  all: unfold blobs_backed in Hb; simpl in Hb;
    rewrite Forall_app, Forall_singleton in Hb; destruct Hb as [_ Hb];
    unfold row_has_blob, present in Hb; simpl in Hb; rewrite Hp in Hb;
    by destruct Hb as [? [=]].
Qed.

Lemma direct_insert_unbacked_witness :
  ~ blobs_backed (snd (fst (run (serve_of Edge (insert_request "t" "/music/none.mp3" 1))
                              empty_world []))).
Proof.
  destruct (run _ _ _) as [[r w'] fs'] eqn:E. simpl.
  exact (direct_insert_unbacked Edge "t" "/music/none.mp3" 1 empty_world r w' fs' eq_refl E).
Defined.

(** ** Witnesses *)

Definition two_uploads (h : host) : config :=
  mk_config empty_world []
    [serve_of h (upload_request "a.mp3" [Byte.x00]); serve_of h (upload_request "b.mp3" [Byte.x01])].

Lemma empty_world_backed : blobs_backed empty_world.
Proof. constructor. Qed.

Lemma rows_backed_any_interleaving_witness :
  blobs_backed (cw (run_sched racing_sched (two_uploads Express))).
Proof.
  apply (rows_backed_any_interleaving Express empty_world []
           [upload_request "a.mp3" [Byte.x00]; upload_request "b.mp3" [Byte.x01]]).
  - exact empty_world_backed.
  - repeat constructor.
  - apply run_sched_reachable.
Defined.

(** Spec 8.6: two concurrent uploads into an empty playlist, both at
    position 1. *)
Lemma upload_race_duplicate_positions_witness :
  map row_position (rows (db (cw (run_sched racing_sched (two_uploads Edge))))) =
    [Some 1; Some 1].
Proof.
  destruct (upload_race_duplicate_positions Edge empty_world "a.mp3" [Byte.x00] "b.mp3" [Byte.x01]
              ltac:(split; [reflexivity|simpl; lia]) ltac:(split; [reflexivity|simpl; lia]))
    as (_ & _ & Hpos).
  exact Hpos.
Defined.

End Race.

