(* ===== verification/Pool.v ===== *)
(** * The connection pool of the Express host (src/server.js, lines 25-34)

    The Express host reaches the table through
    [mysql.createPool({..., waitForConnections: true, connectionLimit: 10,
    queueLimit: 0})]; every [pool.query] takes a connection from the pool,
    runs its statement on it and gives it back. The WebDAV calls do not use
    the pool. The pool is mysql2's [Pool]:

    - [getConnection] takes a free connection, or opens a new one while fewer
      than [connectionLimit] are open, or else queues the request, or
      refuses it when [waitForConnections] is false (["No connections
      available."]) or [queueLimit] requests already wait (["Queue limit
      reached."]; a limit of [0] means no limit);
    - [releaseConnection] hands the connection to the oldest waiting request,
      or makes it free;
    - a connection that fails is removed from the pool ([_removeConnection]),
      and the oldest waiting request asks again.

    [pstep] lets the handlers in flight interleave as [Race.istep] does, with
    each SQL call split into its request for a connection and the query on
    the connection; [pstep_fn] and [prun] run it under a given schedule.
    With the options of [src/server.js] the pool never refuses, and every
    run of the pooled system is an interleaving of [Race]
    ([pooled_refines_race]), so the theorems of [Race] hold behind the
    pool. Opening a connection is modelled as
    succeeding: a store failure is the failure of the query, on a connection
    the pool keeps or removes. *)

From S2P Require Import Prelude MetaStore BlobStore Io Http Server Worker Contract Race.

Module Pool.

Import MetaStore BlobStore Io Http Contract Race.
Local Open Scope string_scope.

(** ** The pool *)

(** The options of [mysql.createPool] that govern the connections. *)
Record pool_config := mk_pool_config {
  waitForConnections : bool;
  connectionLimit : nat;
  queueLimit : nat
}.

(** [waitForConnections: true, connectionLimit: 10, queueLimit: 0] *)
Definition pool_options : pool_config := mk_pool_config true 10 0.

(** The pool's state: [_allConnections.length], [_freeConnections.length],
    and [_connectionQueue] as the threads whose requests wait in it, oldest
    first. *)
Record pool := mk_pool {
  opened : nat;
  idle : nat;
  waiting : list nat
}.

Definition empty_pool : pool := mk_pool 0 0 [].

Inductive acquire :=
| Got (p : pool)
| Queued (p : pool)
| Refused (msg : string).

(** [getConnection] for the request of thread [i]. *)
Definition get_connection (cfg : pool_config) (i : nat) (p : pool) : acquire :=
  if Nat.ltb 0 (idle p) then Got (mk_pool (opened p) (pred (idle p)) (waiting p))
  else if Nat.eqb (connectionLimit cfg) 0 || Nat.ltb (opened p) (connectionLimit cfg) then
    Got (mk_pool (S (opened p)) (idle p) (waiting p))
  else if negb (waitForConnections cfg) then Refused "No connections available."
  else if negb (Nat.eqb (queueLimit cfg) 0) && Nat.leb (queueLimit cfg) (length (waiting p)) then
    Refused "Queue limit reached."
  else Queued (mk_pool (opened p) (idle p) (waiting p ++ [i])).

(** What becomes of the oldest waiting request when a connection comes back. *)
Inductive handover :=
| Nobody
| Handed (j : nat)
| Requeued
| Failed (j : nat) (msg : string).

(** [releaseConnection]: the oldest waiting request gets the connection, or
    it becomes free. *)
Definition release_connection (p : pool) : pool * handover :=
  match waiting p with
  | j :: q => (mk_pool (opened p) (idle p) q, Handed j)
  | [] => (mk_pool (opened p) (S (idle p)) [], Nobody)
  end.

(** [_removeConnection]: the connection leaves the pool, and the oldest
    waiting request runs [getConnection] again. *)
Definition remove_connection (cfg : pool_config) (p : pool) : pool * handover :=
  match waiting p with
  | [] => (mk_pool (pred (opened p)) (idle p) [], Nobody)
  | j :: q =>
      let p' := mk_pool (pred (opened p)) (idle p) q in
      match get_connection cfg j p' with
      | Got p'' => (p'', Handed j)
      | Queued p'' => (p'', Requeued)
      | Refused msg => (p', Failed j msg)
      end
  end.

(** ** Handlers behind the pool *)

(** The calls that [pool.query] makes; the WebDAV calls do not. *)
Definition uses_pool {X} (c : cmd X) : bool :=
  match c with
  | PutFileContents _ _ | CreateReadStream _ => false
  | _ => true
  end.

Definition sql_call (p : io response) : bool :=
  match p with Call c _ => uses_pool c | _ => false end.

(** The awaited query rejects with the pool's error. *)
Definition fail_call (msg : string) (p : io response) : io response :=
  match p with Call _ k => k (inl (StoreError msg)) | _ => p end.

(** A thread has no connection, waits for one, or holds one. *)
Inductive phase := Idle | Waiting | Holding.

#[export] Instance phase_eq_dec : EqDecision phase.
Proof. solve_decision. Defined.

Record pconfig := mk_pconfig {
  pc : config;
  phases : list phase;
  pl : pool
}.

Definition set_thread (i : nat) (p : io response) (c : config) : config :=
  mk_config (cw c) (cfs c) (<[i := p]> (threads c)).

(** The pool's answer to the oldest waiting request, applied to its thread. *)
Definition grant (h : handover) (c : pconfig) : pconfig :=
  match h with
  | Handed j => mk_pconfig (pc c) (<[j := Holding]> (phases c)) (pl c)
  | Failed j msg =>
      match threads (pc c) !! j with
      | Some p => mk_pconfig (set_thread j (fail_call msg p) (pc c)) (<[j := Idle]> (phases c)) (pl c)
      | None => c
      end
  | Nobody | Requeued => c
  end.

(** The handlers in flight start without connections, on an empty pool. *)
Definition pstart (c : config) : pconfig :=
  mk_pconfig c (replicate (length (threads c)) Idle) empty_pool.

Section Steps.
Context (cfg : pool_config).

(** One step of the pooled system: a WebDAV call, a request for a
    connection (granted, queued or refused), or a query on a held
    connection, which is then released, or removed when it failed. *)
Inductive pstep : pconfig -> pconfig -> Prop :=
| ps_blob c i p p' w' fs' :
    threads (pc c) !! i = Some p -> phases c !! i = Some Idle -> sql_call p = false ->
    step p (cw (pc c)) (cfs (pc c)) = Some (p', w', fs') ->
    pstep c (mk_pconfig (mk_config w' fs' (<[i := p']> (threads (pc c)))) (phases c) (pl c))
| ps_get c i p pl' :
    threads (pc c) !! i = Some p -> phases c !! i = Some Idle -> sql_call p = true ->
    get_connection cfg i (pl c) = Got pl' ->
    pstep c (mk_pconfig (pc c) (<[i := Holding]> (phases c)) pl')
| ps_queue c i p pl' :
    threads (pc c) !! i = Some p -> phases c !! i = Some Idle -> sql_call p = true ->
    get_connection cfg i (pl c) = Queued pl' ->
    pstep c (mk_pconfig (pc c) (<[i := Waiting]> (phases c)) pl')
| ps_refuse c i p msg :
    threads (pc c) !! i = Some p -> phases c !! i = Some Idle -> sql_call p = true ->
    get_connection cfg i (pl c) = Refused msg ->
    pstep c (mk_pconfig (set_thread i (fail_call msg p) (pc c)) (phases c) (pl c))
| ps_query c i p p' w' fs' pl' h :
    threads (pc c) !! i = Some p -> phases c !! i = Some Holding ->
    step p (cw (pc c)) (cfs (pc c)) = Some (p', w', fs') ->
    release_connection (pl c) = (pl', h) ->
    pstep c (grant h (mk_pconfig (mk_config w' fs' (<[i := p']> (threads (pc c))))
                                 (<[i := Idle]> (phases c)) pl'))
| ps_lost c i X (cm : cmd X) k e w' fs' pl' h :
    threads (pc c) !! i = Some (Call cm k) -> phases c !! i = Some Holding ->
    exec_call cm (cw (pc c)) (cfs (pc c)) = (inl e, w', fs') ->
    remove_connection cfg (pl c) = (pl', h) ->
    pstep c (grant h (mk_pconfig (mk_config w' fs' (<[i := k (inl e)]> (threads (pc c))))
                                 (<[i := Idle]> (phases c)) pl')).

End Steps.

(** ** An executable scheduler *)

(** The step of thread [i] when its WebDAV call, its request for a
    connection or its query succeeds on a kept connection; [None] when the
    thread has ended or waits. *)
Definition pstep_fn (cfg : pool_config) (i : nat) (c : pconfig) : option pconfig :=
  match threads (pc c) !! i, phases c !! i with
  | Some p, Some Idle =>
      if sql_call p then
        match get_connection cfg i (pl c) with
        | Got pl' => Some (mk_pconfig (pc c) (<[i := Holding]> (phases c)) pl')
        | Queued pl' => Some (mk_pconfig (pc c) (<[i := Waiting]> (phases c)) pl')
        | Refused msg => Some (mk_pconfig (set_thread i (fail_call msg p) (pc c)) (phases c) (pl c))
        end
      else
        match step p (cw (pc c)) (cfs (pc c)) with
        | Some (p', w', fs') =>
            Some (mk_pconfig (mk_config w' fs' (<[i := p']> (threads (pc c)))) (phases c) (pl c))
        | None => None
        end
  | Some p, Some Holding =>
      match step p (cw (pc c)) (cfs (pc c)) with
      | Some (p', w', fs') =>
          let '(pl', h) := release_connection (pl c) in
          Some (grant h (mk_pconfig (mk_config w' fs' (<[i := p']> (threads (pc c))))
                                    (<[i := Idle]> (phases c)) pl'))
      | None => None
      end
  | _, _ => None
  end.

Fixpoint prun (cfg : pool_config) (sched : list nat) (c : pconfig) : pconfig :=
  match sched with
  | [] => c
  | i :: s => match pstep_fn cfg i c with Some c' => prun cfg s c' | None => prun cfg s c end
  end.

Lemma pstep_fn_sound cfg i c c' : pstep_fn cfg i c = Some c' -> pstep cfg c c'.
Proof.
  unfold pstep_fn.
  destruct (threads (pc c) !! i) as [p|] eqn:Hp; [|done].
  destruct (phases c !! i) as [[]|] eqn:Hph; try done.
  - destruct (sql_call p) eqn:Hs.
    + destruct (get_connection cfg i (pl c)) eqn:Hg; intros [= <-];
        [eapply ps_get|eapply ps_queue|eapply ps_refuse]; eauto.
    + destruct (step p _ _) as [[[p' w'] fs']|] eqn:Hst; intros; simplify_eq.
      by eapply ps_blob.
  - destruct (step p _ _) as [[[p' w'] fs']|] eqn:Hst; [|done].
    destruct (release_connection (pl c)) as [pl' h] eqn:Hr. intros [= <-].
    by eapply ps_query.
Qed.

Lemma prun_rtc cfg sched c : rtc (pstep cfg) c (prun cfg sched c).
Proof.
  revert c. induction sched as [|i s IH]; intros c; simpl; [apply rtc_refl|].
  destruct (pstep_fn cfg i c) eqn:E; [|apply IH].
  eapply rtc_l; [by apply (pstep_fn_sound cfg i)|apply IH].
Qed.

(** ** The pool of [src/server.js] *)

(** With [waitForConnections: true] and [queueLimit: 0] no request for a
    connection is refused. *)
Lemma options_never_refuse i p msg : get_connection pool_options i p <> Refused msg.
Proof. unfold get_connection. simpl. by repeat case_match. Qed.

Lemma grant_pc h c : (forall j msg, h <> Failed j msg) -> pc (grant h c) = pc c.
Proof. destruct h; naive_solver. Qed.

(** Each step behind the pool is a step of [Race.istep] or leaves the
    handlers and the stores as they are. *)
Lemma pstep_race c c' : pstep pool_options c c' -> pc c' = pc c \/ istep (pc c) (pc c').
Proof.
  intros Hs. destruct Hs as [c i p p' w' fs' Hp Hph Hsql Hst|c i p pl' Hp Hph Hsql Hg
    |c i p pl' Hp Hph Hsql Hg|c i p msg Hp Hph Hsql Hg|c i p p' w' fs' pl' h Hp Hph Hst Hr
    |c i X cm k e w' fs' pl' h Hp Hph Hex Hr].
  - right. by eapply istep_call.
  - by left.
  - by left.
  - by apply options_never_refuse in Hg.
  - rewrite grant_pc; [right; by eapply istep_call|].
    intros j msg ->. unfold release_connection in Hr. by destruct (waiting (pl c)).
  - rewrite grant_pc; [right; eapply istep_call; [done|]; simpl; by rewrite Hex|].
    intros j msg ->. unfold remove_connection in Hr. destruct (waiting (pl c)); [done|].
    destruct (get_connection _ _ _) eqn:Hg; try done. by apply options_never_refuse in Hg.
Qed.

Lemma pooled_reachable c c' : rtc (pstep pool_options) c c' -> reachable (pc c) (pc c').
Proof.
  induction 1 as [|a b d Hab _ IH]; [apply rtc_refl|].
  destruct (pstep_race _ _ Hab) as [<-|H]; [done|by eapply rtc_l].
Qed.

(** C13: every run of the Express host's handlers behind the pool of
    [src/server.js], under any fault schedule and whatever queries lose their
    connection, is an interleaving of [Race.istep]: each step of the pooled
    system is a store call of one handler or leaves the handlers and the
    stores unchanged (the pool never refuses). So the invariant of [Race]
    holds behind the pool: from a world whose rows have their blobs, with no
    direct insert among the requests, every row keeps its blob. *)
Theorem pooled_refines_race w fs reqs c' :
  rtc (pstep pool_options) (pstart (mk_config w fs (map Server.server_app reqs))) c' ->
  reachable (mk_config w fs (map Server.server_app reqs)) (pc c') /\
  (blobs_backed w -> Forall (fun req => direct_insert Express req = false) reqs ->
   blobs_backed (cw (pc c'))).
Proof.
  intros Hrun. apply pooled_reachable in Hrun. simpl in Hrun. split; [done|].
  intros Hb Hr. exact (proj1 (reachable_inv _ _ (start_inv Express w fs reqs Hb Hr) Hrun)).
Qed.

(** ** Eleven listings at once *)

Definition eleven_lists : config :=
  mk_config empty_world [] (map Server.server_app (replicate 11 list_request)).

(** Each listing asks for a connection: ten get one, the eleventh waits. *)
Definition eleven_asked : pconfig := prun pool_options (seq 0 11) (pstart eleven_lists).

(** The first query ends; its connection goes to the eleventh listing. *)
Definition first_served : pconfig := prun pool_options [0] eleven_asked.

Lemma eleven_asked_reach : rtc (pstep pool_options) (pstart eleven_lists) eleven_asked.
Proof. apply prun_rtc. Qed.

Lemma first_served_step : pstep pool_options eleven_asked first_served.
Proof. apply (pstep_fn_sound _ 0). vm_compute. reflexivity. Qed.

Lemma pooled_refines_race_witness :
  reachable eleven_lists (pc first_served) /\ blobs_backed (cw (pc first_served)).
Proof.
  destruct (pooled_refines_race empty_world [] (replicate 11 list_request) first_served
              (rtc_r _ _ _ eleven_asked_reach first_served_step)) as [H1 H2].
  split; [exact H1|]. apply H2; [apply empty_world_backed|].
  repeat constructor.
Defined.

End Pool.
