(* ===== verification/TimeFormat.v ===== *)
(** * [formatTime] of [src/client/src/App.js]

    The player shows the position and the length of the track as
    [formatTime(currentTime)] and [formatTime(duration)]: whole minutes,
    a colon, and the whole seconds of the remainder padded to two digits.
    Times are the element's [currentTime] and [duration], finite and never
    negative; they are modelled as rationals ([Q]), which the doubles of
    the media element are. [Math.floor] is [Qfloor], the [%] operator is
    the remainder of the truncated quotient, and the integers are printed as
    [Number.prototype.toString] prints them below [10^21] (decimal digits
    and a sign). The main theorem is the round trip: reading the text back as
    [m:ss] gives the whole seconds of the time, with [ss] two digits below
    60. *)

From Stdlib Require Import QArith Qround DecimalString DecimalZ.
From S2P Require Import Prelude.

Module TimeFormat.

Local Open Scope Z_scope.

(** ** The code *)

(** [Math.trunc] *)
Definition js_trunc (q : Q) : Z := if Qle_bool 0 q then Qfloor q else Qceiling q.
(** The [%] operator: [n - d * trunc(n / d)]. *)
Definition js_rem (n d : Q) : Q := (n - d * inject_Z (js_trunc (n / d)))%Q.

Local Open Scope string_scope.

(** [Number.prototype.toString()] of an integer value. *)
Definition number_to_string (z : Z) : string := NilZero.string_of_int (Z.to_int z).

(** [s.padStart(n, '0')] *)
Fixpoint zeros (k : nat) : string := match k with O => "" | S k => String "0"%char (zeros k) end.
Definition pad_start (n : nat) (s : string) : string := zeros (n - String.length s) ++ s.

(** [formatTime(time)] *)
Definition formatTime (time : Q) : string :=
  let minutes := Qfloor (time / inject_Z 60) in
  let seconds := Qfloor (js_rem time (inject_Z 60)) in
  number_to_string minutes ++ ":" ++ pad_start 2 (number_to_string seconds).

(** ** Reading a time back

    The inverse the round trip is stated with: [m:ss], [ss] two digits
    below 60. *)

Fixpoint split_colon (s : string) : option (string * string) :=
  match s with
  | EmptyString => None
  | String c s' =>
      if Ascii.eqb c ":"%char then Some (EmptyString, s')
      else (fun '(a, b) => (String c a, b)) <$> split_colon s'
  end.

Definition parse_time (s : string) : option Z :=
  match split_colon s with
  | Some (m, ss) =>
      if Nat.eqb (String.length ss) 2 then
        match NilZero.int_of_string m, NilZero.uint_of_string ss with
        | Some mi, Some si =>
            let sec := Z.of_uint si in
            if Z.ltb sec 60 then Some (60 * Z.of_int mi + sec) else None
        | _, _ => None
        end
      else None
  | None => None
  end.

Fixpoint no_colon (s : string) : bool :=
  match s with EmptyString => true | String c s' => negb (Ascii.eqb c ":"%char) && no_colon s' end.

(** The two fields [formatTime] prints. *)
Definition minutes_of (t : Q) : Z := Qfloor (t / inject_Z 60).
Definition seconds_of (t : Q) : Z := Qfloor (js_rem t (inject_Z 60)).


(** ** The arithmetic of the two fields *)

Lemma floor_split (n : Z) (D : Z) : 0 <= n -> 0 < D ->
  let m := n / (D * 60) in
  let s := (n - 60 * m * D) / D in
  0 <= m /\ 0 <= s < 60 /\ 60 * m + s = n / D.
Proof.
  intros Hn HD m s.
  pose proof (Z.div_mod n (D * 60) ltac:(lia)) as Hdm.
  pose proof (Z.mod_pos_bound n (D * 60) ltac:(lia)) as Hb.
  fold m in Hdm. set (r := n mod (D * 60)) in *.
  assert (Hs : s = r / D).
  { unfold s. f_equal. lia. }
  assert (0 <= m) by (apply Z.div_pos; lia).
  split_and!; [done| rewrite Hs; apply Z.div_pos; lia |
     rewrite Hs; apply Z.div_lt_upper_bound; lia | ].
  rewrite Hs. replace n with ((60 * m) * D + r) by lia.
  rewrite Z.div_add_l; lia.
Qed.

Lemma minutes_seconds (t : Q) : (0 <= t)%Q ->
  0 <= minutes_of t /\ 0 <= seconds_of t < 60 /\ 60 * minutes_of t + seconds_of t = Qfloor t.
Proof.
  destruct t as [n d]. intros Ht. unfold Qle in Ht. simpl in Ht.
  unfold minutes_of, seconds_of, js_rem, js_trunc.
  assert (Hq : ((n # d) / inject_Z 60 == (n # (d * 60)))%Q).
  { unfold Qeq, Qdiv, Qmult, Qinv. simpl. lia. }
  rewrite !(Qfloor_comp _ _ Hq).
  assert (Hle : Qle_bool 0 ((n # d) / inject_Z 60) = true).
  { apply Qle_bool_iff. rewrite Hq. unfold Qle. simpl. lia. }
  rewrite Hle.
  set (m := Qfloor (n # d * 60)).
  assert (Hr : ((n # d) - inject_Z 60 * inject_Z m == ((n - 60 * m * Z.pos d) # d))%Q).
  { unfold Qeq, Qminus, Qplus, Qmult, Qopp. simpl. lia. }
  rewrite (Qfloor_comp _ _ Hr). subst m. simpl.
  rewrite Pos2Z.inj_mul. apply floor_split; lia.
Qed.

(** ** The text *)

Lemma split_colon_app a b : no_colon a = true -> split_colon (a ++ ":" ++ b) = Some (a, b).
Proof.
  induction a as [|c a IH]; [done|]. simpl. intros [Hc Ha]%andb_prop.
  apply negb_true_iff in Hc. rewrite Hc, IH; done.
Qed.

Lemma uint_no_colon d : no_colon (NilEmpty.string_of_uint d) = true.
Proof. induction d; simpl; auto. Qed.

Lemma number_no_colon z : no_colon (number_to_string z) = true.
Proof.
  unfold number_to_string, NilZero.string_of_int, NilZero.string_of_uint.
  destruct (Z.to_int z) as [[]|[]]; simpl; rewrite ?uint_no_colon; done.
Qed.

Lemma number_parse z : Z.of_int <$> NilZero.int_of_string (number_to_string z) = Some z.
Proof.
  unfold number_to_string. rewrite NilZero.isi; [simpl; by rewrite DecimalZ.of_to| |];
  destruct z; simpl; try done; intros [= H];
  pose proof (DecimalPos.Unsigned.to_uint_nonnil p); done.
Qed.

Lemma seconds_parse s : 0 <= s < 60 ->
  String.length (pad_start 2 (number_to_string s)) = 2%nat /\
  Z.of_uint <$> NilZero.uint_of_string (pad_start 2 (number_to_string s)) = Some s.
Proof.
  intros Hs. assert (Hk : (Z.to_nat s < 60)%nat) by lia.
  rewrite <- (Z2Nat.id s) by lia. clear Hs. revert Hk. generalize (Z.to_nat s). clear s.
  intros k. do 60 (destruct k as [|k]; [intros; vm_compute; done|]). intros; lia.
Qed.

(** C22: for every time [t >= 0], [formatTime t] reads back as [m:ss]
    with [ss] two digits below 60, and [60 * m + ss] is [floor t]: the
    text shows the whole seconds of the time, none lost or added. *)
Theorem formatTime_roundtrip t : (0 <= t)%Q -> parse_time (formatTime t) = Some (Qfloor t).
Proof.
  intros Ht. destruct (minutes_seconds t Ht) as (Hm & Hs & Heq).
  unfold formatTime, parse_time. fold (minutes_of t) (seconds_of t).
  rewrite split_colon_app by apply number_no_colon.
  destruct (seconds_parse _ Hs) as [Hlen Hsec]. rewrite Hlen. simpl.
  pose proof (number_parse (minutes_of t)) as Hmin.
  destruct (NilZero.int_of_string _); [|done].
  destruct (NilZero.uint_of_string _); [|done]. simplify_eq/=.
  rewrite (proj2 (Z.ltb_lt _ _)) by lia. congruence.
Qed.

(** [formatTime(125.5)] is ["2:05"], which reads back as 125 seconds. *)
Lemma formatTime_roundtrip_witness :
  (0 <= 251 # 2)%Q /\ formatTime (251 # 2) = "2:05" /\ parse_time (formatTime (251 # 2)) = Some 125.
Proof.
  split_and!; [unfold Qle; simpl; lia | vm_compute; reflexivity |].
  apply (formatTime_roundtrip (251 # 2)). unfold Qle; simpl; lia.
Defined.

End TimeFormat.
