(* ===== verification/Player.v ===== *)
(** * The player: the state and the handlers of [src/client/src/App.js]

    The component's React state ([playlist], [currentTrack], [isPlaying],
    [currentTime], [duration], [uploading]) is a record, together with
    the one [Audio] element it creates ([useState(new Audio())]) and the
    requests it is awaiting. Every handler runs up to its first [await] as
    one step: it may send a request, which joins [inflight]. The rest of
    the handler runs when that request settles, which is an event of its own
    and may come after any other event. The events are the user's clicks,
    the file input, the settling of a request, and what the element reports
    ([timeupdate], [loadedmetadata] and the end of the media), which reach
    the component through the listeners its second effect adds
    ([on_media_event]).

    The element follows the HTML media element: [play()] clears [paused],
    [pause()] sets it, setting [src] rewinds the element and pauses it if it
    had media, and at the end of the media [paused] becomes true. A React
    update is applied before the next event, as React applies the updates of
    discrete events. *)

From Stdlib Require Import QArith.
From S2P Require Import Prelude MetaStore BlobStore Http.

Module Player.

Import MetaStore BlobStore Http.

(** ** The audio element *)

(** Its media (the blob its object URL names), [paused], and [currentTime]. *)
Record media := mk_media {
  src : option bytes;
  paused : bool;
  media_time : Q
}.

(** [new Audio()] *)
Definition new_Audio : media := mk_media None true 0.

(** [audio.src = URL.createObjectURL(blob)] *)
Definition set_src (d : bytes) (a : media) : media :=
  mk_media (Some d) (match src a with Some _ => true | None => paused a end) 0.

(** [audio.play()] *)
Definition play (a : media) : media := mk_media (src a) false (media_time a).

(** [audio.pause()] *)
Definition pause (a : media) : media := mk_media (src a) true (media_time a).

(** [audio.currentTime = t] *)
Definition seek (t : Q) (a : media) : media := mk_media (src a) (paused a) t.

(** The media played to its end. *)
Definition media_ended (a : media) : media := mk_media (src a) true (media_time a).

(** ** The component's state *)

(** A request the component awaits. *)
Inductive pending :=
| FetchPlaylist                      (** [axios.get(`${API_URL}/api/playlist`)] *)
| FetchTrack (track : row)           (** [axios.get(`${API_URL}/api/track/${track.path}`)] *)
| PostUpload (file : string * bytes). (** [axios.post(`${API_URL}/api/upload`, formData)] *)

Record state := mk_state {
  playlist : list row;
  currentTrack : option row;
  isPlaying : bool;
  audio : media;
  currentTime : Q;
  duration : Q;
  uploading : bool;
  inflight : list pending
}.

(** How a request settles: the promise rejects (a network error, an error
    while reading the body, a status outside 2xx), or resolves with
    [response.data], parsed JSON or a [Blob]. *)
Inductive reply :=
| Rejected
| JsonData (b : body)
| BlobData (d : bytes).

Inductive event :=
| ClickTrack (i : nat)        (** [onClick] of the [i]-th [ListItem] *)
| ClickPrevious               (** the [SkipPrevious] button *)
| ClickToggle                 (** the play/pause button *)
| ClickNext                   (** the [SkipNext] button *)
| SliderChange (v : Q)        (** the slider moved to [v] *)
| FileChosen (f : option (string * bytes))  (** the file input's [files[0]] *)
| Settle (k : nat) (r : reply) (** the [k]-th request in flight settles *)
| TimeUpdate (t : Q)          (** [timeupdate]: the element is at [t] *)
| LoadedMetadata (d : Q)      (** [loadedmetadata]: the media lasts [d] *)
| Ended.                      (** the media played to its end *)

(** The [useState] initial values. *)
Definition initial : state := mk_state [] None false new_Audio 0 0 false [].

(** ** Updates *)

Definition send (p : pending) (s : state) : state :=
  mk_state (playlist s) (currentTrack s) (isPlaying s) (audio s)
    (currentTime s) (duration s) (uploading s) (inflight s ++ [p]).

Definition setPlaylist (rs : list row) (s : state) : state :=
  mk_state rs (currentTrack s) (isPlaying s) (audio s)
    (currentTime s) (duration s) (uploading s) (inflight s).

Definition setUploading (b : bool) (s : state) : state :=
  mk_state (playlist s) (currentTrack s) (isPlaying s) (audio s)
    (currentTime s) (duration s) b (inflight s).

Definition set_audio (a : media) (s : state) : state :=
  mk_state (playlist s) (currentTrack s) (isPlaying s) a
    (currentTime s) (duration s) (uploading s) (inflight s).

(** ** The handlers *)

(** [fetchPlaylist()] up to its [await]. *)
Definition fetchPlaylist (s : state) : state := send FetchPlaylist s.

(** After the [await]: [setPlaylist(response.data)]; a rejection is only
    logged. Both hosts answer a successful listing with an array. *)
Definition fetchPlaylist_settled (r : reply) (s : state) : state :=
  match r with
  | JsonData (BTracks rs) => setPlaylist rs s
  | _ => s
  end.

(** [playTrack(track)] up to its [await]. [track] is [undefined] when the
    playlist has no such entry: [track.path] throws inside the [try] and
    the [catch] only logs. *)
Definition playTrack (track : option row) (s : state) : state :=
  match track with
  | Some t => send (FetchTrack t) s
  | None => s
  end.

(** After the [await]: [audio.src = url; audio.play();
    setCurrentTrack(track); setIsPlaying(true)]. *)
Definition playTrack_settled (t : row) (r : reply) (s : state) : state :=
  match r with
  | BlobData d =>
      mk_state (playlist s) (Some t) true (play (set_src d (audio s)))
        (currentTime s) (duration s) (uploading s) (inflight s)
  | _ => s
  end.

Definition togglePlayPause (s : state) : state :=
  mk_state (playlist s) (currentTrack s) (negb (isPlaying s))
    (if isPlaying s then pause (audio s) else play (audio s))
    (currentTime s) (duration s) (uploading s) (inflight s).

Definition handleSliderChange (v : Q) (s : state) : state :=
  mk_state (playlist s) (currentTrack s) (isPlaying s) (seek v (audio s))
    v (duration s) (uploading s) (inflight s).

(** [handleFileUpload] up to its [await]: no file, no upload. *)
Definition handleFileUpload (f : option (string * bytes)) (s : state) : state :=
  match f with
  | None => s
  | Some file => send (PostUpload file) (setUploading true s)
  end.

(** After the [await]: [fetchPlaylist()] (not awaited) on success, then
    [finally setUploading(false)]. *)
Definition handleFileUpload_settled (r : reply) (s : state) : state :=
  match r with
  | Rejected => setUploading false s
  | _ => setUploading false (fetchPlaylist s)
  end.

(** [handleTimeUpdate]: [setCurrentTime(audio.currentTime)]. *)
Definition handleTimeUpdate (s : state) : state :=
  mk_state (playlist s) (currentTrack s) (isPlaying s) (audio s)
    (media_time (audio s)) (duration s) (uploading s) (inflight s).

(** [handleLoadedMetadata]: [setDuration(audio.duration)]. *)
Definition handleLoadedMetadata (d : Q) (s : state) : state :=
  mk_state (playlist s) (currentTrack s) (isPlaying s) (audio s)
    (currentTime s) d (uploading s) (inflight s).

(** The continuation of the request that settles. *)
Definition settled (p : pending) (r : reply) (s : state) : state :=
  match p with
  | FetchPlaylist => fetchPlaylist_settled r s
  | FetchTrack t => playTrack_settled t r s
  | PostUpload _ => handleFileUpload_settled r s
  end.

Definition settle (k : nat) (r : reply) (s : state) : state :=
  match inflight s !! k with
  | Some p =>
      settled p r (mk_state (playlist s) (currentTrack s) (isPlaying s) (audio s)
                     (currentTime s) (duration s) (uploading s) (delete k (inflight s)))
  | None => s
  end.

(** The second effect, [useEffect(() => {...}, [audio])]: the element's
    [timeupdate] goes to [handleTimeUpdate] and its [loadedmetadata] to
    [handleLoadedMetadata]. Its cleanup removes them only when [audio]
    changes, which it never does ([useState(new Audio())] has no setter in
    use). No listener is added for [ended]: the end of the media changes
    the element only. *)
Definition on_media_event (e : event) (s : state) : state :=
  match e with
  | TimeUpdate _ => handleTimeUpdate s
  | LoadedMetadata d => handleLoadedMetadata d s
  | _ => s
  end.

(** The component's response to one event. The skip buttons call
    [playTrack(playlist[0])] and [playTrack(playlist[playlist.length - 1])]. *)
Definition step (s : state) (e : event) : state :=
  match e with
  | ClickTrack i => playTrack (playlist s !! i) s
  | ClickPrevious => playTrack (playlist s !! 0%nat) s
  | ClickToggle => togglePlayPause s
  | ClickNext => playTrack (playlist s !! (length (playlist s) - 1)%nat) s
  | SliderChange v => handleSliderChange v s
  | FileChosen f => handleFileUpload f s
  | Settle k r => settle k r s
  | TimeUpdate t => on_media_event e (set_audio (seek t (audio s)) s)
  | LoadedMetadata d => on_media_event e s
  | Ended => on_media_event e (set_audio (media_ended (audio s)) s)
  end.

(** When an event can happen: a list item exists for each track; the upload
    button is [disabled] while [uploading]; the slider ranges over
    [0 .. duration]; only a request in flight settles; the element reports
    only about media it has, and ends only while playing. *)
Definition enabled (s : state) (e : event) : bool :=
  match e with
  | ClickTrack i => Nat.ltb i (length (playlist s))
  | SliderChange v => Qle_bool 0 v && Qle_bool v (duration s)
  | FileChosen _ => negb (uploading s)
  | Settle k _ => Nat.ltb k (length (inflight s))
  | TimeUpdate _ | LoadedMetadata _ => bool_decide (is_Some (src (audio s)))
  | Ended => bool_decide (is_Some (src (audio s))) && negb (paused (audio s))
  | ClickPrevious | ClickToggle | ClickNext => true
  end.

(** The first render's effect: [useEffect(() => { fetchPlaylist(); }, [])]. *)
Definition mounted : state := fetchPlaylist initial.

(** The states reached from [mounted] by enabled events that [allowed]
    lets through. *)
Inductive reach (allowed : event -> bool) : state -> Prop :=
| reach_mounted : reach allowed mounted
| reach_step s e :
    reach allowed s -> enabled s e = true -> allowed e = true ->
    reach allowed (step s e).

Definition reachable : state -> Prop := reach (fun _ => true).

(** A run of events from a state, and whether each was enabled. *)
Fixpoint run_events (s : state) (es : list event) : state :=
  match es with
  | [] => s
  | e :: es' => run_events (step s e) es'
  end.

Fixpoint valid_run (allowed : event -> bool) (s : state) (es : list event) : bool :=
  match es with
  | [] => true
  | e :: es' => enabled s e && allowed e && valid_run allowed (step s e) es'
  end.

Definition not_ended (e : event) : bool :=
  match e with Ended => false | _ => true end.

(** The play/pause button shows the element's state: [Pause] exactly while
    the element plays. *)
Definition synced (s : state) : Prop := isPlaying s = negb (paused (audio s)).

Definition is_upload (p : pending) : bool :=
  match p with PostUpload _ => true | _ => false end.

Definition uploads_in_flight (s : state) : nat := length (List.filter is_upload (inflight s)).

Definition set_inflight (l : list pending) (s : state) : state :=
  mk_state (playlist s) (currentTrack s) (isPlaying s) (audio s)
    (currentTime s) (duration s) (uploading s) l.

(** [selected={currentTrack?.id === track.id}] of the [i]-th list item. *)
Definition selected (s : state) (i : nat) : bool :=
  match currentTrack s, playlist s !! i with
  | Some c, Some t => Nat.eqb (row_id c) (row_id t)
  | _, _ => false
  end.

(** The title shows a track exactly when the element has its media. *)
Definition track_loaded (s : state) : Prop :=
  currentTrack s = None <-> src (audio s) = None.

(** ** Lemmas *)

Ltac unfold_handlers :=
  unfold step, on_media_event, settle, settled, fetchPlaylist_settled, playTrack_settled,
    handleFileUpload_settled, fetchPlaylist, playTrack, togglePlayPause,
    handleSliderChange, handleFileUpload, handleTimeUpdate,
    handleLoadedMetadata, send, setPlaylist, setUploading, set_audio,
    set_inflight in *.

Lemma valid_run_reach allowed s es :
  reach allowed s -> valid_run allowed s es = true -> reach allowed (run_events s es).
Proof.
  revert s. induction es as [|e es IH]; intros s Hs Hv; [done|].
  simpl in Hv. apply andb_prop in Hv as [[He Ha]%andb_prop Hv].
  apply IH; [by constructor|done].
Qed.

(** Settling the request at position [length l1]. *)
Lemma settle_at s l1 p l2 r :
  inflight s = l1 ++ p :: l2 ->
  settle (length l1) r s = settled p r (set_inflight (l1 ++ l2) s).
Proof.
  intros Hl. unfold settle. rewrite Hl, lookup_app_r, Nat.sub_diag by lia.
  simpl. by rewrite delete_middle.
Qed.

Lemma filter_delete {A} (P : A -> bool) (l : list A) k x :
  l !! k = Some x ->
  length (List.filter P l) = length (List.filter P (delete k l)) + (if P x then 1 else 0).
Proof.
  intros Hk. rewrite <- (take_drop_middle l k x Hk) at 1.
  rewrite delete_take_drop, !List.filter_app, !length_app. simpl.
  destruct (P x); simpl; lia.
Qed.

Lemma step_synced s e : not_ended e = true -> synced s -> synced (step s e).
Proof.
  unfold synced. intros He Hs.
  destruct e; try discriminate; unfold_handlers; simpl; try done;
    repeat (case_match; simpl; try done).
Qed.

Lemma step_uploads s e :
  enabled s e = true ->
  uploads_in_flight s = (if uploading s then 1 else 0)%nat ->
  uploads_in_flight (step s e) = (if uploading (step s e) then 1 else 0)%nat.
Proof.
  unfold uploads_in_flight. intros He Hs.
  destruct e; unfold_handlers; simpl in *; try done.
  - destruct (playlist s !! i); simpl; [rewrite List.filter_app, length_app|]; simpl; lia.
  - destruct (playlist s !! 0%nat); simpl; [rewrite List.filter_app, length_app|]; simpl; lia.
  - destruct (playlist s !! _); simpl; [rewrite List.filter_app, length_app|]; simpl; lia.
  - destruct f; simpl; [|done]. rewrite List.filter_app, length_app. simpl.
    destruct (uploading s); simpl in *; [discriminate|lia].
  - destruct (inflight s !! k) as [p|] eqn:Hk; [|done].
    pose proof (filter_delete is_upload _ _ _ Hk) as Hd.
    destruct p; simpl in *; destruct r as [|[]|]; simpl;
      rewrite ?List.filter_app, ?length_app; simpl; destruct (uploading s); simpl in *; lia.
Qed.

Lemma step_track_loaded s e : track_loaded s -> track_loaded (step s e).
Proof.
  unfold track_loaded. intros Hs.
  destruct e; unfold_handlers; simpl; try done; repeat (case_match; simpl); done.
Qed.

(** Only a settled listing changes the playlist. *)
Lemma step_playlist s e :
  playlist (step s e) = playlist s \/
  exists k rs, e = Settle k (JsonData (BTracks rs)) /\
    inflight s !! k = Some FetchPlaylist /\ playlist (step s e) = rs.
Proof.
  destruct e; unfold_handlers; simpl; repeat (case_match; simplify_eq/=); eauto 10.
Qed.

(** The title changes only to the track of a request in flight. *)
Lemma step_current s e t :
  currentTrack (step s e) = Some t -> currentTrack s = Some t \/ FetchTrack t ∈ inflight s.
Proof.
  destruct e; unfold_handlers; simpl; repeat (case_match; simplify_eq/=); try tauto.
  intros [= <-]. right. by eapply list_elem_of_lookup_2.
Qed.

(** A track request joins the requests in flight only for a track of the
    playlist. *)
Lemma step_inflight_tracks s e t :
  FetchTrack t ∈ inflight (step s e) -> FetchTrack t ∈ inflight s \/ t ∈ playlist s.
Proof.
  destruct e; unfold_handlers; simpl; repeat (case_match; simplify_eq/=); intros Hin;
    rewrite ?elem_of_app, ?list_elem_of_singleton in Hin;
    try lazymatch type of Hin with _ \/ _ => destruct Hin as [Hin|Hin] end; simplify_eq;
    eauto using list_elem_of_delete_inv, list_elem_of_lookup_2.
Qed.

Lemma selected_unique s i j :
  NoDup (row_id <$> playlist s) -> selected s i = true -> selected s j = true -> i = j.
Proof.
  unfold selected. intros Hnd Hi Hj.
  destruct (currentTrack s) as [c|]; [|done].
  destruct (playlist s !! i) as [a|] eqn:Ha; [|done].
  destruct (playlist s !! j) as [b|] eqn:Hb; [|done].
  apply Nat.eqb_eq in Hi, Hj.
  apply (NoDup_lookup _ _ _ (row_id c) Hnd); rewrite list_lookup_fmap;
    [rewrite Ha|rewrite Hb]; simpl; congruence.
Qed.

(** ** The play/pause button *)

(** C18: as long as no media plays to its end, the play/pause button is
    in step with the element: [isPlaying] is true exactly when the element
    is not paused, in every state reached from the first render. *)
Theorem play_button_synced_until_end s :
  reach not_ended s -> synced s.
Proof.
  induction 1 as [|s e Hr IH He Ha]; [done|]. by apply step_synced.
Qed.

(** C19: when a track plays to its end, the element pauses and
    [isPlaying] stays true, since the component has no [ended] handler:
    the button still shows [Pause], and the first click on it pauses the
    paused element and shows [PlayArrow], so nothing plays. *)
Theorem ended_track_keeps_pause_button s :
  isPlaying s = true -> enabled s Ended = true ->
  let s1 := step s Ended in
  let s2 := step s1 ClickToggle in
  isPlaying s1 = true /\ paused (audio s1) = true /\ ~ synced s1 /\
  isPlaying s2 = false /\ paused (audio s2) = true.
Proof.
  intros Hp He. unfold synced. unfold_handlers. simpl. rewrite Hp.
  split_and!; done.
Qed.

(** C30: in every reachable state the title shows a track exactly when
    the element has media; so before any track has played, a click on the
    play button switches it to [Pause] although the element has nothing to
    play (the handler does not check [currentTrack]). *)
Theorem play_without_track_shows_pause s :
  reachable s -> currentTrack s = None -> isPlaying s = false ->
  let s' := step s ClickToggle in
  isPlaying s' = true /\ currentTrack s' = None /\ src (audio s') = None.
Proof.
  intros Hr Hc Hp s'. assert (Hl : track_loaded s).
  { clear Hc Hp s'. induction Hr as [|s e _ IH _ _]; [done|]. by apply step_track_loaded. }
  unfold s'. unfold_handlers. simpl. rewrite Hp. split_and!; [done|done|]. by apply Hl.
Qed.

(** ** The requests in flight *)

(** C23: the upload button is disabled while [uploading]: in every
    reachable state at most one upload is in flight, and [uploading] is
    true exactly while it is. *)
Theorem one_upload_in_flight s :
  reachable s -> uploads_in_flight s = (if uploading s then 1 else 0)%nat.
Proof.
  induction 1 as [|s e Hr IH He _]; [done|]. by apply step_uploads.
Qed.

(** C20: the track responses race: when track [i] and then track [j] are
    clicked and the response for [j] arrives first, the component ends up
    playing track [i], the one clicked first, with its bytes. *)
Theorem stale_track_response_wins s i j a b da db :
  playlist s !! i = Some a -> playlist s !! j = Some b ->
  let n := length (inflight s) in
  let s2 := run_events s [ClickTrack i; ClickTrack j;
                          Settle (S n) (BlobData db); Settle n (BlobData da)] in
  currentTrack s2 = Some a /\ src (audio s2) = Some da /\ isPlaying s2 = true.
Proof.
  intros Ha Hb n. simpl. unfold playTrack. rewrite Ha. simpl. rewrite Hb.
  replace (S n) with (length (inflight s ++ [FetchTrack a]))
    by (rewrite length_app; simpl; lia).
  rewrite (settle_at _ _ (FetchTrack b) [])
    by (unfold send; simpl; by rewrite <- app_assoc).
  simpl. rewrite (settle_at _ (inflight s) (FetchTrack a) [])
    by (simpl; by rewrite app_nil_r).
  done.
Qed.

(** C21: the skip buttons do not skip: [SkipPrevious] plays the first
    track and [SkipNext] the last one, whatever track is playing. *)
Theorem skip_buttons_play_first_and_last s d :
  playlist s <> [] ->
  let n := length (inflight s) in
  currentTrack (settle n (BlobData d) (step s ClickPrevious)) = head (playlist s) /\
  currentTrack (settle n (BlobData d) (step s ClickNext)) = last (playlist s).
Proof.
  intros Hne n. simpl. unfold playTrack.
  rewrite <- head_lookup, Nat.sub_1_r, <- last_lookup.
  destruct (head (playlist s)) eqn:Hh; [|by destruct (playlist s)].
  destruct (last (playlist s)) eqn:Hl; [|by apply last_None in Hl].
  split; rewrite (settle_at _ (inflight s) _ []) by done; done.
Qed.

(** ** Runs from the first render *)

Definition demo_row (i : nat) (name : string) : row :=
  mk_row i (Some name) (Some ("/music/" ++ name)%string) (Some (Z.of_nat i)).

Definition demo_playlist : list row :=
  [demo_row 1 "a.mp3"; demo_row 2 "b.mp3"; demo_row 3 "c.mp3"].

(** The playlist arrives, the first track is clicked and its bytes arrive. *)
Definition demo_run : list event :=
  [Settle 0 (JsonData (BTracks demo_playlist)); ClickTrack 0;
   Settle 0 (BlobData [Byte.x01])].

Definition demo_state : state := run_events mounted demo_run.

(** Only the playlist has arrived. *)
Definition loaded_state : state :=
  run_events mounted [Settle 0 (JsonData (BTracks demo_playlist))].

Definition demo_upload : event := FileChosen (Some ("d.mp3", [Byte.x02])).

(** A file is chosen while the first track plays. *)
Definition uploading_state : state := run_events demo_state [demo_upload].

Lemma demo_state_reach allowed :
  valid_run allowed mounted demo_run = true -> reach allowed demo_state.
Proof. intros Hv. apply valid_run_reach; [constructor|exact Hv]. Qed.

Lemma play_button_synced_until_end_witness :
  reach not_ended demo_state /\ synced demo_state.
Proof.
  assert (Hr : reach not_ended demo_state) by (apply demo_state_reach; reflexivity).
  split; [exact Hr|]. apply (play_button_synced_until_end demo_state). exact Hr.
Defined.

Lemma ended_track_keeps_pause_button_witness :
  isPlaying demo_state = true /\ enabled demo_state Ended = true /\
  isPlaying (step demo_state Ended) = true /\
  paused (audio (step (step demo_state Ended) ClickToggle)) = true.
Proof.
  assert (Hp : isPlaying demo_state = true) by reflexivity.
  assert (He : enabled demo_state Ended = true) by reflexivity.
  destruct (ended_track_keeps_pause_button demo_state Hp He) as (H1 & _ & _ & _ & H2).
  split_and!; assumption.
Defined.

Lemma one_upload_in_flight_witness :
  reachable uploading_state /\ uploads_in_flight uploading_state = 1%nat /\
  uploading uploading_state = true.
Proof.
  assert (Hr : reachable uploading_state).
  { apply (valid_run_reach _ mounted (demo_run ++ [demo_upload])); [constructor|reflexivity]. }
  split_and!; [exact Hr| |reflexivity].
  rewrite (one_upload_in_flight uploading_state Hr). reflexivity.
Defined.

Lemma play_without_track_shows_pause_witness :
  reachable loaded_state /\ isPlaying (step loaded_state ClickToggle) = true /\
  src (audio (step loaded_state ClickToggle)) = None.
Proof.
  assert (Hr : reachable loaded_state).
  { apply (valid_run_reach _ mounted [Settle 0 (JsonData (BTracks demo_playlist))]);
      [constructor|reflexivity]. }
  destruct (play_without_track_shows_pause loaded_state Hr eq_refl eq_refl) as (H1 & _ & H2).
  split_and!; [exact Hr|exact H1|exact H2].
Defined.

Lemma stale_track_response_wins_witness :
  playlist loaded_state !! 0%nat = Some (demo_row 1 "a.mp3") /\
  playlist loaded_state !! 2%nat = Some (demo_row 3 "c.mp3") /\
  currentTrack (run_events loaded_state
                  [ClickTrack 0; ClickTrack 2;
                   Settle 1 (BlobData [Byte.x03]); Settle 0 (BlobData [Byte.x01])])
    = Some (demo_row 1 "a.mp3").
Proof.
  assert (Ha : playlist loaded_state !! 0%nat = Some (demo_row 1 "a.mp3")) by reflexivity.
  assert (Hc : playlist loaded_state !! 2%nat = Some (demo_row 3 "c.mp3")) by reflexivity.
  split_and!; [exact Ha|exact Hc|].
  apply (stale_track_response_wins loaded_state 0 2 _ _ [Byte.x01] [Byte.x03] Ha Hc).
Defined.

Lemma skip_buttons_play_first_and_last_witness :
  playlist demo_state <> [] /\ currentTrack demo_state = Some (demo_row 1 "a.mp3") /\
  currentTrack (settle 0 (BlobData [Byte.x03]) (step demo_state ClickNext))
    = Some (demo_row 3 "c.mp3").
Proof.
  assert (Hne : playlist demo_state <> []) by (vm_compute; congruence).
  split_and!; [exact Hne|reflexivity|].
  apply (skip_buttons_play_first_and_last demo_state [Byte.x03] Hne).
Defined.

End Player.
