(* ===== verification/Page.v ===== *)
(** * The page: what [App] renders (src/client/src/App.js, lines 123-190)

    The JSX of [App] is a function of the component's state: the upload
    button with its icon, label and [disabled], the heading with the current
    track's title, the play/pause icon, the two time labels around the
    slider, and one [ListItem] per playlist entry with its [key],
    [selected], [primary] and [secondary] text. React renders a [null] or
    [undefined] child as nothing and a template literal prints [null] as
    the text [null]; numbers are printed by [Number.prototype.toString]
    ([TimeFormat.number_to_string]). The handlers the JSX binds are the
    events of [Player.step]. *)

From Stdlib Require Import QArith.
From S2P Require Import Prelude MetaStore Player TimeFormat.

Module Page.

Import MetaStore Player TimeFormat.
Local Open Scope string_scope.

(** The icons of the upload and play/pause buttons. *)
Inductive upload_icon := Spinner | CloudUpload.
Inductive toggle_icon := PauseIcon | PlayArrowIcon.

(** A [ListItem]: [key={track.id}], [selected], and its [ListItemText]. *)
Record list_item := mk_item {
  item_key : nat;
  item_selected : bool;
  item_primary : string;
  item_secondary : string
}.

Record page := mk_page {
  upload_start_icon : upload_icon;
  upload_disabled : bool;
  upload_label : string;
  heading : string;
  toggle : toggle_icon;
  time_label : string;
  slider_value : Q;
  slider_max : Q;
  duration_label : string;
  items : list list_item
}.

(** A string child of a JSX element: [null] renders nothing. *)
Definition text_of (o : option string) : string :=
  match o with Some s => s | None => "" end.

(** [${x}] of a nullable number in a template literal. *)
Definition template_number (o : option Z) : string :=
  match o with Some z => number_to_string z | None => "null" end.

Definition position_prefix : string := "Позиция: ".

(** [`Позиция: ${track.position}`] *)
Definition position_label (t : row) : string :=
  position_prefix ++ template_number (row_position t).

(** [selected={currentTrack?.id === track.id}] *)
Definition is_current (s : state) (t : row) : bool :=
  match currentTrack s with Some c => Nat.eqb (row_id c) (row_id t) | None => false end.

(** One [ListItem] of [playlist.map((track) => ...)]. *)
Definition render_item (s : state) (t : row) : list_item :=
  mk_item (row_id t) (is_current s t) (text_of (row_title t)) (position_label t).

(** The JSX [App] returns. *)
Definition view (s : state) : page :=
  mk_page
    (if uploading s then Spinner else CloudUpload)
    (uploading s)
    (if uploading s then "Загрузка..." else "Загрузить трек")
    (match currentTrack s with
     | Some t => text_of (row_title t)
     | None => "Нет выбранного трека"
     end)
    (if isPlaying s then PauseIcon else PlayArrowIcon)
    (formatTime (currentTime s))
    (currentTime s) (duration s)
    (formatTime (duration s))
    (map (render_item s) (playlist s)).

(** ** The page and the state *)

(** The keys of the list are the playlist's ids. *)
Lemma view_keys s : item_key <$> items (view s) = row_id <$> playlist s.
Proof. cbn [view items]. rewrite <- list_fmap_compose. done. Qed.

End Page.
