(* ===== verification/Url.v ===== *)
(** * The pathname the browser makes of the player's request URLs

    [playTrack] requests [`${API_URL}/api/track/${track.path}`]
    (src/client/src/App.js, line 68) and the host sees the [pathname] the
    WHATWG URL parser makes of that string. After [API_URL]'s origin the
    parser is in its path start state ([Origin] models the states before
    it and proves this); this file models it from there:

    - leading and trailing C0 controls and spaces are trimmed from the
      input and every tab and newline is removed ([trim_end],
      [remove_tab_newline]);
    - the path state reads segments ended by ['/'] or ['\']; ['?'] and
      ['#'] end the path; the bytes of the path percent-encode set are
      percent-encoded ([percent]);
    - a single-dot segment (["."], ["%2e"]) is dropped and a double-dot
      segment ([".."] and its encoded forms) removes the segment before it;
      either one leaves an empty last segment when it ends the path
      ([end_segment]);
    - the pathname is ["/"] followed by the segments joined by ["/"].

    [encode_path] is what the path state makes of a string without
    separators. The Express host percent-decodes the one segment of its
    [:path] parameter; [express_track_param_roundtrip] shows that this
    inverts the browser's encoding for the names whose characters the URL
    carries, which excludes ['%']. *)

From S2P Require Import Prelude MetaStore BlobStore Io Http Server Worker Contract.

Module Url.

Import MetaStore BlobStore Io Http Contract.
Local Open Scope string_scope.

(** ** Characters *)

(** A C0 control or a space. *)
Definition blank (c : Ascii.ascii) : bool := Nat.leb (Ascii.nat_of_ascii c) 32.

Definition tab_newline (c : Ascii.ascii) : bool :=
  let n := Ascii.nat_of_ascii c in Nat.eqb n 9 || Nat.eqb n 10 || Nat.eqb n 13.

(** ['?'] and ['#'] end the path. *)
Definition end_char (c : Ascii.ascii) : bool :=
  let n := Ascii.nat_of_ascii c in Nat.eqb n 63 || Nat.eqb n 35.

(** ['/'] and, in a special URL, ['\'] end a segment. *)
Definition separator (c : Ascii.ascii) : bool :=
  let n := Ascii.nat_of_ascii c in Nat.eqb n 47 || Nat.eqb n 92.

(** The path percent-encode set: C0 controls, space, the double quote, [<], [>], [`],
    [{], [}] and every byte above [0x7E]. *)
Definition path_encoded (c : Ascii.ascii) : bool :=
  let n := Ascii.nat_of_ascii c in
  Nat.leb n 32 || Nat.leb 127 n || existsb (Nat.eqb n) [34; 60; 62; 96; 123; 125]%nat.

Definition hex_upper (d : nat) : Ascii.ascii :=
  Ascii.ascii_of_nat (if Nat.ltb d 10 then 48 + d else 55 + d).

Definition percent (c : Ascii.ascii) : string :=
  let n := Ascii.nat_of_ascii c in
  String "%" (String (hex_upper (n / 16)) (String (hex_upper (n mod 16)) EmptyString)).

(** A character as the path state appends it to its buffer. *)
Definition encode_char (c : Ascii.ascii) : string :=
  if path_encoded c then percent c else String c EmptyString.

(** The path state on a string: tabs and newlines are skipped, ['?'] and
    ['#'] end it, ['\'] is a ['/'], and the rest is encoded. *)
Fixpoint encode_path (s : string) : string :=
  match s with
  | EmptyString => EmptyString
  | String c s' =>
      if end_char c then EmptyString
      else if tab_newline c then encode_path s'
      else if Nat.eqb (Ascii.nat_of_ascii c) 92 then String "/" (encode_path s')
      else if path_encoded c then percent c ++ encode_path s'
      else String c (encode_path s')
  end.

(** Trailing C0 controls and spaces are trimmed from the URL string. *)
Fixpoint trim_end (s : string) : string :=
  match s with
  | EmptyString => EmptyString
  | String c s' =>
      let t := trim_end s' in
      if blank c && String.eqb t "" then EmptyString else String c t
  end.

Fixpoint remove_tab_newline (s : string) : string :=
  match s with
  | EmptyString => EmptyString
  | String c s' =>
      if tab_newline c then remove_tab_newline s' else String c (remove_tab_newline s')
  end.

(** ** Segments *)

Definition single_dot (seg : string) : bool := existsb (String.eqb (lower seg)) [".";"%2e"].

Definition double_dot (seg : string) : bool :=
  existsb (String.eqb (lower seg)) ["..";".%2e";"%2e.";"%2e%2e"].

Definition dot_segment (seg : string) : bool := single_dot seg || double_dot seg.

(** The end of the segment in [buf]; [last] when the path ends with it. *)
Definition end_segment (buf : string) (path : list string) (last : bool) : list string :=
  if double_dot buf then removelast path ++ (if last then [""] else [])
  else if single_dot buf then path ++ (if last then [""] else [])
  else path ++ [buf].

(** The path state, with the segment read so far in [buf]. *)
Fixpoint path_state (s buf : string) (path : list string) : list string :=
  match s with
  | EmptyString => end_segment buf path true
  | String c s' =>
      if end_char c then end_segment buf path true
      else if separator c then path_state s' "" (end_segment buf path false)
      else path_state s' (buf ++ encode_char c) path
  end.

(** The path start state: a first ['/'] or ['\'] is consumed. *)
Definition path_start (s : string) : list string :=
  match s with
  | String c s' => if separator c then path_state s' "" [] else path_state s "" []
  | EmptyString => path_state EmptyString "" []
  end.

Fixpoint serialize_path (path : list string) : string :=
  match path with
  | [] => ""
  | seg :: rest => "/" ++ seg ++ serialize_path rest
  end.

(** The [pathname] of the URL [API_URL ++ path]. *)
Definition url_pathname (path : string) : string :=
  serialize_path (path_start (remove_tab_newline (trim_end path))).

(** ** File names *)

Fixpoint no_slash (s : string) : bool :=
  match s with
  | EmptyString => true
  | String c s' =>
      negb (separator c) && no_slash s'
  end.

(** A file name: no ['/'] or ['\'], and not a dot segment once encoded. *)
Definition file_name (name : string) : bool :=
  no_slash name && negb (dot_segment (encode_path (trim_end name))).

(** ** Lemmas *)

Lemma tab_not_end c : tab_newline c = true -> end_char c = false.
Proof.
  unfold tab_newline, end_char. intros H.
  repeat (apply orb_true_iff in H as [H|H]); apply Nat.eqb_eq in H; by rewrite H.
Qed.

Lemma trim_end_app p s :
  trim_end (p ++ s) = if String.eqb (trim_end s) "" then trim_end p else p ++ trim_end s.
Proof.
  induction p as [|c p IH].
  - change (trim_end s = if String.eqb (trim_end s) "" then EmptyString else trim_end s).
    by destruct (String.eqb_spec (trim_end s) "") as [->|].
  - change (trim_end (String c (p ++ s)) = if String.eqb (trim_end s) "" then trim_end (String c p)
            else String c (p ++ trim_end s)).
    cbn [trim_end]. rewrite IH.
    destruct (String.eqb_spec (trim_end s) "") as [He|He]; [done|].
    assert (Hne : String.eqb (p ++ trim_end s) "" = false) by (destruct p, (trim_end s); done).
    by rewrite Hne, andb_false_r.
Qed.

Lemma remove_tab_newline_app a b :
  remove_tab_newline (a ++ b) = remove_tab_newline a ++ remove_tab_newline b.
Proof.
  induction a as [|c a IH]; [done|].
  change (remove_tab_newline (String c (a ++ b)) = remove_tab_newline (String c a) ++ remove_tab_newline b).
  cbn [remove_tab_newline]. rewrite IH. by destruct (tab_newline c).
Qed.

Lemma no_slash_trim_end s : no_slash s = true -> no_slash (trim_end s) = true.
Proof.
  induction s as [|c s IH]; [done|]. cbn [no_slash trim_end].
  intros [Hc Hs]%andb_prop. destruct (blank c && String.eqb (trim_end s) ""); [done|].
  cbn [no_slash]. by rewrite Hc, IH.
Qed.

(** A string without separators is read as the last segment. *)
Lemma path_state_segment x buf P :
  no_slash x = true ->
  path_state (remove_tab_newline x) buf P = end_segment (buf ++ encode_path x) P true.
Proof.
  revert buf. induction x as [|c x IH]; intros buf Hs.
  - cbn. by rewrite string_app_nil_r.
  - cbn [no_slash] in Hs. apply andb_prop in Hs as [Hc Hs]. apply negb_true_iff in Hc.
    cbn [remove_tab_newline encode_path].
    destruct (tab_newline c) eqn:Et.
    + by rewrite (tab_not_end c Et), IH.
    + cbn [path_state]. destruct (end_char c); [by rewrite string_app_nil_r|].
      rewrite Hc, IH by done.
      unfold separator in Hc. apply orb_false_iff in Hc as [_ ->].
      unfold encode_char. rewrite <- string_app_assoc. by destruct (path_encoded c).
Qed.

Lemma serialize_snoc P e : serialize_path (P ++ [e]) = serialize_path P ++ "/" ++ e.
Proof.
  induction P as [|seg P IH]; cbn [serialize_path app].
  - by rewrite string_app_nil_r.
  - by rewrite IH, !string_app_assoc.
Qed.

(** The pathname of a prefix the parser reads as the segments [P],
    followed by a string without separators: its last segment. *)
Lemma url_pathname_last pre P x :
  trim_end pre = pre -> remove_tab_newline pre = pre ->
  (forall y, path_start (pre ++ y) = path_state y "" P) ->
  no_slash x = true ->
  url_pathname (pre ++ x) = serialize_path (end_segment (encode_path (trim_end x)) P true).
Proof.
  intros Ht Hr Hp Hx. unfold url_pathname.
  assert (Htr : trim_end (pre ++ x) = pre ++ trim_end x).
  { rewrite trim_end_app. destruct (String.eqb_spec (trim_end x) "") as [->|]; [|done].
    by rewrite Ht, string_app_nil_r. }
  rewrite Htr, remove_tab_newline_app, Hr, Hp, path_state_segment by (by apply no_slash_trim_end).
  by rewrite string_app_nil_l.
Qed.

(** The same, when the last segment is no dot segment. *)
Lemma url_pathname_app pre P x :
  trim_end pre = pre -> remove_tab_newline pre = pre ->
  (forall y, path_start (pre ++ y) = path_state y "" P) ->
  no_slash x = true -> dot_segment (encode_path (trim_end x)) = false ->
  url_pathname (pre ++ x) = serialize_path P ++ "/" ++ encode_path (trim_end x).
Proof.
  intros Ht Hr Hp Hx Hd. rewrite (url_pathname_last pre P) by done.
  unfold end_segment, dot_segment in *. apply orb_false_iff in Hd as [Hs Hdd].
  rewrite Hdd, Hs. apply serialize_snoc.
Qed.

(** Whatever a name without separators is, dot segments included, the
    URL [playTrack] builds for [/music/<name>] has a pathname that starts
    with [/api/track//]. *)
Lemma url_track_double_slash name :
  no_slash name = true ->
  exists q, url_pathname ("/api/track/" ++ music_path name) = "/api/track//" ++ q.
Proof.
  intros Hs. change ("/api/track/" ++ music_path name) with ("/api/track//music/" ++ name).
  rewrite (url_pathname_last _ ["api"; "track"; ""; "music"]) by done.
  unfold end_segment.
  destruct (double_dot _); [|destruct (single_dot _)].
  - by exists "".
  - by exists "music/".
  - exists ("music/" ++ encode_path (trim_end name)). by rewrite serialize_snoc.
Qed.

(** The URL [playTrack] builds for a track uploaded under [name]. *)
Lemma url_track_music name :
  file_name name = true ->
  url_pathname ("/api/track/" ++ music_path name) =
  "/api/track/" ++ music_path (encode_path (trim_end name)).
Proof.
  unfold file_name. intros [Hs Hd%negb_true_iff]%andb_prop.
  change ("/api/track/" ++ music_path name) with ("/api/track//music/" ++ name).
  rewrite (url_pathname_app _ ["api"; "track"; ""; "music"]); try done.
Qed.

(** A file named [%2e%2e] is a double-dot segment once in the URL: the
    request for its track is [/api/track//], and the edge-function host
    streams ["/"]. *)
Example dot_segment_names :
  url_pathname ("/api/track/" ++ music_path "%2e%2e") = "/api/track//" /\
  run (Worker.fetch (mk_request "GET" (url_pathname ("/api/track/" ++ music_path "%2e%2e")) NoBody))
    empty_world [] =
  (inr (mk_response 200 (Worker.cors_headers ++ [("Content-Type", "audio/mpeg")])
          (BStream (createReadStream "/"))), empty_world, []).
Proof. split; vm_compute; reflexivity. Qed.

(** ** The [:path] parameter read back

    Express decodes the [:path] segment with [decodeURIComponent]. A file
    name comes back from the URL the browser makes of it unless it has a
    character the URL drops or ends the path at, a ['/'] or ['\'] that
    separates segments, a trailing blank that is trimmed, a dot segment,
    or a ['%'], which the browser leaves as it is and Express decodes. *)

Definition codec_char (c : Ascii.ascii) : bool :=
  negb (existsb (Nat.eqb (Ascii.nat_of_ascii c)) [9; 10; 13; 35; 37; 47; 63; 92]%nat).

Definition codec_safe (s : string) : bool := forallb codec_char (String.list_ascii_of_string s).

Lemma codec_char_classes c :
  codec_char c = true ->
  end_char c = false /\ tab_newline c = false /\ separator c = false /\
  Ascii.eqb c "%"%char = false /\ Ascii.eqb c "/"%char = false.
Proof.
  unfold codec_char, end_char, tab_newline, separator. simpl. intros Hc.
  apply negb_true_iff in Hc.
  repeat match goal with H : (_ || _)%bool = false |- _ => apply orb_false_iff in H as [? H] end.
  repeat match goal with H : Nat.eqb _ _ = false |- _ => rewrite H end.
  split_and!; try done.
  - destruct (Ascii.eqb_spec c "%"%char) as [->|]; [discriminate|done].
  - destruct (Ascii.eqb_spec c "/"%char) as [->|]; [discriminate|done].
Qed.

Lemma encode_path_cons c s :
  end_char c = false -> tab_newline c = false -> separator c = false ->
  encode_path (String c s) = encode_char c ++ encode_path s.
Proof.
  intros He Ht Hs. cbn [encode_path]. rewrite He, Ht.
  unfold separator in Hs. apply orb_false_iff in Hs as [_ ->].
  unfold encode_char. by destruct (path_encoded c).
Qed.

Lemma codec_no_slash s : codec_safe s = true -> no_slash s = true.
Proof.
  induction s as [|c s IH]; [done|]. unfold codec_safe. cbn [String.list_ascii_of_string forallb no_slash].
  intros [Hc Hs]%andb_prop. destruct (codec_char_classes c Hc) as (_ & _ & -> & _).
  by apply IH.
Qed.

Lemma hex_upper_digit d : (d < 16)%nat -> Server.hex_digit (hex_upper d) = Some d.
Proof. intros Hd. do 16 (destruct d as [|d]; [reflexivity|]). lia. Qed.

Lemma hex_upper_not_slash d : (d < 16)%nat -> Ascii.eqb (hex_upper d) "/"%char = false.
Proof. intros Hd. do 16 (destruct d as [|d]; [reflexivity|]). lia. Qed.

Lemma decode_escape x y a b s :
  Server.hex_digit x = Some a -> Server.hex_digit y = Some b ->
  Server.decode_uri (String "%" (String x (String y EmptyString)) ++ s) =
    String (Ascii.ascii_of_nat (16 * a + b)) <$> Server.decode_uri s.
Proof. intros Hx Hy. simpl. by rewrite Hx, Hy. Qed.

Lemma percent_digits c :
  (Ascii.nat_of_ascii c / 16 < 16)%nat /\ (Ascii.nat_of_ascii c mod 16 < 16)%nat.
Proof.
  pose proof (Ascii.nat_ascii_bounded c).
  split; [apply Nat.Div0.div_lt_upper_bound|apply Nat.mod_upper_bound]; lia.
Qed.

Lemma decode_percent c s :
  Server.decode_uri (percent c ++ s) = String c <$> Server.decode_uri s.
Proof.
  destruct (percent_digits c) as [Ha Hb]. unfold percent.
  rewrite (decode_escape _ _ _ _ _ (hex_upper_digit _ Ha) (hex_upper_digit _ Hb)).
  by rewrite <- Nat.div_mod_eq, Ascii.ascii_nat_embedding.
Qed.

Lemma seg_escape x y s :
  Ascii.eqb x "/"%char = false -> Ascii.eqb y "/"%char = false ->
  Server.seg_chars (String "%" (String x (String y EmptyString)) ++ s) =
    (fun r => String "%" (String x (String y EmptyString)) ++ r) <$> Server.seg_chars s.
Proof.
  intros Hx Hy.
  change (String "%" (String x (String y EmptyString)) ++ s) with (String "%" (String x (String y s))).
  simpl. rewrite Hx, Hy. by destruct (Server.seg_chars s).
Qed.

Lemma seg_chars_percent c s :
  Server.seg_chars (percent c ++ s) = (fun x => percent c ++ x) <$> Server.seg_chars s.
Proof.
  destruct (percent_digits c) as [Ha Hb]. unfold percent.
  apply seg_escape; by apply hex_upper_not_slash.
Qed.

Lemma encode_decode s : codec_safe s = true -> Server.decode_uri (encode_path s) = Some s.
Proof.
  induction s as [|c s IH]; [done|]. unfold codec_safe. cbn [String.list_ascii_of_string forallb].
  intros [Hc Hs]%andb_prop. destruct (codec_char_classes c Hc) as (He & Ht & Hsep & Hp & _).
  rewrite encode_path_cons by done. unfold encode_char. destruct (path_encoded c).
  - by rewrite decode_percent, (IH Hs).
  - change (Server.decode_uri (String c (encode_path s)) = Some (String c s)).
    simpl. by rewrite Hp, (IH Hs).
Qed.

Lemma seg_chars_encode s : codec_safe s = true -> Server.seg_chars (encode_path s) = Some (encode_path s).
Proof.
  induction s as [|c s IH]; [done|]. unfold codec_safe. cbn [String.list_ascii_of_string forallb].
  intros [Hc Hs]%andb_prop. destruct (codec_char_classes c Hc) as (He & Ht & Hsep & _ & Hsl).
  rewrite encode_path_cons by done. unfold encode_char. destruct (path_encoded c).
  - by rewrite seg_chars_percent, (IH Hs).
  - change (Server.seg_chars (String c (encode_path s)) = Some (String c (encode_path s))).
    simpl. by rewrite Hsl, (IH Hs).
Qed.

Lemma encode_nonempty s : codec_safe s = true -> s <> "" -> encode_path s <> "".
Proof.
  destruct s as [|c s]; [done|]. unfold codec_safe. cbn [String.list_ascii_of_string forallb].
  intros [Hc _]%andb_prop _. destruct (codec_char_classes c Hc) as (He & Ht & Hsep & _).
  rewrite encode_path_cons by done. unfold encode_char. by destruct (path_encoded c).
Qed.

Lemma track_param_segment x :
  x <> "" -> Server.seg_chars x = Some x -> Server.track_param ("/api/track/" ++ x) = Some x.
Proof.
  intros Hx Hs. unfold Server.track_param.
  change "/api/track/" with Server.track_prefix. rewrite substring_after_prefix, Hs.
  destruct x; [done|]. reflexivity.
Qed.

(** C33: a GET of the URL [/api/track/<name>] reaches the Express host's
    [/api/track/:path] route with the path percent-encoded by the browser,
    and the route's [decodeURIComponent] gives the name back: Express
    streams [<name>] itself, for every non-empty name that is no dot
    segment, has no trailing blank, and has no tab, line break, ['#'],
    ['%'], ['/'], ['?'] or ['\']. Spaces, quotes, brackets and bytes above
    [0x7E] make the round trip. *)
Theorem express_track_param_roundtrip name b w fs :
  b <> BadJson -> name <> "" -> codec_safe name = true -> trim_end name = name ->
  dot_segment (encode_path name) = false ->
  run (Server.server_app (mk_request "GET" (url_pathname ("/api/track/" ++ name)) b)) w fs =
  (inr (mk_response 200 Server.cors_headers (BStream (createReadStream name))), w, fs).
Proof.
  intros Hb Hn Hs Ht Hd.
  assert (Hp : url_pathname ("/api/track/" ++ name) = "/api/track/" ++ encode_path name).
  { rewrite (url_pathname_app _ ["api"; "track"]), Ht; try done.
    - by apply codec_no_slash.
    - by rewrite Ht. }
  rewrite Hp. unfold Server.server_app, Server.express_routes. cbn [pathname method rbody].
  rewrite (track_param_segment _ (encode_nonempty _ Hs Hn) (seg_chars_encode _ Hs)),
    (encode_decode _ Hs).
  destruct b; [| |done|]; reflexivity.
Qed.

(** A ['%'] in a name is not encoded by the browser and is decoded by
    Express: [a%41.mp3] is read as [aA.mp3], and [100%.mp3] is refused. *)
Example express_percent_names :
  run (Server.server_app (mk_request "GET" (url_pathname "/api/track/a%41.mp3") NoBody))
    (mk_world empty_table ∅) [] =
    (inr (mk_response 200 Server.cors_headers (BStream (createReadStream "aA.mp3"))),
     mk_world empty_table ∅, []) /\
  run (Server.server_app (mk_request "GET" (url_pathname "/api/track/100%.mp3") NoBody))
    (mk_world empty_table ∅) [] =
    (inr (Server.express_error 400 "Bad Request"), mk_world empty_table ∅, []).
Proof. split; vm_compute; reflexivity. Qed.

(** A name with a space and a byte above [0x7E] makes the round trip. *)
Lemma express_track_param_roundtrip_witness :
  run (Server.server_app (mk_request "GET" (url_pathname ("/api/track/" ++ "my song é.mp3")) NoBody))
    empty_world [] =
  (inr (mk_response 200 Server.cors_headers (BStream (createReadStream "my song é.mp3"))),
   empty_world, []).
Proof.
  apply express_track_param_roundtrip; [discriminate|discriminate|reflexivity..].
Defined.

End Url.
