(* ===== verification/System.v ===== *)
(** * The player and a host together

    The player of [src/client/src/App.js] sends its requests to
    [API_URL]; a request that settles is served by a host at that moment,
    against the stores and the fault schedule, and its response becomes
    the player's reply as [axios] delivers it: a status outside 2xx or a
    thrown handler is a rejection, a [responseType: 'blob'] body is the
    bytes read from the stream (an error while reading it is a rejection),
    any other body is its JSON.

    The request of [playTrack] is [`${API_URL}/api/track/${track.path}`]:
    the host sees the [pathname] the browser's URL parser makes of that
    string ([Url.url_pathname]). For a track uploaded under a file name
    (no separator, not a dot segment) that pathname is [/api/track//music/]
    followed by the name as the path state encodes it ([Url.url_track_music]).

    [sys_step] lets the system do, in any order, whatever the page allows
    (a file may be chosen under any name) or settle any request in flight.
    With the Express host an invariant over its runs shows that the player
    never gets a source: the names busboy reports have no separator, and
    the pathname of the URL of every such track starts with
    [/api/track//] ([Url.url_track_double_slash]), which no route takes. *)

From Stdlib Require Import QArith.
From S2P Require Import Prelude MetaStore BlobStore Io Http Server Worker Contract Hosts Player Page Url.

Module System.

Import MetaStore BlobStore Io Http Contract Player Page Url.
Local Open Scope string_scope.

(** ** The URL the player requests *)

(** [`${track.path}`]: a [null] path is the text ["null"]. *)
Definition path_text (p : option string) : string :=
  match p with Some p => p | None => "null" end.

(** The request each awaited call sends. *)
Definition request_of (p : pending) : request :=
  match p with
  | FetchPlaylist => list_request
  | FetchTrack t =>
      mk_request "GET" (url_pathname ("/api/track/" ++ path_text (row_path t))) NoBody
  | PostUpload (name, data) => upload_request name data
  end.

(** [axios]'s [validateStatus] *)
Definition ok_status (st : Z) : bool := Z.leb 200 st && Z.ltb st 300.

(** What the awaiting handler receives. *)
Definition reply_of (p : pending) (r : exn + response) (w : world) : reply :=
  match r with
  | inl _ => Rejected
  | inr resp =>
      if ok_status (status resp) then
        match p, rsp_body resp with
        | FetchTrack _, BStream st =>
            match stream_contents (blobs w) st with
            | Some d => BlobData d
            | None => Rejected
            end
        | FetchTrack _, _ => Rejected
        | _, b => JsonData b
        end
      else Rejected
  end.

(** ** The system *)

Record system := mk_system {
  client : state;
  sworld : world;
  sfaults : faults
}.

(** The [k]-th request in flight is served and settles. *)
Definition settle_request (serve : request -> io response) (k : nat) (sys : system) : system :=
  match inflight (client sys) !! k with
  | Some p =>
      let '(r, w', fs') := run (serve (request_of p)) (sworld sys) (sfaults sys) in
      mk_system (step (client sys) (Settle k (reply_of p r w'))) w' fs'
  | None => sys
  end.

(** An event of the user or of the element. *)
Definition user_step (e : event) (sys : system) : system :=
  mk_system (step (client sys) e) (sworld sys) (sfaults sys).

Definition blob_reply (o : option bytes) : reply :=
  match o with Some d => BlobData d | None => Rejected end.

(** ** Lemmas *)

Lemma settle_request_run serve k sys p r w' fs' :
  inflight (client sys) !! k = Some p ->
  run (serve (request_of p)) (sworld sys) (sfaults sys) = (r, w', fs') ->
  settle_request serve k sys = mk_system (step (client sys) (Settle k (reply_of p r w'))) w' fs'.
Proof. intros Hk Hrun. unfold settle_request. by rewrite Hk, Hrun. Qed.

(** The edge-function host streams the path of the URL. *)
Lemma worker_track_request t name w fs :
  row_path t = Some (music_path name) -> file_name name = true ->
  run (Worker.fetch (request_of (FetchTrack t))) w fs =
  (inr (mk_response 200 (Worker.cors_headers ++ [("Content-Type", "audio/mpeg")])
          (BStream (createReadStream (music_path (encode_path (trim_end name)))))), w, fs).
Proof.
  intros Ht Hn. unfold request_of. rewrite Ht. cbn [path_text].
  rewrite url_track_music by done. apply Worker.fetch_track.
Qed.

(** The Express host answers 404 for every name without separators. *)
Lemma server_track_request t name w fs :
  row_path t = Some (music_path name) -> no_slash name = true ->
  exists resp, run (Server.server_app (request_of (FetchTrack t))) w fs = (inr resp, w, fs) /\
    status resp = 404%Z.
Proof.
  intros Ht Hn. unfold request_of. rewrite Ht. cbn [path_text].
  destruct (url_track_double_slash name Hn) as [q ->].
  eexists. split; [apply Server.app_track_double_slash; discriminate|reflexivity].
Qed.

(** C24: on the edge-function host, clicking a track stored at
    [/music/<name>] plays the blob stored at [/music/] followed by the
    URL-encoded name, and nothing when there is none: a name with a space,
    a character above [0x7E] or one of the characters the URL encodes is
    looked up under another path than the one its upload wrote. *)
Theorem edge_plays_blob_at_encoded_path sys k t name :
  inflight (client sys) !! k = Some (FetchTrack t) ->
  row_path t = Some (music_path name) -> file_name name = true ->
  settle_request Worker.fetch k sys =
  mk_system (step (client sys)
               (Settle k (blob_reply (blobs (sworld sys) !! music_path (encode_path (trim_end name))))))
            (sworld sys) (sfaults sys).
Proof.
  intros Hk Ht Hn. erewrite settle_request_run by eauto using worker_track_request.
  reflexivity.
Qed.

(** On the Express host, clicking an uploaded track never plays it:
    the request is answered 404, the player only forgets the request, and
    the stores and the fault schedule are untouched. *)
Theorem express_never_plays_uploaded_track sys k t name :
  inflight (client sys) !! k = Some (FetchTrack t) ->
  row_path t = Some (music_path name) -> no_slash name = true ->
  settle_request Server.server_app k sys =
  mk_system (set_inflight (delete k (inflight (client sys))) (client sys))
            (sworld sys) (sfaults sys).
Proof.
  intros Hk Ht Hn. destruct (server_track_request t name (sworld sys) (sfaults sys) Ht Hn)
    as (resp & Hrun & Hst).
  rewrite (settle_request_run _ _ _ _ _ _ _ Hk Hrun).
  unfold reply_of. rewrite Hst. simpl. unfold settle. by rewrite Hk.
Qed.

(** ** Uploading through the player *)

Lemma ingested_row_in w name d :
  In (ingested_row (db w) name) (rows (db (after_ingest w name d))).
Proof. simpl. apply in_or_app. right. by left. Qed.

Section Service.

Context (serve : request -> io response) `{!PlaylistService serve}.

Lemma settle_upload sys k name d :
  inflight (client sys) !! k = Some (PostUpload (name, d)) ->
  wf (db (sworld sys)) -> sfaults sys = [] -> file_ok (name, d) ->
  exists b, settle_request serve k sys =
    mk_system (step (client sys) (Settle k (JsonData b))) (after_ingest (sworld sys) name d) [].
Proof.
  intros Hk Hwf Hfs Hsz. destruct (run (serve (request_of (PostUpload (name, d))))
    (sworld sys) (sfaults sys)) as [[r w'] fs'] eqn:Hrun.
  rewrite (settle_request_run _ _ _ _ _ _ _ Hk Hrun). rewrite Hfs in Hrun.
  pose proof (run_no_faults _ _ _ _ _ Hrun) as ->.
  destruct (svc_ingest_total name d _ _ _ _ Hwf Hsz Hrun) as (resp & -> & Hst & ->).
  exists (rsp_body resp). unfold reply_of. by rewrite Hst.
Qed.

Lemma settle_list sys k :
  inflight (client sys) !! k = Some FetchPlaylist -> sfaults sys = [] ->
  exists rs, Permutation rs (rows (db (sworld sys))) /\ sorted_rows rs /\
    settle_request serve k sys =
    mk_system (step (client sys) (Settle k (JsonData (BTracks rs)))) (sworld sys) [].
Proof.
  intros Hk Hfs. destruct (run (serve list_request) (sworld sys) (sfaults sys))
    as [[r w'] fs'] eqn:Hrun.
  rewrite (settle_request_run _ _ _ _ _ _ _ Hk Hrun). rewrite Hfs in Hrun.
  pose proof (run_no_faults _ _ _ _ _ Hrun) as ->.
  destruct (svc_list_total _ _ _ _ Hrun) as (resp & -> & Hst).
  destruct (svc_list _ _ _ _ _ Hrun) as (-> & resp' & [= <-] &
    [(_ & rs & Hb & Hs & Hp)|(Hst' & _)]); [|congruence].
  exists rs. split_and!; [done|done|]. unfold reply_of. by rewrite Hst, Hb.
Qed.

(** The file chosen, its upload settled, then the refresh it starts. *)
Definition upload_and_refresh (name : string) (d : bytes) (sys : system) : system :=
  let n := length (inflight (client sys)) in
  settle_request serve n (settle_request serve n (user_step (FileChosen (Some (name, d))) sys)).

Lemma upload_refresh sys name d :
  wf (db (sworld sys)) -> sfaults sys = [] -> file_ok (name, d) ->
  exists rs, Permutation rs (rows (db (after_ingest (sworld sys) name d))) /\ sorted_rows rs /\
    upload_and_refresh name d sys =
    mk_system (setPlaylist rs (setUploading false (client sys)))
              (after_ingest (sworld sys) name d) [].
Proof.
  intros Hwf Hfs Hsz. unfold upload_and_refresh.
  set (s := client sys). set (n := length (inflight s)).
  assert (H1 : inflight (client (user_step (FileChosen (Some (name, d))) sys)) !! n =
               Some (PostUpload (name, d))).
  { simpl. unfold send. simpl. apply list_lookup_middle. done. }
  destruct (settle_upload _ _ _ _ H1 Hwf Hfs Hsz) as [b ->].
  cbn [client sworld sfaults user_step step handleFileUpload].
  rewrite (settle_at _ (inflight s) (PostUpload (name, d)) []) by done.
  simpl. rewrite app_nil_r.
  match goal with |- context [settle_request serve n ?sys2] =>
    destruct (settle_list sys2 n) as (rs & Hp & Hs & ->);
      [simpl; apply list_lookup_middle; done|done|] end.
  exists rs. split_and!; [done|done|]. cbn [client step].
  rewrite (settle_at _ (inflight s) FetchPlaylist []) by done.
  simpl. by rewrite app_nil_r.
Qed.


End Service.

(** C25: on the edge-function host, with no store fault, a file whose
    name the URL leaves as it is, once chosen, uploaded and listed, plays
    its own bytes when its list item is clicked. *)
Theorem edge_uploaded_track_plays sys name d :
  wf (db (sworld sys)) -> sfaults sys = [] -> file_ok (name, d) ->
  file_name name = true -> encode_path (trim_end name) = name ->
  exists i,
    playlist (client (upload_and_refresh Worker.fetch name d sys)) !! i =
      Some (ingested_row (db (sworld sys)) name) /\
    let sys2 := settle_request Worker.fetch (length (inflight (client sys)))
                  (user_step (ClickTrack i) (upload_and_refresh Worker.fetch name d sys)) in
    currentTrack (client sys2) = Some (ingested_row (db (sworld sys)) name) /\
    src (audio (client sys2)) = Some d /\ isPlaying (client sys2) = true.
Proof.
  intros Hwf Hfs Hsz Hn Henc.
  destruct (upload_refresh Worker.fetch sys name d Hwf Hfs Hsz) as (rs & Hp & Hs & ->).
  assert (Hin : In (ingested_row (db (sworld sys)) name) rs)
    by (eapply Permutation_in; [symmetry; exact Hp|apply ingested_row_in]).
  apply list_elem_of_In, list_elem_of_lookup in Hin as [i Hi].
  exists i. split; [done|]. intros sys2. subst sys2.
  set (c := setPlaylist rs (setUploading false (client sys))).
  set (t := ingested_row (db (sworld sys)) name).
  assert (Hk : inflight (client (user_step (ClickTrack i)
                 (mk_system c (after_ingest (sworld sys) name d) []))) !!
               length (inflight (client sys)) = Some (FetchTrack t)).
  { simpl. unfold playTrack. rewrite Hi. simpl. by apply list_lookup_middle. }
  rewrite (settle_request_run _ _ _ _ _ _ _ Hk (worker_track_request t name _ _ eq_refl Hn)).
  unfold reply_of. simpl. rewrite Henc. unfold stream_contents. simpl.
  rewrite lookup_insert_eq. unfold playTrack. rewrite Hi.
  rewrite (settle_at _ (inflight (client sys)) (FetchTrack t) []) by done.
  split_and!; reflexivity.
Qed.

(** ** Every interleaving with the Express host *)

(** What the system can do next: an event the page allows other than a
    settlement (a chosen file may have any name), or the settling of any
    request in flight. *)
Definition event_ok (e : event) : bool :=
  match e with
  | Settle _ _ => false
  | _ => true
  end.

Inductive sys_step (serve : request -> io response) : system -> system -> Prop :=
| sys_user sys e :
    enabled (client sys) e = true -> event_ok e = true ->
    sys_step serve sys (user_step e sys)
| sys_settle sys k :
    (k < length (inflight (client sys)))%nat ->
    sys_step serve sys (settle_request serve k sys).

(** A row whose path is [/music/] followed by a name without separators,
    as every upload through busboy writes. *)
Definition uploaded_path (t : row) : Prop :=
  exists n, row_path t = Some (music_path n) /\ no_slash n = true.

Definition pending_ok (p : pending) : Prop :=
  match p with
  | FetchTrack t => uploaded_path t
  | _ => True
  end.

Record express_inv (sys : system) : Prop := {
  inv_src : src (audio (client sys)) = None;
  inv_wf : wf (db (sworld sys));
  inv_rows : Forall uploaded_path (rows (db (sworld sys)));
  inv_playlist : Forall uploaded_path (playlist (client sys));
  inv_inflight : Forall pending_ok (inflight (client sys))
}.

Lemma user_step_inv sys e :
  express_inv sys -> event_ok e = true -> express_inv (user_step e sys).
Proof.
  intros [Hs Hw Hr Hp Hi] He.
  destruct e; try discriminate; constructor; unfold user_step; unfold_handlers; simpl;
    repeat (case_match; simpl); simplify_eq/=; try done;
    try (apply Forall_app; split; [done|]; repeat constructor);
    try (cbn [pending_ok]; eapply Forall_lookup_1; eassumption).
Qed.

Lemma separator_eqb c : separator c = (Ascii.eqb c "/"%char || Ascii.eqb c "\"%char).
Proof. by destruct c as [[] [] [] [] [] [] [] []]. Qed.

Lemma plain_no_slash name : plain_name name = true -> no_slash name = true.
Proof.
  intros Hp%plain_chars. induction name as [|c name IH]; [done|].
  cbn in Hp |- *. apply andb_prop in Hp as [Hc Hp]. by rewrite separator_eqb, Hc, IH.
Qed.

(** The Express host's upload leaves the table as it was or adds the row
    of the name busboy reports, whatever the file and the faults. *)
Lemma server_upload_db name d w fs r w' fs' :
  wf (db w) -> run (Server.server_app (upload_request name d)) w fs = (r, w', fs') ->
  db w' = db w \/
  (Server.busboy_filename name <> "" /\
   db w' = db (after_ingest w (Server.busboy_filename name) d)).
Proof.
  intros Hwf Hrun. revert Hrun.
  destruct (String.eqb_spec (Server.busboy_filename name) "") as [He|Hne].
  { unfold Server.server_app, Server.express_routes. simpl. rewrite He.
    intros [= _ <- _]. by left. }
  destruct (Z_le_gt_dec (Z.of_nat (length d)) (200 * 1024 * 1024)) as [Hsz|Hbig].
  - assert (Hf : file_ok (Server.busboy_filename name, d)) by (split; [by apply busboy_plain|done]).
    assert (E : run (Server.server_app (upload_request name d)) w fs =
                run (Server.server_app (upload_request (Server.busboy_filename name) d)) w fs).
    { unfold Server.server_app, Server.express_routes. simpl.
      by rewrite (plain_busboy _ (busboy_plain _ Hne)). }
    rewrite E. intros Hrun.
    destruct (server_ingest _ d w fs r w' fs' Hwf Hf Hrun)
      as (resp & _ & [(_ & _ & Hw)|(_ & [Hw | [Hw | Hw]])]); subst w';
      first [by left | right; by split].
  - unfold Server.server_app, Server.express_routes. simpl.
    rewrite (proj2 (String.eqb_neq _ _) Hne), (proj2 (Z.ltb_lt _ _))
      by (unfold Server.file_size_limit; lia).
    intros [= _ <- _]. by left.
Qed.

(** The reply brings no bytes for a track. *)
Definition no_track_blob (p : pending) (r : reply) : Prop :=
  match p, r with FetchTrack _, BlobData _ => False | _, _ => True end.

Lemma settle_keeps p r s :
  no_track_blob p r ->
  src (audio (settled p r s)) = src (audio s) /\
  (forall rs, r = JsonData (BTracks rs) -> p = FetchPlaylist ->
     playlist (settled p r s) = rs) /\
  ((p <> FetchPlaylist \/ forall rs, r <> JsonData (BTracks rs)) ->
     playlist (settled p r s) = playlist s) /\
  exists extra, inflight (settled p r s) = (inflight s ++ extra)%list /\ Forall pending_ok extra.
Proof.
  unfold no_track_blob. intros Hpr. destruct p as [|t|[n d]]; destruct r as [|[]|];
    try contradiction; unfold_handlers; simpl;
    split_and!; try done; try (intros ? [=]; done); try (intros [H|H]; [done|]);
    try (intros; exfalso; naive_solver);
    first [exists []; by rewrite app_nil_r | exists [FetchPlaylist]; by repeat constructor].
Qed.

Lemma settle_world_inv sys p r w' fs' :
  express_inv sys -> pending_ok p ->
  run (Server.server_app (request_of p)) (sworld sys) (sfaults sys) = (r, w', fs') ->
  wf (db w') /\ Forall uploaded_path (rows (db w')) /\
  no_track_blob p (reply_of p r w') /\
  (p = FetchPlaylist -> forall rs, reply_of p r w' = JsonData (BTracks rs) ->
     Forall uploaded_path rs).
Proof.
  unfold no_track_blob. intros [Hs Hw Hr Hp Hi] Hpk Hrun.
  assert (Hwf : wf (db w')).
  { eapply (run_preserves (fun w => wf (db w))); [|exact Hw|exact Hrun].
    intros X c w0. apply exec_wf. }
  destruct p as [|t|[n d]]; cbn [pending_ok] in Hpk.
  - destruct (server_list _ _ _ _ _ Hrun) as (-> & resp & -> &
      [(Hst & rs & Hb & _ & Hperm)|(Hst & msg & Hb)]);
      split_and!; try done; unfold reply_of; rewrite Hst, Hb; simpl; try done.
    intros _ rs' [= <-]. by rewrite Hperm.
  - destruct Hpk as (n & Ht & Hn).
    destruct (server_track_request t n (sworld sys) (sfaults sys) Ht Hn) as (resp & Hrun' & Hst).
    rewrite Hrun' in Hrun. injection Hrun as <- <- <-.
    split_and!; try done; unfold reply_of; rewrite Hst; done.
  - destruct (server_upload_db n d _ _ _ _ _ Hw Hrun) as [Hdb|[Hne Hdb]];
      (split; [exact Hwf|]); rewrite Hdb; (split; [|done]); [done|].
    simpl. apply Forall_app. split; [done|]. constructor; [|done].
    exists (Server.busboy_filename n). split; [done|].
    by apply plain_no_slash, busboy_plain.
Qed.

Lemma settle_inv sys k :
  express_inv sys -> express_inv (settle_request Server.server_app k sys).
Proof.
  intros Hinv. unfold settle_request.
  destruct (inflight (client sys) !! k) as [p|] eqn:Hk; [|done].
  pose proof (Forall_lookup_1 _ _ _ _ (inv_inflight _ Hinv) Hk) as Hpk.
  destruct (run _ _ _) as [[r w'] fs'] eqn:Hrun.
  destruct (settle_world_inv sys p r w' fs' Hinv Hpk Hrun) as (Hwf & Hrows & Hnb & Hls).
  destruct Hinv as [Hs Hw Hr Hp Hi].
  cbn [step client]. unfold settle. rewrite Hk.
  match goal with |- context [settled p ?rr ?ss] =>
    destruct (settle_keeps p rr ss Hnb) as (Hsrc & Hpl1 & Hpl2 & extra & Hext & Hx) end.
  constructor; simpl; try done.
  - by rewrite Hsrc.
  - destruct p as [|t|f]; [|rewrite Hpl2; [done|left; discriminate]..].
    destruct (reply_of FetchPlaylist r w') as [|[]|] eqn:Hrep;
      try (rewrite Hpl2; [done|right; by intros ?]).
    rewrite (Hpl1 _ eq_refl eq_refl). exact (Hls eq_refl _ eq_refl).
  - rewrite Hext. apply Forall_app. split; [by apply Forall_delete|done].
Qed.

Lemma sys_step_express_inv sys sys' :
  sys_step Server.server_app sys sys' -> express_inv sys -> express_inv sys'.
Proof.
  intros [sys0 e _ He|sys0 k _] Hinv; [by apply user_step_inv|by apply settle_inv].
Qed.

(** C27: with the Express host, no track ever plays. From the first
    render, on a store whose rows have paths [/music/<n>] with no ['/'] or
    ['\'] in [n] (as every upload through busboy writes), in every
    interleaving of clicks, choices of files under any name, the element's
    events and the settling of requests, under any fault schedule, the
    audio element never gets a source. *)
Theorem express_player_never_plays w fs sys :
  wf (db w) -> Forall uploaded_path (rows (db w)) ->
  rtc (sys_step Server.server_app) (mk_system mounted w fs) sys ->
  src (audio (client sys)) = None.
Proof.
  intros Hw Hr Hrtc. apply inv_src.
  apply (rtc_inv _ express_inv _ _ sys_step_express_inv Hrtc).
  constructor; simpl; try done; by repeat constructor.
Qed.

(** ** What a step changes *)

(** A property of the stores kept by every request the player sends is
    kept by every step. *)
Lemma sys_step_world (P : world -> Prop) serve sys sys' :
  (forall p w fs r w' fs', P w -> run (serve (request_of p)) w fs = (r, w', fs') -> P w') ->
  sys_step serve sys sys' -> P (sworld sys) -> P (sworld sys').
Proof.
  intros HP Hst Hw. destruct Hst as [sys e _ _|sys k _]; [done|].
  unfold settle_request. destruct (inflight (client sys) !! k) as [p|]; [|done].
  destruct (run (serve (request_of p)) (sworld sys) (sfaults sys)) as [[r w'] fs'] eqn:Hrun.
  exact (HP _ _ _ _ _ _ Hw Hrun).
Qed.

(** Every step of the system is a step of the player. *)
Lemma sys_step_client serve sys sys' :
  sys_step serve sys sys' -> exists e, client sys' = step (client sys) e.
Proof.
  intros Hst. destruct Hst as [s e _ _|s k _]; [by exists e|].
  unfold settle_request. destruct (inflight (client s) !! k) as [p|] eqn:Hk.
  - destruct (run _ _ _) as [[r w'] fs']. by eexists.
  - exists (Settle k Rejected). unfold step, settle. by rewrite Hk.
Qed.

(** With a host that meets the contract, a step leaves the playlist as it
    was or sets it to a listing of the table. *)
Lemma sys_step_playlist serve `{!PlaylistService serve} sys sys' :
  sys_step serve sys sys' ->
  playlist (client sys') = playlist (client sys) \/
  playlist (client sys') ≡ₚ rows (db (sworld sys)).
Proof.
  intros Hst. destruct Hst as [sys e _ Hok|sys k _].
  - left. simpl.
    destruct (step_playlist (client sys) e) as [->|(k & rs & -> & _)]; [done|discriminate].
  - unfold settle_request. destruct (inflight (client sys) !! k) as [p|] eqn:Hk; [|by left].
    destruct (run (serve (request_of p)) (sworld sys) (sfaults sys)) as [[r w'] fs'] eqn:Hrun.
    cbn [client]. destruct (step_playlist (client sys) (Settle k (reply_of p r w')))
      as [->|(k' & rs & Heq & Hk' & ->)]; [by left|right].
    injection Heq as <- Hrep. rewrite Hk in Hk'. injection Hk' as ->.
    destruct (svc_list _ _ _ _ _ Hrun) as (-> & resp & -> &
      [(Hst & rs' & Hb & _ & Hp)|(Hst & msg & Hb)]);
      unfold reply_of in Hrep; rewrite Hst, Hb in Hrep; simpl in Hrep; [|discriminate].
    by injection Hrep as ->.
Qed.

(** ** The selected list item, on any host *)

Section Selection.

Context (serve : request -> io response) `{!PlaylistService serve}.

Definition ids_unique (sys : system) : Prop :=
  wf (db (sworld sys)) /\ NoDup (row_id <$> playlist (client sys)).

Lemma sys_step_ids sys sys' :
  sys_step serve sys sys' -> ids_unique sys -> ids_unique sys'.
Proof.
  intros Hst [Hw Hnd]. split.
  - apply (sys_step_world (fun w => wf (db w)) serve sys sys'); [|exact Hst|exact Hw].
    intros p w0 fs r w' fs' Hw0. apply (run_preserves (fun w => wf (db w))); [apply @exec_wf|exact Hw0].
  - destruct (sys_step_playlist serve sys sys' Hst) as [->|Hp]; [done|].
    rewrite Hp. by apply wf_ids_NoDup.
Qed.

Lemma reach_ids_unique w fs sys :
  wf (db w) -> rtc (sys_step serve) (mk_system mounted w fs) sys -> ids_unique sys.
Proof.
  intros Hw Hrtc. apply (rtc_inv _ ids_unique _ _ sys_step_ids Hrtc). split; [done|constructor].
Qed.

(** C31: on either host, from the first render on a well-formed table, in
    every interleaving of events and settlements under any faults, the
    playlist's ids stay pairwise distinct: at most one list item is
    [selected]. *)
Theorem one_item_selected w fs sys :
  wf (db w) -> rtc (sys_step serve) (mk_system mounted w fs) sys ->
  forall i j, selected (client sys) i = true -> selected (client sys) j = true -> i = j.
Proof. intros Hw Hrtc i j. apply selected_unique, (reach_ids_unique w fs sys Hw Hrtc). Qed.

(** The [key]s of the rendered list are distinct, as React requires. *)
Lemma page_keys_distinct w fs sys :
  wf (db w) -> rtc (sys_step serve) (mk_system mounted w fs) sys ->
  NoDup (item_key <$> items (view (client sys))).
Proof. intros Hw Hrtc. rewrite view_keys. apply (reach_ids_unique w fs sys Hw Hrtc). Qed.

End Selection.

(** ** Systems *)

Definition spaced_track : row :=
  mk_row 1 (Some "my song.mp3") (Some (music_path "my song.mp3")) (Some 1%Z).

(** The upload of [my song.mp3] has written its blob and its row, and the
    player has asked for the track. *)
Definition spaced_system : system :=
  mk_system (send (FetchTrack spaced_track) initial)
    (after_ingest empty_world "my song.mp3" [Byte.x01]) [].

Lemma edge_plays_blob_at_encoded_path_witness :
  blobs (sworld spaced_system) !! music_path "my song.mp3" = Some [Byte.x01] /\
  src (audio (client (settle_request Worker.fetch 0 spaced_system))) = None.
Proof.
  split; [reflexivity|].
  rewrite (edge_plays_blob_at_encoded_path spaced_system 0 spaced_track "my song.mp3"
             eq_refl eq_refl eq_refl).
  reflexivity.
Defined.

Lemma express_never_plays_uploaded_track_witness :
  src (audio (client (settle_request Server.server_app 0 spaced_system))) = None /\
  inflight (client (settle_request Server.server_app 0 spaced_system)) = [].
Proof.
  rewrite (express_never_plays_uploaded_track spaced_system 0 spaced_track "my song.mp3"
             eq_refl eq_refl eq_refl).
  split; reflexivity.
Defined.

(** The player after the first render, the store empty. *)
Definition fresh_system : system := mk_system mounted empty_world [].

Lemma song_size_ok : file_ok ("song.mp3", [Byte.x01]).
Proof. split; [reflexivity|simpl; lia]. Qed.

Lemma edge_uploaded_track_plays_witness :
  exists i,
    playlist (client (upload_and_refresh Worker.fetch "song.mp3" [Byte.x01] fresh_system)) !! i =
      Some (ingested_row empty_table "song.mp3") /\
    src (audio (client (settle_request Worker.fetch 1
       (user_step (ClickTrack i) (upload_and_refresh Worker.fetch "song.mp3" [Byte.x01] fresh_system)))))
      = Some [Byte.x01].
Proof.
  destruct (edge_uploaded_track_plays fresh_system "song.mp3" [Byte.x01]
              empty_world_wf eq_refl song_size_ok eq_refl eq_refl) as (i & Hi & _ & Hs & _).
  exists i. split; [exact Hi|exact Hs].
Defined.


(** On the Express host: a file whose name has backslashes and encoded
    slashes chosen and uploaded, the listing settled, the new track clicked
    and its request settled. *)
Definition express_run : system :=
  settle_request Server.server_app 1
    (user_step (ClickTrack 0)
       (settle_request Server.server_app 0
          (settle_request Server.server_app 1
             (user_step (FileChosen (Some ("..\..\%2Fmusic%2Fy", [Byte.x01]))) fresh_system)))).

Lemma express_player_never_plays_witness :
  rtc (sys_step Server.server_app) fresh_system express_run /\
  playlist (client express_run) <> [] /\ inflight (client express_run) = [FetchPlaylist] /\
  src (audio (client express_run)) = None.
Proof.
  assert (Hr : rtc (sys_step Server.server_app) fresh_system express_run).
  { unfold express_run.
    eapply rtc_l; [apply (sys_user _ _ (FileChosen (Some ("..\..\%2Fmusic%2Fy", [Byte.x01])))); reflexivity|].
    eapply rtc_l; [apply (sys_settle _ _ 1); vm_compute; lia|].
    eapply rtc_l; [apply (sys_settle _ _ 0); vm_compute; lia|].
    eapply rtc_l; [apply (sys_user _ _ (ClickTrack 0)); vm_compute; reflexivity|].
    eapply rtc_l; [apply (sys_settle _ _ 1); vm_compute; lia|].
    apply rtc_refl. }
  split_and!; [exact Hr|vm_compute; congruence|vm_compute; reflexivity|].
  exact (express_player_never_plays empty_world [] express_run empty_world_wf
           (Forall_nil_2 _) Hr).
Defined.

(** On the edge-function host: a file chosen and uploaded, the listing
    settled, the new track clicked and its bytes arrived. *)
Definition edge_run : system :=
  settle_request Worker.fetch 1
    (user_step (ClickTrack 0)
       (settle_request Worker.fetch 0
          (settle_request Worker.fetch 1
             (user_step (FileChosen (Some ("song.mp3", [Byte.x01]))) fresh_system)))).

Lemma one_item_selected_witness :
  rtc (sys_step Worker.fetch) fresh_system edge_run /\
  selected (client edge_run) 0 = true /\
  (forall i, selected (client edge_run) i = true -> i = 0%nat).
Proof.
  assert (Hr : rtc (sys_step Worker.fetch) fresh_system edge_run).
  { unfold edge_run.
    eapply rtc_l; [apply (sys_user _ _ (FileChosen (Some ("song.mp3", [Byte.x01])))); reflexivity|].
    eapply rtc_l; [apply (sys_settle _ _ 1); vm_compute; lia|].
    eapply rtc_l; [apply (sys_settle _ _ 0); vm_compute; lia|].
    eapply rtc_l; [apply (sys_user _ _ (ClickTrack 0)); vm_compute; reflexivity|].
    eapply rtc_l; [apply (sys_settle _ _ 1); vm_compute; lia|].
    apply rtc_refl. }
  assert (H0 : selected (client edge_run) 0 = true) by (vm_compute; reflexivity).
  split_and!; [exact Hr|exact H0|].
  intros i Hi. exact (one_item_selected Worker.fetch empty_world [] edge_run empty_world_wf Hr
                        i 0 Hi H0).
Defined.

End System.
