(* ===== verification/Origin.v ===== *)
(** * The origin of the player's request URLs

    The player builds every request URL as [`${API_URL}/api/...`]
    (src/client/src/App.js, lines 25, 51, 68 and 110). This file models the
    WHATWG basic URL parser from its start for the special schemes with an
    authority, up to the path start state that [Url] models:

    - leading and trailing C0 controls and spaces are trimmed, tabs and
      newlines removed;
    - the scheme start and scheme states read an ASCII letter and then
      letters, digits, [+], [-] and [.], lower-cased, up to [':'];
    - the special authority states skip every ['/'] and ['\'];
    - the authority state reads up to ['/'], ['\'], ['?'], ['#'] or the end;
      each ['@'] moves the buffer into the username and the password
      ([userinfo], the userinfo percent-encode set);
    - the host state splits the rest at a [':'] outside brackets; the port
      state takes digits only, at most [65535], and drops the scheme's
      default port;
    - the host parser percent-decodes, lower-cases ASCII and refuses the
      forbidden domain code points.

    The parser returns [Unmodelled] where this model stops: non-special
    schemes and [file], IPv6 literals, hosts with non-ASCII bytes or an
    [xn--] label (IDNA), and hosts ending in a number (IPv4). Every URL
    the player builds, [API_URL] followed by a path that starts with
    ['/'], is inside the model: [api_url_parse] shows that it names
    [API_URL]'s host over [https] on the default port, without credentials,
    and that its path is what the path start state makes of the rest, the
    pathname [Url.url_pathname] computes. *)

From S2P Require Import Prelude Http Server Url.

Module Origin.

Import Http Url.
Local Open Scope string_scope.

(** ** Results *)

Record url := mk_url {
  scheme : string;
  username : string;
  password : string;
  host : string;
  port : option Z;
  path : list string
}.

Inductive parsed (A : Type) :=
| Ok (a : A)
| Failure
| Unmodelled.
Arguments Ok {A} a.
Arguments Failure {A}.
Arguments Unmodelled {A}.

(** ** Characters *)

Definition ascii_in (lo hi : nat) (c : Ascii.ascii) : bool :=
  Nat.leb lo (Ascii.nat_of_ascii c) && Nat.leb (Ascii.nat_of_ascii c) hi.

Definition is_alpha (c : Ascii.ascii) : bool := ascii_in 65 90 c || ascii_in 97 122 c.
Definition is_digit (c : Ascii.ascii) : bool := ascii_in 48 57 c.

(** A code point of a scheme after its first letter. *)
Definition scheme_char (c : Ascii.ascii) : bool :=
  is_alpha c || is_digit c || existsb (Nat.eqb (Ascii.nat_of_ascii c)) [43; 45; 46]%nat.

Definition is_char (n : nat) (c : Ascii.ascii) : bool := Nat.eqb (Ascii.nat_of_ascii c) n.

(** The userinfo percent-encode set. *)
Definition userinfo_encoded (c : Ascii.ascii) : bool :=
  let n := Ascii.nat_of_ascii c in
  Nat.leb n 32 || Nat.leb 127 n ||
  existsb (Nat.eqb n) [34; 35; 47; 58; 59; 60; 61; 62; 63; 64; 91; 92; 93; 94; 96; 123; 124; 125]%nat.

(** The forbidden domain code points: C0 controls, space, [#], [%], [/],
    [:], [<], [>], [?], [@], [[], ['\'], []], [^], [|] and DEL. *)
Definition forbidden_domain (c : Ascii.ascii) : bool :=
  let n := Ascii.nat_of_ascii c in
  Nat.leb n 32 || Nat.eqb n 127 ||
  existsb (Nat.eqb n) [35; 37; 47; 58; 60; 62; 63; 64; 91; 92; 93; 94; 124]%nat.

(** Leading C0 controls and spaces are trimmed from the URL string. *)
Fixpoint trim_start (s : string) : string :=
  match s with
  | String c s' => if blank c then trim_start s' else s
  | EmptyString => EmptyString
  end.

(** ** Scheme *)

Fixpoint scheme_state (s buf : string) : option (string * string) :=
  match s with
  | EmptyString => None
  | String c s' =>
      if is_char 58 c then Some (buf, s')
      else if scheme_char c then scheme_state s' (buf ++ String (lower_ascii c) EmptyString)
      else None
  end.

(** The scheme start state; [None] is the no-scheme state, a failure
    without a base URL. *)
Definition scheme_start (s : string) : option (string * string) :=
  match s with
  | String c s' => if is_alpha c then scheme_state s' (String (lower_ascii c) EmptyString) else None
  | EmptyString => None
  end.

(** A special scheme's default port; [file] has none. *)
Definition special_port (sch : string) : option (option Z) :=
  if String.eqb sch "ftp" then Some (Some 21%Z)
  else if String.eqb sch "file" then Some None
  else if String.eqb sch "http" || String.eqb sch "ws" then Some (Some 80%Z)
  else if String.eqb sch "https" || String.eqb sch "wss" then Some (Some 443%Z)
  else None.

(** ** Authority *)

(** The special authority slashes and ignore slashes states. *)
Fixpoint skip_slashes (s : string) : string :=
  match s with
  | String c s' => if separator c then skip_slashes s' else s
  | EmptyString => EmptyString
  end.

Definition encode_userinfo (c : Ascii.ascii) : string :=
  if userinfo_encoded c then percent c else String c EmptyString.

(** The buffer before an ['@'] appended to the username, or after the
    first [':'] to the password. *)
Fixpoint userinfo (buf : string) (pw : bool) (user pass : string) : bool * string * string :=
  match buf with
  | EmptyString => (pw, user, pass)
  | String c b =>
      if is_char 58 c && negb pw then userinfo b true user pass
      else if pw then userinfo b pw user (pass ++ encode_userinfo c)
      else userinfo b pw (user ++ encode_userinfo c) pass
  end.

(** The authority state: the username, the password, the buffer the host
    state reads again, and the input from the end of the authority on.
    [None] when an ['@'] is followed by no host. *)
Fixpoint authority (s buf : string) (at_seen pw : bool) (user pass : string)
    : option (string * string * string * string) :=
  match s with
  | EmptyString =>
      if at_seen && String.eqb buf "" then None else Some (user, pass, buf, EmptyString)
  | String c s' =>
      if is_char 64 c then
        let '(pw', user', pass') := userinfo (if at_seen then "%40" ++ buf else buf) pw user pass in
        authority s' EmptyString true pw' user' pass'
      else if separator c || end_char c then
        if at_seen && String.eqb buf "" then None else Some (user, pass, buf, s)
      else authority s' (buf ++ String c EmptyString) at_seen pw user pass
  end.

(** The host state on that buffer: the host up to a [':'] outside
    brackets, and what follows for the port state. *)
Fixpoint host_split (s buf : string) (brackets : bool) : string * option string :=
  match s with
  | EmptyString => (buf, None)
  | String c s' =>
      if is_char 58 c && negb brackets then (buf, Some s')
      else host_split s' (buf ++ String c EmptyString)
             (if is_char 91 c then true else if is_char 93 c then false else brackets)
  end.

(** ** Host *)

(** Percent-decoding: [%XY] is the byte [0xXY]; another ['%'] stays. *)
Fixpoint percent_decode (s : string) : string :=
  match s with
  | EmptyString => EmptyString
  | String c s' =>
      if is_char 37 c then
        match s' with
        | String h1 (String h2 s'') =>
            match Server.hex_digit h1, Server.hex_digit h2 with
            | Some a, Some b => String (Ascii.ascii_of_nat (16 * a + b)) (percent_decode s'')
            | _, _ => String c (percent_decode s')
            end
        | _ => String c (percent_decode s')
        end
      else String c (percent_decode s')
  end.

(** [String.split] on ['.'] as [strictly split] does it. *)
Fixpoint labels (s : string) (cur : string) : list string :=
  match s with
  | EmptyString => [cur]
  | String c s' => if is_char 46 c then cur :: labels s' EmptyString else labels s' (cur ++ String c EmptyString)
  end.

Definition all_chars (f : Ascii.ascii -> bool) (s : string) : bool :=
  forallb f (String.list_ascii_of_string s).

Definition is_hex (c : Ascii.ascii) : bool := match Server.hex_digit c with Some _ => true | None => false end.

(** The IPv4 number parser succeeds on the label: decimal digits, or
    [0x] followed by hex digits. *)
Definition number_label (last : string) : bool :=
  (negb (String.eqb last "") && all_chars is_digit last) ||
  match last with
  | String z (String x rest) => is_char 48 z && (is_char 120 x || is_char 88 x) && all_chars is_hex rest
  | _ => false
  end.

(** The ends-in-a-number checker: the last label, a trailing empty one
    dropped, is a number. *)
Definition ends_in_number (host : string) : bool :=
  match rev (labels host EmptyString) with
  | [EmptyString] | [] => false
  | EmptyString :: last :: _ => number_label last
  | last :: _ => number_label last
  end.

(** The host parser of a special URL. *)
Definition host_parse (input : string) : parsed string :=
  match input with
  | String c _ =>
      if is_char 91 c then Unmodelled
      else
        let domain := percent_decode input in
        if negb (all_chars (fun c => Nat.ltb (Ascii.nat_of_ascii c) 128) domain) then Unmodelled
        else
          let ascii := lower domain in
          if existsb (String.prefix "xn--") (labels ascii EmptyString) then Unmodelled
          else if String.eqb ascii "" || negb (all_chars (fun c => negb (forbidden_domain c)) ascii)
          then Failure
          else if ends_in_number ascii then Unmodelled
          else Ok ascii
  | EmptyString => Failure
  end.

(** ** Port *)

Fixpoint digits_value (s : string) (acc : Z) : Z :=
  match s with
  | EmptyString => acc
  | String c s' => digits_value s' (10 * acc + Z.of_nat (Ascii.nat_of_ascii c - 48))%Z
  end.

(** The port state on what follows the [':']. *)
Definition port_parse (dflt : option Z) (p : option string) : parsed (option Z) :=
  match p with
  | None | Some EmptyString => Ok None
  | Some s =>
      if negb (all_chars is_digit s) then Failure
      else
        let n := digits_value s 0 in
        if Z.ltb 65535 n then Failure
        else if bool_decide (dflt = Some n) then Ok None else Ok (Some n)
  end.

(** ** The parser *)

(** The parser after the URL string has been trimmed and cleaned. *)
Definition parse_special (s : string) : parsed url :=
  match scheme_start s with
  | None => Failure
  | Some (sch, rest) =>
      match special_port sch with
      | None | Some None => Unmodelled
      | Some dflt =>
          match authority (skip_slashes rest) EmptyString false false EmptyString EmptyString with
          | None => Failure
          | Some (user, pass, buf, rest') =>
              let '(hs, po) := host_split buf EmptyString false in
              match host_parse hs with
              | Ok h =>
                  match port_parse dflt po with
                  | Ok pt => Ok (mk_url sch user pass h pt (path_start rest'))
                  | Failure => Failure
                  | Unmodelled => Unmodelled
                  end
              | Failure => Failure
              | Unmodelled => Unmodelled
              end
          end
      end
  end.

Definition url_parse (input : string) : parsed url :=
  parse_special (remove_tab_newline (trim_end (trim_start input))).

(** ** The player's URLs *)

(** [const API_URL = 'https://musicquiz.your-username.workers.dev'] *)
Definition API_URL : string := "https://musicquiz.your-username.workers.dev".

Definition api_host : string := "musicquiz.your-username.workers.dev".

(** The parser on URLs outside the player's: the scheme and host are
    lower-cased, credentials are percent-encoded, the default port is
    dropped, a port above [65535] or an ['@'] with no host fails, and an
    IPv6 literal is outside the model. *)
Example url_parse_cases :
  url_parse " HTTPS://us er:p@ss@Example.COM:443/a/../b " =
    Ok (mk_url "https" "us%20er" "p%40ss" "example.com" None ["b"]) /\
  url_parse "http://h:0080\x" = Ok (mk_url "http" "" "" "h" None ["x"]) /\
  url_parse "https://h:65536/" = Failure /\
  url_parse "https://u@/x" = Failure /\
  url_parse "https://a%2Fb/" = Failure /\
  url_parse "https://[::1]/" = Unmodelled.
Proof. split_and!; vm_compute; reflexivity. Qed.

(** ** The URLs the player builds *)

(** [`${API_URL}/...`] parses to [API_URL]'s host, and the rest is read
    by the path start state. *)
Lemma api_url_parse r :
  url_parse (API_URL ++ String "/" r) =
  Ok (mk_url "https" "" "" api_host None (path_start (String "/" (remove_tab_newline (trim_end r))))).
Proof.
  unfold url_parse. change (trim_start (API_URL ++ String "/" r)) with (API_URL ++ String "/" r).
  rewrite trim_end_app. change (trim_end (String "/" r)) with (String "/" (trim_end r)).
  change (String.eqb (String "/" (trim_end r)) "") with false. cbv iota beta.
  rewrite remove_tab_newline_app. reflexivity.
Qed.

End Origin.
