(* ===== verification/Schema.v ===== *)
(** * Rows keep the types of spec section 3

    Section 3 gives every Track a title, a path and an integer position;
    the table's columns are nullable, and a direct insert can store [NULL]
    in any of them ([Hosts.insert_without_position_hosts_differ]). The
    page prints a [NULL] position as [Позиция: null]. This file shows that
    the only request that can store such a row is the direct insert: every
    other handler of both hosts inserts typed rows only ([typed_cmd]), and
    since the player never sends a direct insert, a table of Tracks stays
    one in every run of the player with either host, and every list item
    the page shows has the track's title and a number for its position.
    Rows are never removed or changed ([Io.run_rows_mono]), so every track
    the player lists, shows as current or requests is a row of the table
    ([store_view]). *)

From S2P Require Import Prelude MetaStore BlobStore Io Http Server Worker Contract TimeFormat Player Page System.

Module Schema.

Import MetaStore Io Http Contract TimeFormat Player Page System.
Local Open Scope string_scope.

(** A Track of section 3: its title, path and position are set. *)
Definition typed_row (r : row) : Prop :=
  is_Some (row_title r) /\ is_Some (row_path r) /\ is_Some (row_position r).

#[export] Instance typed_row_dec r : Decision (typed_row r).
Proof. unfold typed_row. apply _. Defined.

Definition typed_table (w : world) : Prop := Forall typed_row (rows (db w)).

(** A store call that can only insert a Track. *)
Definition typed_cmd {X} (c : cmd X) : Prop :=
  match c with
  | Insert t p pos => is_Some t /\ is_Some p /\ is_Some pos
  | _ => True
  end.

Record typed_system (sys : system) : Prop := {
  ts_table : typed_table (sworld sys);
  ts_playlist : Forall typed_row (playlist (client sys))
}.

(** ** Handlers *)

Lemma exec_typed {X} (c : cmd X) w :
  typed_cmd c -> typed_table w -> typed_table (snd (exec c w)).
Proof.
  unfold typed_table. intros Hc Hw.
  destruct c as [| | | |t p pos|]; try exact Hw.
  simpl. apply Forall_app. split; [exact Hw|]. by apply Forall_singleton.
Qed.

Ltac solve_typed :=
  simpl; repeat match goal with
  | |- _ /\ _ => split
  | |- forall _ : _ + _, _ => intros [?|?]; simpl
  | |- True => exact I
  | |- is_Some (Some _) => eexists; reflexivity
  end.

(** Every handler of both hosts but the direct insert inserts Tracks only. *)
Lemma server_typed_calls req :
  direct_insert Express req = false -> calls_ok (@typed_cmd) (Server.server_app req).
Proof.
  cbn [direct_insert]. intros H. unfold Server.server_app. destruct (Server.is_method "HEAD" req);
    unfold Server.express_routes; simpl;
    unfold Server.upload, Server.get_track, Server.get_playlist;
    repeat case_match; simpl; try destruct (Server.multer_single _ _) as [?|[[? ?]|]]; solve_typed.
  all: congruence.
Qed.

Lemma worker_typed_calls req :
  direct_insert Edge req = false -> calls_ok (@typed_cmd) (Worker.fetch req).
Proof.
  cbn [direct_insert]. intros H. unfold Worker.fetch, Worker.route.
  destruct (String.eqb (method req) "OPTIONS"); [done|].
  rewrite H.
  unfold Worker.upload, Worker.request_formData, Worker.get_track, Worker.get_playlist.
  repeat case_match; simpl; try destruct (Worker.form_get "file" _) as [[]|]; try case_match; solve_typed.
Qed.

Lemma host_typed_calls h req :
  direct_insert h req = false -> calls_ok (@typed_cmd) (serve_of h req).
Proof. destruct h; [apply server_typed_calls|apply worker_typed_calls]. Qed.

(** The player sends no direct insert. *)
Lemma request_of_not_insert h p : direct_insert h (request_of p) = false.
Proof. destruct h, p as [|t|[n d]]; simpl; rewrite ?andb_false_r; reflexivity. Qed.

Lemma host_run_typed h p w fs r w' fs' :
  typed_table w -> run (serve_of h (request_of p)) w fs = (r, w', fs') -> typed_table w'.
Proof.
  intros Hw. apply (run_calls_ok typed_table (@typed_cmd)); [|apply host_typed_calls, request_of_not_insert|exact Hw].
  intros X c w0. apply exec_typed.
Qed.

(** ** Runs of the system *)

Lemma sys_step_typed h sys sys' :
  sys_step (serve_of h) sys sys' -> typed_system sys -> typed_system sys'.
Proof.
  intros Hst [Hw Hp]. split.
  - apply (sys_step_world typed_table (serve_of h) sys sys'); [|exact Hst|exact Hw].
    intros p w0 fs r w' fs'. apply host_run_typed.
  - destruct (sys_step_playlist (serve_of h) sys sys' Hst) as [->|Hperm]; [done|].
    by rewrite Hperm.
Qed.

Lemma typed_item s it :
  Forall typed_row (playlist s) -> it ∈ items (view s) ->
  exists t title z, t ∈ playlist s /\ item_key it = row_id t /\ row_title t = Some title /\
    row_position t = Some z /\ item_primary it = title /\
    item_secondary it = position_prefix ++ number_to_string z.
Proof.
  intros Hp Hit. cbn [view items] in Hit.
  apply list_elem_of_fmap in Hit as (t & -> & Ht).
  rewrite List.Forall_forall in Hp.
  destruct (Hp t (proj1 (list_elem_of_In _ _) Ht)) as ([title Htl] & _ & [z Hz]).
  exists t, title, z. unfold render_item, position_label. cbn.
  by rewrite Htl, Hz.
Qed.

(** C32: with either host, from the first render on a table of Tracks, in
    every interleaving of user events, element events and request
    settlements under any fault schedule, the table stays a table of Tracks,
    and every list item of the page shows the title of its track and the
    track's position as a number (never [Позиция: null]). *)
Theorem rows_stay_typed h w fs sys :
  typed_table w ->
  rtc (sys_step (serve_of h)) (mk_system mounted w fs) sys ->
  typed_table (sworld sys) /\
  forall it, it ∈ items (view (client sys)) ->
    exists t title z, t ∈ playlist (client sys) /\ item_key it = row_id t /\
      row_title t = Some title /\ row_position t = Some z /\ item_primary it = title /\
      item_secondary it = position_prefix ++ number_to_string z.
Proof.
  intros Hw Hrtc.
  assert (Hinv : typed_system sys).
  { apply (rtc_inv _ typed_system _ _ (sys_step_typed h) Hrtc). split; [done|constructor]. }
  destruct Hinv as [Ht Hp]. split; [done|]. intros it. by apply typed_item.
Qed.

(** ** The player shows stored rows *)

(** Every track the player lists, shows as current, or has requested is a
    row of the table, as the table holds it. *)
Record store_view (sys : system) : Prop := {
  sv_playlist : forall t, t ∈ playlist (client sys) -> t ∈ rows (db (sworld sys));
  sv_current : forall t, currentTrack (client sys) = Some t -> t ∈ rows (db (sworld sys));
  sv_inflight : forall t, FetchTrack t ∈ inflight (client sys) -> t ∈ rows (db (sworld sys))
}.

Lemma sys_step_store_view h sys sys' :
  sys_step (serve_of h) sys sys' -> store_view sys -> store_view sys'.
Proof.
  intros Hst [Hp Hc Hi].
  assert (Hmono : forall t, t ∈ rows (db (sworld sys)) -> t ∈ rows (db (sworld sys'))).
  { intros t Ht. apply (sys_step_world (fun w => t ∈ rows (db w)) (serve_of h) sys sys');
      [|exact Hst|exact Ht].
    intros p w fs r w' fs' Hw Hrun. exact (run_rows_mono _ _ _ _ _ _ _ Hw Hrun). }
  destruct (sys_step_client _ _ _ Hst) as [e He]. split; intros t Ht; apply Hmono.
  - destruct (sys_step_playlist (serve_of h) sys sys' Hst) as [Heq|Hperm].
    + rewrite Heq in Ht. by apply Hp.
    + by rewrite Hperm in Ht.
  - rewrite He in Ht. destruct (step_current _ _ _ Ht); [by apply Hc|by apply Hi].
  - rewrite He in Ht. destruct (step_inflight_tracks _ _ _ Ht); [by apply Hi|by apply Hp].
Qed.

(** C12: with either host, from the first render on any store, in every
    interleaving of user events, element events and request settlements
    under any fault schedule, the player's view is in the store
    ([store_view]): every track of the playlist, the current track, and the
    track of every request in flight are rows of the table as the table
    holds them. The player never shows a track the store does not have. *)
Theorem player_rows_in_store h w fs sys :
  rtc (sys_step (serve_of h)) (mk_system mounted w fs) sys -> store_view sys.
Proof.
  intros Hr. apply (rtc_inv _ store_view _ _ (sys_step_store_view h) Hr).
  split; cbn; intros t Ht; [by apply not_elem_of_nil in Ht|done|].
  apply list_elem_of_singleton in Ht. discriminate.
Qed.

(** ** A run *)

Definition typed_world : world :=
  mk_world (mk_table [mk_row 1 (Some "song.mp3") (Some "/music/song.mp3") (Some 1%Z)] 2) ∅.

(** The first render's listing settles on the edge-function host. *)
Definition listed_system : system :=
  settle_request Worker.fetch 0 (mk_system mounted typed_world []).

Lemma listed_system_reach :
  rtc (sys_step (serve_of Edge)) (mk_system mounted typed_world []) listed_system.
Proof. eapply rtc_l; [apply (sys_settle (serve_of Edge) _ 0); simpl; lia|apply rtc_refl]. Qed.

Lemma rows_stay_typed_witness :
  typed_table (sworld listed_system) /\
  items (view (client listed_system)) =
    [mk_item 1 false "song.mp3" (position_prefix ++ "1")].
Proof.
  assert (Hw : typed_table typed_world).
  { repeat constructor; eexists; reflexivity. }
  destruct (rows_stay_typed Edge typed_world [] listed_system Hw listed_system_reach) as [H _].
  split; [exact H|vm_compute; reflexivity].
Defined.

(** The listed track is the stored row. *)
Lemma player_rows_in_store_witness :
  playlist (client listed_system) = rows (db (sworld listed_system)) /\
  forall t, t ∈ playlist (client listed_system) -> t ∈ rows (db (sworld listed_system)).
Proof.
  split; [vm_compute; reflexivity|].
  exact (sv_playlist _ (player_rows_in_store Edge typed_world [] listed_system listed_system_reach)).
Defined.

End Schema.
